(** * Arc.js: transaction tracking, wrapper cache, DAO discovery, settings

    A shallow embedding of the parts of Arc.js that its specification
    talks about, and the properties checked against them.

    - [Utils]: the scheme-permissions string codec of lib/utils.ts.
    - [ConfigService]: dotted-path [get] and [set] of lib/configService.ts.
    - [ContractWrapperFactory]: the wrapper cache of contractWrapperFactory.ts.
    - [TransactionService]: the kickoff that [DAO.new] publishes, and the
      tracker of the specification.
    - [DAO]: scheme and constraint discovery of lib/dao.ts, and [DAO.new].
    - [WrapperService]: the directory of deployed wrappers.

    The first half of the file holds the definitions, module by module; the
    second half holds the lemmas, in modules named after the ones they are
    about. *)

From Stdlib Require Import ZArith Lia List Ascii String Bool.
From stdpp Require Import gmap strings list fin_maps.

Import ListNotations.
Local Open Scope Z_scope.

(** ** Outcomes of fallible code

    A JavaScript call either returns or throws; an awaited promise either
    resolves or rejects.  Both are a [Result]. *)

Inductive Result (A : Type) : Type :=
| Ok (a : A)
| Throw (msg : string).

Arguments Ok {A} a.
Arguments Throw {A} msg.

#[global] Instance Result_ret : MRet Result := fun A a => Ok a.

#[global] Instance Result_bind : MBind Result := fun A B k r =>
  match r with
  | Ok a => k a
  | Throw msg => Throw msg
  end.

(** ** lib/utils.ts: scheme permissions as strings *)

Module Utils.


(** Digits as [Number.prototype.toString(16)] writes them: lower case. *)
Definition hexDigit (d : Z) : ascii :=
  match d with
  | 0 => "0" | 1 => "1" | 2 => "2" | 3 => "3"
  | 4 => "4" | 5 => "5" | 6 => "6" | 7 => "7"
  | 8 => "8" | 9 => "9" | 10 => "a" | 11 => "b"
  | 12 => "c" | 13 => "d" | 14 => "e" | _ => "f"
  end%char.

(** The value of a digit, as the numeric-literal grammar reads it: letters
    in either case. *)
Definition digitValue (c : ascii) : option Z :=
  let n := Z.of_nat (nat_of_ascii c) in
  if (48 <=? n) && (n <=? 57) then Some (n - 48)
  else if (97 <=? n) && (n <=? 102) then Some (n - 87)
  else if (65 <=? n) && (n <=? 70) then Some (n - 55)
  else None.

Definition isHexDigit (c : ascii) : bool :=
  match digitValue c with Some _ => true | None => false end.

Definition isDecimalDigit (c : ascii) : bool :=
  let n := Z.of_nat (nat_of_ascii c) in (48 <=? n) && (n <=? 57).

(** [n.toString(16)] for an integer [n >= 0]: most significant digit first,
    no leading zero, ["0"] for zero.  [fuel] bounds the number of digits. *)
Fixpoint hexDigits (fuel : nat) (n : Z) : list ascii :=
  match fuel with
  | O => []
  | S fuel' =>
      if n <? 16 then [hexDigit n]
      else hexDigits fuel' (n / 16) ++ [hexDigit (n mod 16)]
  end.

Definition toString16 (n : Z) : list ascii :=
  hexDigits (S (Z.to_nat (Z.log2 n))) n.

(** [s.substr(-k)]: the last [k] characters, the whole string when it is
    shorter. *)
Definition substrFromEnd (k : nat) (s : list ascii) : list ascii :=
  skipn (length s - k) s.

(** Reading a run of digits in a base, left to right. *)
Definition readDigits (base : Z) (ds : list ascii) : Z :=
  fold_left (fun acc c => acc * base + default 0 (digitValue c)) ds 0.

(** [Number(s)] on the integer literals: the empty string is 0, ["0x"] or
    ["0X"] followed by hexadecimal digits is read in base 16, a run of
    decimal digits in base 10.  [None] stands for every other string
    (for those JavaScript gives NaN or a number this model has no use for). *)
Definition Number (s : string) : option Z :=
  match list_ascii_of_string s with
  | [] => Some 0
  | c0 :: c1 :: d :: ds =>
      if Ascii.eqb c0 "0" && (Ascii.eqb c1 "x" || Ascii.eqb c1 "X") then
        if forallb isHexDigit (d :: ds) then Some (readDigits 16 (d :: ds))
        else None
      else if forallb isDecimalDigit (c0 :: c1 :: d :: ds)
           then Some (readDigits 10 (c0 :: c1 :: d :: ds)) else None
  | ds => if forallb isDecimalDigit ds then Some (readDigits 10 ds) else None
  end.

(** [Utils.permissionsStringToNumber]:
    [if (!permissions) { return 0; } return Number(permissions);] *)
Definition permissionsStringToNumber (permissions : string) : option Z :=
  match permissions with
  | EmptyString => Some 0
  | _ => Number permissions
  end.

(** A reading of permissions strings to run the discovery with, in the
    place of [SchemePermissions.fromString] of commonTypes.ts: the number
    read, 0 where [Number] has none. *)
Definition hexValue (permissions : string) : Z :=
  default 0 (permissionsStringToNumber permissions).

(** [Utils.numberToPermissionsString].  [none] is the enumeration member
    [SchemePermissions.None] of commonTypes.ts, which replaces a falsy
    argument.
    [`0x${("00000000" + permissions.toString(16)).substr(-8)}`] *)
Definition numberToPermissionsString (none : Z) (permissions : Z) : string :=
  let permissions := if permissions =? 0 then none else permissions in
  string_of_list_ascii
    ("0" :: "x" ::
     substrFromEnd 8 (list_ascii_of_string "00000000" ++ toString16 permissions))%char.

End Utils.

(** ** lib/configService.ts: settings addressed by dotted paths *)

Module ConfigService.

(** The settings are what [require("../config/default.json")] gives, JSON
    data, and what [set] has put there since: [undefined], [null],
    booleans, numbers, strings and plain objects.  An object has
    properties of its own, a finite map from names to values, all of them
    writable, it can be given more, and it has a prototype:
    [Object.prototype] for the objects of JSON data and of object
    literals, until an assignment to [__proto__] gives it another object
    or none.  No object is the value of two properties.  Arrays and the
    other objects for which the language has assignments of its own are
    left out. *)
#[warnings="-register-all"]
Inductive JsValue : Type :=
| JsUndefined
| JsNull
| JsBool (b : bool)
| JsNum (z : Z)
| JsStr (s : string)
| JsObj (proto : Prototype) (props : gmap string JsValue)
with Prototype : Type :=
| ObjectPrototype
| NullPrototype
| PlainPrototype (proto : Prototype) (props : gmap string JsValue).

(** What a read ends on: a value of the settings, or an object of the
    JavaScript engine ([Object.prototype], one of its functions, ...),
    known by a name. *)
Inductive Found : Type :=
| Value (v : JsValue)
| EngineObject (name : string).

(** What the engine answers when asked for a property of one of its
    objects, or of a primitive: a primitive, or one of its objects (an
    object assigned to a property of an engine object is an object of the
    engine from then on). *)
Inductive Answer : Type :=
| AUndefined
| ANull
| ABool (b : bool)
| ANum (z : Z)
| AStr (s : string)
| AObject (name : string).

Definition found (a : Answer) : Found :=
  match a with
  | AUndefined => Value JsUndefined
  | ANull => Value JsNull
  | ABool b => Value (JsBool b)
  | ANum z => Value (JsNum z)
  | AStr s => Value (JsStr s)
  | AObject name => EngineObject name
  end.

Definition answered (a : Result Answer) : Result Found :=
  match a with
  | Ok a => Ok (found a)
  | Throw msg => Throw msg
  end.

(** The JavaScript engine, as far as a path can lead into it.  A path
    leaves the settings when it reads a property of a boolean, a number or
    a string, which the engine looks up in the wrapper of the primitive,
    and when it reads, in an object, a name that neither the object nor a
    plain object up its prototype chain has and the chain ends on
    [Object.prototype].  What the path finds further on, in objects of the
    engine, and what an assignment at its end does to them, is the
    engine's to say.  [R] is the state of the objects of the engine.

    - [inheritedProperty r part]: [Object.prototype[part]], [part] not
      being [__proto__];
    - [walkEngineObject r name parts]: [result = o;
      parts.forEach(part => result = result[part])] for the object [o] of
      the engine called [name], [parts] not empty;
    - [walkPrimitive r p parts]: the same from the primitive [p];
    - [assignEngineObject r name parts value]: the descent from that
      object through all of [parts] but the last and the assignment of the
      last, [parts] not empty;
    - [assignPrimitive r p parts value]: the same from the primitive [p].

    [Object.prototype] is taken to be as the language defines it but for
    what assignments have added to it: its properties are writable data
    properties, except [__proto__], the accessor of the prototype of the
    object it is read or assigned on. *)
Record Engine (R : Type) : Type := {
  inheritedProperty : R -> string -> Answer;
  walkEngineObject : R -> string -> list string -> Result Answer;
  walkPrimitive : R -> JsValue -> list string -> Result Answer;
  assignEngineObject : R -> string -> list string -> JsValue -> Result R;
  assignPrimitive : R -> JsValue -> list string -> JsValue -> Result R
}.

Arguments inheritedProperty {R} _ _ _.
Arguments walkEngineObject {R} _ _ _ _.
Arguments walkPrimitive {R} _ _ _ _.
Arguments assignEngineObject {R} _ _ _ _ _.
Arguments assignPrimitive {R} _ _ _ _ _.

(** [setting.split(".")]: the segments between the dots; never empty (the
    empty string splits into one empty segment). *)
Fixpoint split (setting : string) : list string :=
  match setting with
  | EmptyString => [EmptyString]
  | String c rest =>
      if Ascii.eqb c "." then EmptyString :: split rest
      else match split rest with
           | seg :: segs => String c seg :: segs
           | [] => [String c EmptyString]
           end
  end.

(** Looking a name up the prototype chain of an object: it is a property
    of a plain object of the chain, or the chain reaches
    [Object.prototype] without it, or the chain ends without it. *)
Inductive Inherited : Type :=
| InPlain (v : JsValue)
| AtObjectPrototype
| Nowhere.

Fixpoint inherited (proto : Prototype) (part : string) : Inherited :=
  match proto with
  | ObjectPrototype => AtObjectPrototype
  | NullPrototype => Nowhere
  | PlainPrototype proto' props =>
      match props !! part with
      | Some v => InPlain v
      | None => inherited proto' part
      end
  end.

(** Where [o[part]] is found, [o] being an object: in a property of its
    own; in a property of a plain object up the chain; through the
    accessor [__proto__], which gives the prototype of [o], a plain object
    or [Object.prototype]; in a property of [Object.prototype]; or
    nowhere. *)
Inductive Resolution : Type :=
| Own (v : JsValue)
| Up (v : JsValue)
| ThePrototype (proto : Prototype) (props : gmap string JsValue)
| TheObjectPrototype
| InObjectPrototype
| Absent.

Definition resolve (proto : Prototype) (props : gmap string JsValue) (part : string)
  : Resolution :=
  match props !! part with
  | Some v => Own v
  | None =>
      match inherited proto part with
      | InPlain v => Up v
      | Nowhere => Absent
      | AtObjectPrototype =>
          if String.eqb part "__proto__" then
            match proto with
            | PlainPrototype p ps => ThePrototype p ps
            | _ => TheObjectPrototype
            end
          else InObjectPrototype
      end
  end.

(** [o[part]] as a read, [o] being an object; a name found nowhere reads
    as [undefined]. *)
Definition getProp {R} (E : Engine R) (r : R) (proto : Prototype)
  (props : gmap string JsValue) (part : string) : Found :=
  match resolve proto props part with
  | Own v | Up v => Value v
  | ThePrototype p ps => Value (JsObj p ps)
  | TheObjectPrototype => EngineObject "Object.prototype"
  | InObjectPrototype => found (inheritedProperty E r part)
  | Absent => Value JsUndefined
  end.

(** The [forEach] of [get]: [result = result[part]] for each part.
    Reading a property of [undefined] or [null] is a TypeError. *)
Fixpoint walk {R} (E : Engine R) (r : R) (result : Found) (parts : list string)
  : Result Found :=
  match parts with
  | [] => Ok result
  | part :: parts' =>
      match result with
      | EngineObject name => answered (walkEngineObject E r name parts)
      | Value JsUndefined | Value JsNull => Throw "TypeError: cannot read property"
      | Value (JsObj proto props) => walk E r (getProp E r proto props part) parts'
      | Value primitive => answered (walkPrimitive E r primitive parts)
      end
  end.

(** [ConfigService.get(setting)] on the settings [data], the engine being
    in the state [r]. *)
Definition get {R} (E : Engine R) (r : R) (data : JsValue) (setting : string)
  : Result Found :=
  match split setting with
  | [] => Ok (Value JsUndefined)
  | parts => walk E r (Value data) parts
  end.

(** [section[last] = value], [section] being an object.  A property of
    its own is overwritten.  Otherwise the name is looked up the chain:
    when that ends on the accessor [__proto__] of [Object.prototype], its
    setter gives [section] the prototype [value] when that is an object
    or [null], and does nothing for any other value; in every other case
    [section] gets a property of its own. *)
Definition setProp (proto : Prototype) (props : gmap string JsValue) (last : string)
  (value : JsValue) : JsValue :=
  match resolve proto props last with
  | ThePrototype _ _ | TheObjectPrototype =>
      match value with
      | JsObj p ps => JsObj (PlainPrototype p ps) props
      | JsNull => JsObj NullPrototype props
      | _ => JsObj proto props
      end
  | _ => JsObj proto (<[last := value]> props)
  end.

(** The plain object of a prototype chain that has [part] for its own,
    with [v] in its place. *)
Fixpoint replaceUp (proto : Prototype) (part : string) (v : JsValue) : Prototype :=
  match proto with
  | PlainPrototype proto' props =>
      match props !! part with
      | Some _ => PlainPrototype proto' (<[part := v]> props)
      | None => PlainPrototype (replaceUp proto' part v) props
      end
  | _ => proto
  end.

(** An object as the prototype of another; [proto] stays when [v] is no
    object. *)
Definition asPrototype (v : JsValue) (proto : Prototype) : Prototype :=
  match v with
  | JsObj p ps => PlainPrototype p ps
  | _ => proto
  end.

(** The descent and the assignment from what the engine answered. *)
Definition assignAnswer {R} (E : Engine R) (r : R) (a : Answer) (parts : list string)
  (value : JsValue) : Result R :=
  match a with
  | AObject name => assignEngineObject E r name parts value
  | AUndefined | ANull =>
      match parts with
      | [] | [_] => Throw "TypeError: cannot set property"
      | _ => Throw "TypeError: cannot read property"
      end
  | ABool b => assignPrimitive E r (JsBool b) parts value
  | ANum z => assignPrimitive E r (JsNum z) parts value
  | AStr s => assignPrimitive E r (JsStr s) parts value
  end.

(** [ConfigService.set]: descend through all parts but the last with
    [section = section[parts[i]]], then assign the last one in [section].
    The assignment is in place; here the objects on the way down are
    rebuilt around the changed one, where the descent found it.  A
    descent that leaves the settings goes on in the engine, and changes
    the engine only.  Reading or assigning a property of [undefined] or
    [null] is a TypeError.  With no part at all, [parts[-1]] would be
    [undefined] and the property assigned the one of that name. *)
Fixpoint assign {R} (E : Engine R) (r : R) (section : JsValue) (parts : list string)
  (value : JsValue) : Result (JsValue * R) :=
  match section with
  | JsUndefined | JsNull =>
      match parts with
      | [] | [_] => Throw "TypeError: cannot set property"
      | _ => Throw "TypeError: cannot read property"
      end
  | JsBool _ | JsNum _ | JsStr _ =>
      r' ← assignPrimitive E r section
             (match parts with [] => ["undefined"%string] | _ => parts end) value;
      Ok (section, r')
  | JsObj proto props =>
      match parts with
      | [] => Ok (setProp proto props "undefined" value, r)
      | [last] => Ok (setProp proto props last value, r)
      | part :: parts' =>
          match resolve proto props part with
          | Own inner =>
              '(inner', r') ← assign E r inner parts' value;
              Ok (JsObj proto (<[part := inner']> props), r')
          | Up inner =>
              '(inner', r') ← assign E r inner parts' value;
              Ok (JsObj (replaceUp proto part inner') props, r')
          | ThePrototype p ps =>
              '(inner', r') ← assign E r (JsObj p ps) parts' value;
              Ok (JsObj (asPrototype inner' proto) props, r')
          | TheObjectPrototype =>
              r' ← assignEngineObject E r "Object.prototype" parts' value;
              Ok (section, r')
          | InObjectPrototype =>
              r' ← assignAnswer E r (inheritedProperty E r part) parts' value;
              Ok (section, r')
          | Absent =>
              '(_, r') ← assign E r JsUndefined parts' value;
              Ok (section, r')
          end
      end
  end.

(** [ConfigService.set(setting, value)]: the settings and the engine
    after the call. *)
Definition set {R} (E : Engine R) (r : R) (data : JsValue) (setting : string)
  (value : JsValue) : Result (JsValue * R) :=
  assign E r data (split setting) value.

(** The condition on a path: every segment but the last names a property
    of its own of the object before, which holds an object. *)
Fixpoint intermediatesAreObjects (section : JsValue) (parts : list string) : Prop :=
  match parts with
  | [] | [_] => exists proto props, section = JsObj proto props
  | part :: parts' =>
      exists proto props inner,
        section = JsObj proto props /\ props !! part = Some inner
        /\ intermediatesAreObjects inner parts'
  end.

(** The names of the functions [Object.prototype] has by the language. *)
Definition objectPrototypeFunctions : list string :=
  [ "constructor"; "hasOwnProperty"; "isPrototypeOf"; "propertyIsEnumerable";
    "toLocaleString"; "toString"; "valueOf"; "__defineGetter__";
    "__defineSetter__"; "__lookupGetter__"; "__lookupSetter__" ]%string.

(** An engine for the examples, to whose objects nothing has been
    assigned: [Object.prototype] has the functions of the language and no
    other property.  No example goes further into it: beyond the
    properties of [Object.prototype] it is not asked, and has nothing to
    answer. *)
Definition unasked : Engine unit :=
  {| inheritedProperty :=
       fun _ part =>
         if bool_decide (part ∈ objectPrototypeFunctions)
         then AObject (String.append "Object.prototype." part)
         else AUndefined;
     walkEngineObject := fun _ _ _ => Throw "not asked";
     walkPrimitive := fun _ _ _ => Throw "not asked";
     assignEngineObject := fun _ _ _ _ => Throw "not asked";
     assignPrimitive := fun _ _ _ _ => Throw "not asked" |}.

(** Settings with a nested section, as config/default.json has them. *)
Definition sampleData : JsValue :=
  JsObj ObjectPrototype
    {[ "providerPort" := JsNum 8545;
       "txDepthRequiredForConfirmation" :=
         JsObj ObjectPrototype {[ "default" := JsNum 7; "ganache" := JsNum 0 ]} ]}.

End ConfigService.

(** ** Addresses, wrappers, notifications and effects *)

Definition Address := string.

(** [if (address)]: [undefined] and the empty string are falsy. *)
Definition truthy (address : option Address) : bool :=
  match address with
  | Some a => negb (String.eqb a "")
  | None => false
  end.

(** A contract wrapper, as far as the cache and the directory look at it:
    which object it is ([instance] tells two wrapper objects apart), its
    [name] and the [address] of its contract. *)
Record Wrapper : Type := {
  instance : nat;
  name : string;
  address : Address
}.

#[global] Instance Wrapper_eq_dec : EqDecision Wrapper.
Proof. solve_decision. Defined.

(** One entry of the [schemes] array given to [DAO.new]. *)
Record SchemeConfig : Type := {
  schemeName : string;
  votingMachineParams : option (Z * bool)
}.

(** [NewDaoConfig]: the options of [DAO.new]. *)
Record NewDaoConfig : Type := {
  daoCreatorAddress : option Address;
  schemes : option (list SchemeConfig)
}.

(** The payload given to the subscribers of a transaction topic:
    [{ options, txCount, tx }], [tx] being [null] before any transaction. *)
Record TxEventInfo : Type := {
  options : option NewDaoConfig;
  txCount : Z;
  tx : option string
}.

(** What a run does to the world outside, in the order it does it. *)
Inductive Effect : Type :=
| RequireContract (contractName : string)
| Hydrate (contractName : string)
| Publish (topic : string) (info : TxEventInfo)
| NewTxEventContext (functionName : string)
| SendTransaction (functionName : string)
| ReadAvatar (avatar : Address).

(** The effects that go to the node: loading a contract asks for the
    accounts, hydrating reads or deploys the contract, a transaction is
    sent, an avatar is read. *)
Definition isNetworkCall (e : Effect) : bool :=
  match e with
  | RequireContract _ | Hydrate _ | SendTransaction _ | ReadAvatar _ => true
  | Publish _ _ | NewTxEventContext _ => false
  end.

(** The effects of finding a wrapper of a contract: loading the contract,
    hydrating the wrapper. *)
Definition lookupEffect (contractName : string) (e : Effect) : Prop :=
  e = RequireContract contractName \/ e = Hydrate contractName.

Definition isHydrate (e : Effect) : bool :=
  match e with Hydrate _ => true | _ => false end.

Definition isTransaction (e : Effect) : bool :=
  match e with SendTransaction _ => true | _ => false end.

(** ** contractWrapperFactory.ts: the wrapper cache *)

Module ContractWrapperFactory.

(** The truffle contract a factory holds once it is loaded.
    [contractAddress] is [this.solidityContract.address]; it is [None] when
    reading it throws, the contract not being deployed. *)
Record SolidityContract : Type := {
  contractAddress : option Address
}.

(** A factory object: the constructor's [solidityContractName] and the
    private field [solidityContract], empty until the first use. *)
Record Factory : Type := {
  solidityContractName : string;
  solidityContract : option SolidityContract
}.

(** The static state of the class and what the run has done so far:
    [contractCache] is the Map keyed by contract name of Maps keyed by
    address; [cacheContractWrappers] is what
    [configService.get("cacheContractWrappers")] answers. *)
Record State : Type := {
  contractCache : gmap string (gmap Address Wrapper);
  cacheContractWrappers : bool;
  trace : list Effect
}.

Definition emit (e : Effect) (st : State) : State :=
  {| contractCache := contractCache st;
     cacheContractWrappers := cacheContractWrappers st;
     trace := trace st ++ [e] |}.

(** How many times a [getWrapper] callback has been invoked. *)
Definition hydrations (st : State) : nat :=
  length (List.filter isHydrate (trace st)).

(** The callback [getWrapper]: a new wrapper object hydrated from the
    chain.  Its outcome is not decided by this program; [h n] is the outcome
    of the call made after [n] earlier ones: a wrapper, [undefined] when no
    contract is found, or a rejection. *)
Definition Hydrator : Type := nat -> Result (option Wrapper).

Definition invoke (f : Factory) (getWrapper : Hydrator) (st : State)
  : Result (option Wrapper) * State :=
  (getWrapper (hydrations st), emit (Hydrate (solidityContractName f)) st).

(** [getCachedContract(name, at)] *)
Definition getCachedContract (st : State) (name : string) (at_ : Address)
  : option Wrapper :=
  if String.eqb at_ "" then None
  else addressMap ← contractCache st !! name; addressMap !! at_.

(** [setCachedContract(name, wrapper)]: the entry goes under the wrapper's
    own address. *)
Definition setCachedContract (name : string) (wrapper : option Wrapper) (st : State)
  : State :=
  match wrapper with
  | None => st
  | Some w =>
      let addressMap := default ∅ (contractCache st !! name) in
      {| contractCache := <[name := <[address w := w]> addressMap]> (contractCache st);
         cacheContractWrappers := cacheContractWrappers st;
         trace := trace st |}
  end.

(** Where a call of [getHydratedWrapper] stands once it has run as far as
    it can without waiting: it has returned a cached wrapper, or it waits
    for [getWrapper()] on the caching path, or on the path without cache.
    The waiting ones carry the outcome the callback will settle with. *)
Inductive Suspension : Type :=
| Returned (cached : Wrapper)
| AwaitCaching (outcome : Result (option Wrapper))
| AwaitPlain (outcome : Result (option Wrapper)).

(** [getHydratedWrapper] up to its [await]. *)
Definition enter (f : Factory) (getWrapper : Hydrator) (address : option Address)
  (st : State) : Suspension * State :=
  if cacheContractWrappers st then
    let address :=
      if truthy address then address
      else c ← solidityContract f; contractAddress c in
    let hydratedWrapper :=
      if truthy address
      then a ← address; getCachedContract st (solidityContractName f) a
      else None in
    match hydratedWrapper with
    | Some w => (Returned w, st)
    | None => let '(r, st') := invoke f getWrapper st in (AwaitCaching r, st')
    end
  else
    let '(r, st') := invoke f getWrapper st in (AwaitPlain r, st').

(** [getHydratedWrapper] from its [await] on. *)
Definition leave (f : Factory) (s : Suspension) (st : State)
  : Result (option Wrapper) * State :=
  match s with
  | Returned w => (Ok (Some w), st)
  | AwaitCaching (Ok hydratedWrapper) =>
      (Ok hydratedWrapper, setCachedContract (solidityContractName f) hydratedWrapper st)
  | AwaitCaching (Throw msg) => (Throw msg, st)
  | AwaitPlain r => (r, st)
  end.

(** [getHydratedWrapper(getWrapper, address)] when nothing else runs while
    it waits. *)
Definition getHydratedWrapper (f : Factory) (getWrapper : Hydrator)
  (address : option Address) (st : State) : Result (option Wrapper) * State :=
  let '(s, st') := enter f getWrapper address st in leave f s st'.

(** [ensureSolidityContract()]; [requireContract] is [Utils.requireContract],
    which loads the artifact and asks the node for the default account. *)
Definition ensureSolidityContract (requireContract : string -> Result SolidityContract)
  (f : Factory) (st : State) : Result SolidityContract * Factory * State :=
  match solidityContract f with
  | Some c => (Ok c, f, st)
  | None =>
      let st' := emit (RequireContract (solidityContractName f)) st in
      match requireContract (solidityContractName f) with
      | Ok c => (Ok c, {| solidityContractName := solidityContractName f;
                          solidityContract := Some c |}, st')
      | Throw msg => (Throw msg, f, st')
      end
  end.

(** [at(address)] *)
Definition at_ (requireContract : string -> Result SolidityContract)
  (f : Factory) (hydrateFromAt : Address -> Hydrator) (address : Address)
  (st : State) : Result (option Wrapper) * Factory * State :=
  let '(rc, f', st1) := ensureSolidityContract requireContract f st in
  match rc with
  | Throw msg => (Throw msg, f', st1)
  | Ok _ =>
      let '(r, st2) := getHydratedWrapper f' (hydrateFromAt address) (Some address) st1 in
      (r, f', st2)
  end.

(** [deployed()] *)
Definition deployed (requireContract : string -> Result SolidityContract)
  (f : Factory) (hydrateFromDeployed : Hydrator)
  (st : State) : Result (option Wrapper) * Factory * State :=
  let '(rc, f', st1) := ensureSolidityContract requireContract f st in
  match rc with
  | Throw msg => (Throw msg, f', st1)
  | Ok _ =>
      let '(r, st2) := getHydratedWrapper f' hydrateFromDeployed None st1 in
      (r, f', st2)
  end.

(** [new(...rest)].  The constructor arguments, and the gas parameters
    added to them when ["estimateGas"] is set, only travel to
    [hydrateFromNew]; they are part of what decides its outcome. *)
Definition new (requireContract : string -> Result SolidityContract)
  (f : Factory) (hydrateFromNew : Hydrator)
  (st : State) : Result (option Wrapper) * Factory * State :=
  let '(rc, f', st1) := ensureSolidityContract requireContract f st in
  match rc with
  | Throw msg => (Throw msg, f', st1)
  | Ok _ =>
      let '(r, st2) := invoke f' hydrateFromNew st1 in
      match r with
      | Ok (Some w) =>
          if cacheContractWrappers st2
          then (r, f', setCachedContract (solidityContractName f') (Some w) st2)
          else (r, f', st2)
      | _ => (r, f', st2)
      end
  end.

(** [k] calls of [getHydratedWrapper] for the same address, each one
    awaited before the next: the results in order, and the state left. *)
Fixpoint lookups (f : Factory) (getWrapper : Hydrator) (a : Address) (k : nat)
  (st : State) : list (Result (option Wrapper)) * State :=
  match k with
  | O => ([], st)
  | S k' =>
      let '(r, st') := getHydratedWrapper f getWrapper (Some a) st in
      let '(rs, st'') := lookups f getWrapper a k' st' in
      (r :: rs, st'')
  end.

(** *** Several lookups in flight

    JavaScript runs one call at a time and changes call only at an [await].
    A lookup is not started yet, or suspended at its [await], or done. *)
Inductive Task : Type :=
| NotStarted (address : option Address)
| Suspended (s : Suspension)
| Done (r : Result (option Wrapper)).

(** One turn of a task: from the start to the [await] (or to the end, on a
    cache hit), or from the [await] to the end. *)
Definition step (f : Factory) (getWrapper : Hydrator) (t : Task) (st : State)
  : Task * State :=
  match t with
  | NotStarted address =>
      let '(s, st') := enter f getWrapper address st in
      match s with
      | Returned w => (Done (Ok (Some w)), st')
      | _ => (Suspended s, st')
      end
  | Suspended s => let '(r, st') := leave f s st in (Done r, st')
  | Done r => (Done r, st)
  end.

(** Running the tasks in the order a schedule names them. *)
Fixpoint run (f : Factory) (getWrapper : Hydrator) (schedule : list nat)
  (tasks : list Task) (st : State) : list Task * State :=
  match schedule with
  | [] => (tasks, st)
  | i :: schedule' =>
      match tasks !! i with
      | None => run f getWrapper schedule' tasks st
      | Some t =>
          let '(t', st') := step f getWrapper t st in
          run f getWrapper schedule' (<[i := t']> tasks) st'
      end
  end.

(** A lookup of the address [a] that is not in flight: it has not
    started, or it is done. *)
Definition notInFlight (a : Address) (t : Task) : Prop :=
  t = NotStarted (Some a) \/ exists r, t = Done r.

(** What a run in which every lookup is answered by the wrapper [w] makes
    of a task: it leaves it as it is, or it takes a lookup that had not
    started to its end, with [w] for result. *)
Definition answeredWith (w : Wrapper) (before after : Task) : Prop :=
  after = before
  \/ (exists address, before = NotStarted address) /\ after = Done (Ok (Some w)).

(** A task that stores no wrapper of the address [a] when it goes on:
    it is not a lookup waiting, on the caching path, for a callback whose
    outcome is a wrapper of that address. *)
Definition storesElsewhere (a : Address) (t : Task) : Prop :=
  match t with
  | Suspended (AwaitCaching (Ok (Some w'))) => address w' <> a
  | _ => True
  end.

(** The lookups of the address [a] from the state [st] on are served
    from the cache, by the wrapper [w], whatever their callback.
    - Any number of them, each awaited before the next, return [w] and
      leave the state as it is, the callback not invoked.
    - So do lookups of [a] that run together, none of them in flight at
      the start, under any schedule: the state is left as it is, the
      tasks are left as they were but for the lookups run, and every
      lookup that the schedule names ends with [w].
    - And when they run among other tasks, lookups of other addresses or
      lookups in flight, none of which stores a wrapper of the address
      [a]: the entry is in place at the end, and every lookup of [a] that
      the schedule names has ended with [w]. *)
Definition servedFromCache (f : Factory) (a : Address) (w : Wrapper) (st : State)
  : Prop :=
  forall getWrapper : Hydrator,
    (forall k, lookups f getWrapper a k st = (repeat (Ok (Some w)) k, st))
    /\ (forall (schedule : list nat) (tasks : list Task),
          Forall (notInFlight a) tasks ->
          exists tasks',
            run f getWrapper schedule tasks st = (tasks', st)
            /\ Forall2 (answeredWith w) tasks tasks'
            /\ forall i, In i schedule -> tasks !! i = Some (NotStarted (Some a)) ->
                 tasks' !! i = Some (Done (Ok (Some w))))
    /\ (forall (schedule : list nat) (tasks : list Task),
          (forall n w', getWrapper n = Ok (Some w') -> address w' <> a) ->
          Forall (storesElsewhere a) tasks ->
          exists tasks' st',
            run f getWrapper schedule tasks st = (tasks', st')
            /\ cacheContractWrappers st' = true
            /\ getCachedContract st' (solidityContractName f) a = Some w
            /\ forall i, In i schedule -> tasks !! i = Some (NotStarted (Some a)) ->
                 tasks' !! i = Some (Done (Ok (Some w)))).

(** *** A factory and callbacks to run the definitions on *)

Definition upgradeSchemeFactory : Factory :=
  {| solidityContractName := "UpgradeScheme";
     solidityContract := Some {| contractAddress := Some "0xd0"%string |} |}.

(** The wrapper object number [n], of the contract at [a]. *)
Definition wrapperAt (a : Address) (n : nat) : Wrapper :=
  {| instance := n; name := "UpgradeScheme"; address := a |}.

(** A callback that finds the contract every time; each call makes a new
    wrapper object, as [new this.wrapper(...)] does. *)
Definition hydrateFromAt (a : Address) : Hydrator :=
  fun n => Ok (Some (wrapperAt a n)).

(** A callback that is rejected the first time and succeeds afterwards. *)
Definition hydrateFailingOnce (a : Address) : Hydrator :=
  fun n => match n with
           | O => Throw "hydrateFromAt: the node did not answer"
           | S _ => Ok (Some (wrapperAt a n))
           end.

(** Nothing cached, nothing done yet. *)
Definition initial (caching : bool) : State :=
  {| contractCache := ∅; cacheContractWrappers := caching; trace := [] |}.

(** The setting ["cacheContractWrappers"] changed from outside. *)
Definition configure (caching : bool) (st : State) : State :=
  {| contractCache := contractCache st;
     cacheContractWrappers := caching;
     trace := trace st |}.

End ContractWrapperFactory.

(** ** TransactionService: the kickoff of [DAO.new], and the tracker of the specification *)

Module TransactionService.

(** A notification as a subscriber sees it: the topic and the payload. *)
Definition Notification : Type := string * TxEventInfo.

(** transactionService.ts is not among the sources.  Of the count in the
    payload of the kickoff the specification says two things: that the
    expected total "is embedded in the very first notification" (section
    4.2, on the estimate), and that the kickoff has count 0, the count
    being a running one (sections 3 and 8, and section 4.2 on
    [beginOperation]).  [publishKickoffEvent], which [DAO.new] calls with
    the total, is written down the first way; the tracker that follows
    it, the second. *)

(** Modelled from the spec: the payload of the kickoff, with [tx = null]
    and the expected total for count, the reading of section 4.2. *)
Definition kickoffPayload (opts : NewDaoConfig) (count : Z) : TxEventInfo :=
  {| options := Some opts; txCount := count; tx := None |}.

(** Modelled from the spec: [publishKickoffEvent(functionName, options,
    txCount)] publishes the kickoff payload on the function's topic under
    [txReceipts], the topic the test subscribes to, and returns it. *)
Definition publishKickoffEvent (functionName : string) (opts : NewDaoConfig)
  (count : Z) (st : ContractWrapperFactory.State)
  : TxEventInfo * ContractWrapperFactory.State :=
  let payload := kickoffPayload opts count in
  (payload,
   ContractWrapperFactory.emit
     (Publish (String.append "txReceipts." functionName) payload) st).

(** *** The tracker of section 4.2 *)

(** Modelled from the spec: the [TxEventContext] of section 3, which
    transactionService.ts, not among the sources, would define: a unique
    id, the originating topic, the number of transactions expected, and
    the parent context when the operation is nested.  With them go the
    arguments of the call, which every payload carries, and the running
    count, which [recordStepMined] increments.  A context is propagated
    by value: [recordStepMined] returns the one with the new count. *)
#[warnings="-register-all"]
Inductive TxEventContext : Type := TxContext {
  contextId : nat;
  originatingTopic : string;
  arguments : NewDaoConfig;
  totalExpected : Z;
  runningCount : Z;
  parent : option TxEventContext
}.

(** Modelled from the spec: what the tracker keeps, its implementation
    not being among the sources: the id that the next context gets, and
    everything given to [publish] of the bus of section 4.1 so far, which
    keeps the order of the calls. *)
Record Tracker : Type := {
  nextId : nat;
  published : list Notification
}.

(** Nothing published yet. *)
Definition emptyTracker : Tracker := {| nextId := 0; published := [] |}.

(** Modelled from the spec: [publish(topic, payload)] of section 4.1, as
    far as the tracker is concerned: one more notification. *)
Definition publish (topic : string) (info : TxEventInfo) (t : Tracker) : Tracker :=
  {| nextId := nextId t; published := published t ++ [(topic, info)] |}.

(** Modelled from the spec: "the parent's topic chain up to the root" of
    section 4.2: the topics of the parent, of its parent, and so on. *)
Fixpoint parentChain (context : TxEventContext) : list string :=
  match context with
  | TxContext _ _ _ _ _ (Some p) => originatingTopic p :: parentChain p
  | TxContext _ _ _ _ _ None => []
  end.


(** Modelled from the spec: [beginOperation(topic, args, totalSteps,
    parentContext?)] of section 4.2: it "publishes the initial kickoff
    TxEventInfo ([tx = null], [count = 0]) on [topic], and, if
    [parentContext] is given, also re-publishes the same information
    (with the parent's topic)"; it returns the context, which has a new
    id. *)
Definition beginOperation (topic : string) (args : NewDaoConfig) (totalSteps : Z)
  (parentContext : option TxEventContext) (t : Tracker) : TxEventContext * Tracker :=
  let kickoff := {| options := Some args; txCount := 0; tx := None |} in
  let context :=
    {| contextId := nextId t; originatingTopic := topic; arguments := args;
       totalExpected := totalSteps; runningCount := 0; parent := parentContext |} in
  let t' := publish topic kickoff {| nextId := S (nextId t); published := published t |} in
  (context,
   match parentContext with
   | Some p => publish (originatingTopic p) kickoff t'
   | None => t'
   end).

(** Modelled from the spec: [recordStepMined(context, receipt)] of section
    4.2: it "increments the context's running count, publishes a
    TxEventInfo with the receipt on the context's topic, and, if the
    context has a parent, re-publishes identically on the parent's topic
    chain up to the root". *)
Definition recordStepMined (context : TxEventContext) (receipt : string) (t : Tracker)
  : TxEventContext * Tracker :=
  let count := runningCount context + 1 in
  let info := {| options := Some (arguments context); txCount := count;
                 tx := Some receipt |} in
  ({| contextId := contextId context; originatingTopic := originatingTopic context;
      arguments := arguments context; totalExpected := totalExpected context;
      runningCount := count; parent := parent context |},
   fold_left (fun t topic => publish topic info t)
     (originatingTopic context :: parentChain context) t).

(** Modelled from the spec: [recordStepMined] "called exactly once per
    underlying transaction, in mining order". *)
Fixpoint recordSteps (context : TxEventContext) (receipts : list string) (t : Tracker)
  : TxEventContext * Tracker :=
  match receipts with
  | [] => (context, t)
  | receipt :: receipts' =>
      let '(context', t') := recordStepMined context receipt t in
      recordSteps context' receipts' t'
  end.

(** Modelled from the spec: an operation as the scenario of section 8
    runs it: [beginOperation], then [recordStepMined] for each of the
    transactions it mines, on the context that [beginOperation]
    returned. *)
Definition operation (topic : string) (args : NewDaoConfig) (totalSteps : Z)
  (receipts : list string) (parentContext : option TxEventContext) (t : Tracker)
  : TxEventContext * Tracker :=
  let '(context, t') := beginOperation topic args totalSteps parentContext t in
  recordSteps context receipts t'.




(** The options of the test: two schemes, the second with voting
    parameters. *)
Definition testOptions : NewDaoConfig :=
  {| daoCreatorAddress := None;
     schemes := Some [ {| schemeName := "SchemeRegistrar"; votingMachineParams := None |};
                       {| schemeName := "UpgradeScheme";
                          votingMachineParams := Some (30, true) |} ] |}.




End TransactionService.

(** ** WrapperService: the directory of deployed wrappers *)

Module WrapperService.

(** Modelled from the spec: wrapperService.ts is not among the sources.
    Section 4.4 describes a directory built once by [initialize], with a
    mapping from contract-type name to the deployed wrapper and a reverse
    mapping from address to wrapper, and lookups [byType] and [byAddress]
    for which a missing entry is a normal outcome. *)
Record Directory : Type := {
  wrappers : gmap string Wrapper;
  wrappersByAddress : gmap Address Wrapper
}.

(** Modelled from the spec: the directory before [initialize]. *)
Definition uninitialized : Directory :=
  {| wrappers := ∅; wrappersByAddress := ∅ |}.

(** Modelled from the spec: a resolved wrapper goes into both mappings,
    under its type name and under its address. *)
Definition register (w : Wrapper) (dir : Directory) : Directory :=
  {| wrappers := <[name w := w]> (wrappers dir);
     wrappersByAddress := <[address w := w]> (wrappersByAddress dir) |}.


(** Modelled from the spec: [byType(name)], the wrapper or nothing. *)
Definition byType (dir : Directory) (typeName : string) : option Wrapper :=
  wrappers dir !! typeName.

(** Modelled from the spec: [byAddress(address)], the wrapper or nothing. *)
Definition byAddress (dir : Directory) (a : Address) : option Wrapper :=
  wrappersByAddress dir !! a.

(** Modelled from the spec: [getContractWrapper(contract, address?)], "an
    Arc.js contract wrapper or undefined if not found" in the words of its
    caller in lib/dao.ts.  Without an address it is the lookup by type;
    with one it is the lookup by address, kept when the wrapper found is
    of the type asked for. *)
Definition getContractWrapper (dir : Directory) (contract : string)
  (address : option Address) : Result (option Wrapper) :=
  if truthy address then
    Ok (a ← address; w ← byAddress dir a;
        if decide (name w = contract) then Some w else None)
  else Ok (byType dir contract).


Definition releasedDirectory : Directory :=
  register {| instance := 1; name := "AbsoluteVote"; address := "0xd1" |}
    (register {| instance := 0; name := "UpgradeScheme"; address := "0xd0" |}
       uninitialized).

End WrapperService.

(** ** dao.ts: creating a DAO, and finding what is registered in one *)

Module DAO.

(** *** [DAO.new]

    What [DAO.new] calls and this file does not define: the loading and
    hydration of a DaoCreator at a given address, the two estimators of
    the DaoCreator wrapper, its [forgeOrg] (answering the [_avatar] of the
    [NewOrg] log of the mined transaction, if there is one), its
    [setSchemes], and [DAO.at] (answering the avatar of the DAO found). *)
Record Collaborators : Type := {
  requireContract : string -> Result ContractWrapperFactory.SolidityContract;
  hydrateFromAt : Address -> ContractWrapperFactory.Hydrator;
  forgeOrgTransactionsCount : NewDaoConfig -> Z;
  setSchemesTransactionsCount : NewDaoConfig -> Z;
  forgeOrg : NewDaoConfig -> Result (option Address);
  setSchemes : Address -> NewDaoConfig -> Result unit;
  daoAt : Address -> Result (option Address)
}.

(** The first statement of [DAO.new]: the DaoCreator at
    [options.daoCreatorAddress] when that is given, the one of the
    directory otherwise. *)
Definition daoCreatorFor (c : Collaborators) (dir : WrapperService.Directory)
  (DaoCreatorFactory : ContractWrapperFactory.Factory) (opts : NewDaoConfig)
  (st : ContractWrapperFactory.State)
  : Result (option Wrapper) * ContractWrapperFactory.State :=
  if truthy (daoCreatorAddress opts) then
    let '(r, _, st') :=
      ContractWrapperFactory.at_ (requireContract c) DaoCreatorFactory
        (hydrateFromAt c) (default EmptyString (daoCreatorAddress opts)) st in
    (r, st')
  else (Ok (WrapperService.byType dir "DaoCreator"), st).

(** [DAO.new(options)]: the avatar of the new DAO, or what was thrown, and
    the state with the trace of what was done. *)
Definition new (c : Collaborators) (dir : WrapperService.Directory)
  (DaoCreatorFactory : ContractWrapperFactory.Factory) (opts : NewDaoConfig)
  (st : ContractWrapperFactory.State)
  : Result (option Address) * ContractWrapperFactory.State :=
  let '(r, st1) := daoCreatorFor c dir DaoCreatorFactory opts st in
  match r with
  | Throw msg => (Throw msg, st1)
  | Ok None => (Throw "TypeError: daoCreator is undefined", st1)
  | Ok (Some daoCreator) =>
      let '(payload, st2) :=
        TransactionService.publishKickoffEvent "DAO.new" opts
          (forgeOrgTransactionsCount c opts + setSchemesTransactionsCount c opts) st1 in
      let st3 := ContractWrapperFactory.emit (NewTxEventContext "DAO.new") st2 in
      let st4 := ContractWrapperFactory.emit (SendTransaction "DaoCreator.forgeOrg") st3 in
      match forgeOrg c opts with
      | Throw msg => (Throw msg, st4)
      | Ok avatarAddress =>
          if negb (truthy avatarAddress)
          then (Throw "avatar address is not defined", st4)
          else
            let avatar := default EmptyString avatarAddress in
            let st5 :=
              ContractWrapperFactory.emit (SendTransaction "DaoCreator.setSchemes") st4 in
            match setSchemes c avatar opts with
            | Throw msg => (Throw msg, st5)
            | Ok _ => (daoAt c avatar, ContractWrapperFactory.emit (ReadAvatar avatar) st5)
            end
      end
  end.

(** A DaoCreator factory not used before, and collaborators that all
    succeed: the estimators answer 1 and 5. *)
Definition DaoCreatorFactory : ContractWrapperFactory.Factory :=
  {| ContractWrapperFactory.solidityContractName := "DaoCreator";
     ContractWrapperFactory.solidityContract := None |}.

Definition cooperative : Collaborators :=
  {| requireContract :=
       fun _ => Ok {| ContractWrapperFactory.contractAddress := Some "0xdc"%string |};
     hydrateFromAt :=
       fun a n => Ok (Some {| instance := n; name := "DaoCreator"; address := a |});
     forgeOrgTransactionsCount := fun _ => 1;
     setSchemesTransactionsCount := fun _ => 5;
     forgeOrg := fun _ => Ok (Some "0xa1"%string);
     setSchemes := fun _ _ => Ok tt;
     daoAt := fun avatar => Ok (Some avatar) |}.

Definition directoryWithDaoCreator : WrapperService.Directory :=
  WrapperService.register
    {| instance := 0; name := "DaoCreator"; address := "0xdc" |}
    WrapperService.uninitialized.

(** The options of the test, with a DaoCreator of one's own. *)
Definition optionsWithDaoCreator : NewDaoConfig :=
  {| daoCreatorAddress := Some "0xdc"%string;
     schemes := schemes TransactionService.testOptions |}.

(** [getContractWrapper(contract, address?)] of lib/dao.ts. *)
Definition getContractWrapper (dir : WrapperService.Directory) (contract : string)
  (address : option Address) : Result (option Wrapper) :=
  WrapperService.getContractWrapper dir contract address.

(** *** Discovery: [_getSchemes] and [_getConstraints] of lib/dao.ts *)

(** [DaoSchemeInfo] and [DaoGlobalConstraintInfo]; [name] is [undefined]
    for an address that is not one of the known wrappers. *)
Record DaoSchemeInfo : Type := {
  name : option string;
  address : Address;
  permissions : Z
}.

Record DaoGlobalConstraintInfo : Type := {
  gcName : option string;
  gcAddress : Address;
  paramsHash : string
}.

(** The [args] of a decoded log entry of each event. *)
Record ControllerRegisterSchemeEventLogEntry : Type := {
  _scheme : Address
}.

Record ControllerAddGlobalConstraintsEventLogEntry : Type := {
  _globalConstraint : Address;
  _params : string
}.

(** What the callback of [event.get] receives: one entry or an array. *)
Inductive Log (A : Type) : Type :=
| Single (entry : A)
| Entries (entries : list A).

Arguments Single {A} entry.
Arguments Entries {A} entries.

(** [if (!Array.isArray(log)) { log = [log]; }] *)
Definition asArray {A} (log : Log A) : list A :=
  match log with
  | Single entry => [entry]
  | Entries entries => entries
  end.

(** The controller of the DAO as the discovery uses it.  [RegisterScheme]
    and [AddGlobalConstraint] are what [event.get] hands to its callback
    for the history from block 0 to the latest, oldest entry first: the
    log, or an error.  The other three are the reads of the present state
    of the contract, each of which can be rejected. *)
Record Controller : Type := {
  RegisterScheme : Result (Log ControllerRegisterSchemeEventLogEntry);
  AddGlobalConstraint : Result (Log ControllerAddGlobalConstraintsEventLogEntry);
  getSchemePermissions : Address -> Result string;
  isSchemeRegistered : Address -> Result bool;
  isGlobalConstraintRegistered : Address -> Result bool
}.

(** What becomes of the promise an [async] method returns: it resolves,
    it is rejected, or it never settles. *)
Inductive Awaited (A : Type) : Type :=
| Resolves (a : A)
| Rejects (msg : string)
| NeverSettles.

Arguments Resolves {A} a.
Arguments Rejects {A} msg.
Arguments NeverSettles {A}.

(** A JavaScript [Map] with string keys: [set] on a key it has replaces the
    value where it stands, a new key goes to the end, and [values()] runs
    in that order. *)
Definition JsMap (V : Type) : Type := list (string * V).

Fixpoint mapSet {V} (k : string) (v : V) (m : JsMap V) : JsMap V :=
  match m with
  | [] => [(k, v)]
  | (k', v') :: m' =>
      if String.eqb k' k then (k, v) :: m' else (k', v') :: mapSet k v m'
  end.

Definition mapValues {V} (m : JsMap V) : list V := map snd m.

Fixpoint mapGet {V} (k : string) (m : JsMap V) : option V :=
  match m with
  | [] => None
  | (k', v) :: m' => if String.eqb k' k then Some v else mapGet k m'
  end.

(** The entry of a log that counts for an address: the last one for it. *)
Definition lastFor {A} (addressOf : A -> Address) (a : Address) (entries : list A)
  : option A :=
  List.find (fun entry => String.eqb (addressOf entry) a) (rev entries).

(** The loop over [wrapperService.allWrappers]:
    [arcTypesMap.set(contract.address, name)]. *)
Definition arcTypes (allWrappers : list (string * Address)) : gmap Address string :=
  fold_left (fun m entry => <[snd entry := fst entry]> m) allWrappers ∅.

(** [_handleSchemeEvent(log, arcTypesMap, schemesMap)]; [fromString] is
    [SchemePermissions.fromString] of commonTypes.ts.  The loop awaits the
    permissions of each entry and stops at the first rejection. *)
Definition _handleSchemeEvent (fromString : string -> Z) (controller : Controller)
  (log : Log ControllerRegisterSchemeEventLogEntry)
  (arcTypesMap : gmap Address string) (schemesMap : JsMap DaoSchemeInfo)
  : Result (JsMap DaoSchemeInfo) :=
  fold_left
    (fun sofar entry =>
       schemesMap ← sofar;
       let schemeAddress := _scheme entry in
       permissions ← getSchemePermissions controller schemeAddress;
       let schemeInfo :=
         {| address := schemeAddress;
            name := arcTypesMap !! schemeAddress;
            permissions := fromString permissions |} in
       Ok (mapSet schemeAddress schemeInfo schemesMap))
    (asArray log) (Ok schemesMap).

(** The loop that ends both discoveries:
    [for (const x of map.values()) { if (await registered(x)) { out.push(x); } }] *)
Definition keepRegistered {V} (registered : V -> Result bool) (found : list V)
  : Result (list V) :=
  fold_left
    (fun sofar v =>
       out ← sofar;
       yes ← registered v;
       Ok (if yes : bool then out ++ [v] else out))
    found (Ok []).

(** [_getSchemes()].  The callback of [event.get] does not look at [err];
    with an error the log is [undefined] and the handler is rejected on
    [log[0].args].  A rejected handler never calls [resolve], and nothing
    rejects the promise awaited, so the method never returns. *)
Definition _getSchemes (fromString : string -> Z) (controller : Controller)
  (allWrappers : list (string * Address)) : Awaited (list DaoSchemeInfo) :=
  match RegisterScheme controller with
  | Throw _ => NeverSettles
  | Ok log =>
      match _handleSchemeEvent fromString controller log (arcTypes allWrappers) [] with
      | Throw _ => NeverSettles
      | Ok schemesMap =>
          match keepRegistered
                  (fun scheme => isSchemeRegistered controller (address scheme))
                  (mapValues schemesMap) with
          | Ok registeredSchemes => Resolves registeredSchemes
          | Throw msg => Rejects msg
          end
      end
  end.

(** [_handleConstraintEvent(log, arcTypesMap, constraintsMap)]; it awaits
    nothing. *)
Definition _handleConstraintEvent
  (log : Log ControllerAddGlobalConstraintsEventLogEntry)
  (arcTypesMap : gmap Address string) (constraintsMap : JsMap DaoGlobalConstraintInfo)
  : JsMap DaoGlobalConstraintInfo :=
  fold_left
    (fun constraintsMap entry =>
       let address := _globalConstraint entry in
       let paramsHash := _params entry in
       let info :=
         {| gcAddress := address;
            gcName := arcTypesMap !! address;
            paramsHash := paramsHash |} in
       mapSet address info constraintsMap)
    (asArray log) constraintsMap.

(** [_getConstraints()] *)
Definition _getConstraints (controller : Controller)
  (allWrappers : list (string * Address)) : Awaited (list DaoGlobalConstraintInfo) :=
  match AddGlobalConstraint controller with
  | Throw _ => NeverSettles
  | Ok log =>
      let constraintsMap := _handleConstraintEvent log (arcTypes allWrappers) [] in
      match keepRegistered
              (fun gc => isGlobalConstraintRegistered controller (gcAddress gc))
              (mapValues constraintsMap) with
      | Ok registeredConstraints => Resolves registeredConstraints
      | Throw msg => Rejects msg
      end
  end.

(** A controller that answers: its histories are the two logs and its
    reads succeed with the values of [perms], [reg] and [greg]. *)
Definition answers (controller : Controller)
  (schemeLog : Log ControllerRegisterSchemeEventLogEntry)
  (constraintLog : Log ControllerAddGlobalConstraintsEventLogEntry)
  (perms : Address -> string) (reg greg : Address -> bool) : Prop :=
  RegisterScheme controller = Ok schemeLog
  /\ AddGlobalConstraint controller = Ok constraintLog
  /\ (forall a, getSchemePermissions controller a = Ok (perms a))
  /\ (forall a, isSchemeRegistered controller a = Ok (reg a))
  /\ (forall a, isGlobalConstraintRegistered controller a = Ok (greg a)).

(** Modelled from the spec: the controller contract is outside the
    repository.  Section 4.5 has the history "append-only", made of
    register and deregister events, and the present state "queried from
    the entity, not from the log".  A controller after a run of calls: an
    address is registered when the last call on it registered it; the
    [RegisterScheme] history has one entry per registration. *)
Inductive ControllerCall : Type :=
| registerScheme (scheme : Address)
| unregisterScheme (scheme : Address).

(** Modelled from the spec: the present state of an address, "registered"
    when the last call on it registered it. *)
Definition registeredAfter (calls : list ControllerCall) (a : Address) : bool :=
  fold_left
    (fun registered call =>
       match call with
       | registerScheme s => if String.eqb s a then true else registered
       | unregisterScheme s => if String.eqb s a then false else registered
       end)
    calls false.

(** Modelled from the spec: the [RegisterScheme] history of the calls. *)
Definition registrations (calls : list ControllerCall)
  : list ControllerRegisterSchemeEventLogEntry :=
  flat_map
    (fun call =>
       match call with
       | registerScheme s => [ {| _scheme := s |} ]
       | unregisterScheme _ => []
       end)
    calls.

(** Modelled from the spec: the controller as the discovery sees it after
    the calls; it has no constraint. *)
Definition controllerAfter (calls : list ControllerCall) : Controller :=
  {| RegisterScheme := Ok (Entries (registrations calls));
     AddGlobalConstraint := Ok (Entries []);
     getSchemePermissions :=
       fun a => Ok (if registeredAfter calls a then "0x00000001" else "0x00000000")%string;
     isSchemeRegistered := fun a => Ok (registeredAfter calls a);
     isGlobalConstraintRegistered := fun _ => Ok false |}.

(** A controller whose constraint at one address was added twice, the
    second time with other parameters, and is in force. *)
Definition reconfigured : Controller :=
  {| RegisterScheme := Ok (Entries []);
     AddGlobalConstraint :=
       Ok (Entries [ {| _globalConstraint := "0xC"; _params := "0x01" |};
                     {| _globalConstraint := "0xC"; _params := "0x02" |} ]);
     getSchemePermissions := fun _ => Ok "0x00000000"%string;
     isSchemeRegistered := fun _ => Ok false;
     isGlobalConstraintRegistered := fun a => Ok (String.eqb a "0xC") |}.

(** A DAO without history whose node answers no read. *)
Definition silent : Controller :=
  {| RegisterScheme := Ok (Entries []);
     AddGlobalConstraint := Ok (Entries []);
     getSchemePermissions := fun _ => Throw "no answer";
     isSchemeRegistered := fun _ => Throw "no answer";
     isGlobalConstraintRegistered := fun _ => Throw "no answer" |}.

End DAO.

(** ** lib/utils.ts: values read from the logs of a transaction *)

Module UtilsLogs.
Import ConfigService.

(** One decoded event of [tx.logs]: its name, its [type] (["mined"] once
    the transaction is mined) and its arguments by name, the properties
    of their own of an object whose prototype is [Object.prototype]. *)
Record LogEntry : Type := {
  event : string;
  type : string;
  args : gmap string JsValue
}.

(** [TransactionReceiptTruffle], as far as [getValueFromLogs] reads it:
    [tx.logs], which can be [undefined]. *)
Record TransactionReceiptTruffle : Type := {
  logs : option (list LogEntry)
}.

(** [!v] is false: what JavaScript takes for true in a condition. *)
Definition jsTruthy (v : JsValue) : bool :=
  match v with
  | JsUndefined | JsNull => false
  | JsBool b => b
  | JsNum z => negb (z =? 0)
  | JsStr s => negb (String.eqb s "")
  | JsObj _ _ => true
  end.

(** The same of what a read found; an object of the engine is an object. *)
Definition foundTruthy (f : Found) : bool :=
  match f with
  | Value v => jsTruthy v
  | EngineObject _ => true
  end.

(** The loop over the logs: the position of the first one whose [event]
    is [eventName], counted from [i]. *)
Fixpoint firstWithEvent (eventName : string) (entries : list LogEntry) (i : nat)
  : option nat :=
  match entries with
  | [] => None
  | entry :: entries' =>
      if String.eqb (event entry) eventName then Some i
      else firstWithEvent eventName entries' (S i)
  end.

(** [tx.logs[index]]: [undefined] outside the array. *)
Definition logAt (entries : list LogEntry) (index : Z) : option LogEntry :=
  if index <? 0 then None else nth_error entries (Z.to_nat index).

(** [Utils.getValueFromLogs(tx, arg, eventName = null, index = 0)].
    The two tests [typeof index === "undefined"] never hold, the parameter
    having a default; what is left of the branch on [eventName] is the
    loop.  Reading [.type] of a log that is not there throws.
    [args[arg]] is a read like any other: a name that the arguments do
    not have is looked up in [Object.prototype]. *)
Definition getValueFromLogs {R} (E : Engine R) (r : R) (tx : TransactionReceiptTruffle)
  (arg : string) (eventName : option string) (index : Z) : Result (option Found) :=
  match logs tx with
  | None | Some [] => Ok None
  | Some entries =>
      let index :=
        match eventName with
        | Some name =>
            if String.eqb name "" then index
            else match firstWithEvent name entries 0 with
                 | Some i => Z.of_nat i
                 | None => index
                 end
        | None => index
        end in
      match logAt entries index with
      | None => Throw "TypeError: cannot read property 'type' of undefined"
      | Some entry =>
          if negb (String.eqb (type entry) "mined") then Ok None
          else
            let result := getProp E r ObjectPrototype (args entry) arg in
            if foundTruthy result then Ok (Some result) else Ok None
      end
  end.

(** The receipt of the comment in the source: one [NewOrg] log. *)
Definition newOrgReceipt : TransactionReceiptTruffle :=
  {| logs := Some [ {| event := "NewOrg"; type := "mined";
                        args := {[ "_avatar" :=
                                     JsStr "0xcc05f0cde8c3e4b6c41c9b963031829496107bbb" ]} |} ] |}.

(** A receipt whose second log is the [NewOrg] one. *)
Definition twoLogs : list LogEntry :=
  [ {| event := "Other"; type := "mined"; args := ∅ |};
    {| event := "NewOrg"; type := "mined"; args := {[ "_avatar" := JsStr "0xa1" ]} |} ].

Definition twoLogReceipt : TransactionReceiptTruffle := {| logs := Some twoLogs |}.

End UtilsLogs.

(** ** The constructors of the settings: what the environment overrides *)

Module ConfigConstruction.
Import ConfigService.

(** [key.startsWith(prefix)] and, when it does, [key.replace(prefix, "")]:
    the first occurrence of the prefix is the one at the start, so what is
    left is the key without it. *)
Fixpoint stripPrefix (prefix key : string) : option string :=
  match prefix, key with
  | EmptyString, _ => Some key
  | String p prefix', String k key' =>
      if Ascii.eqb p k then stripPrefix prefix' key' else None
  | String _ _, EmptyString => None
  end.

(** [const prefix = "arcjs_";] *)
Definition prefix : string := "arcjs_".

(** [process.env]: the variables in the order [Object.keys] gives them,
    each with its value, a string.  [None] when there is no [process] or
    no [process.env]. *)
Definition Environment : Type := option (list (string * string)).

(** The body of the [forEach] of [ConfigService]'s constructor, on one
    variable of the environment.  [defaults] are the properties of what
    [require] made of config/default.json, an object whose prototype is
    [Object.prototype]; the module is loaded before anything is assigned
    to that, so [defaults.hasOwnProperty] is the function of the language
    unless the file has a setting of that name, which is no function:
    calling it is a TypeError. *)
Definition override (defaults : gmap string JsValue) (variable : string * string)
  : Result (gmap string JsValue) :=
  match stripPrefix prefix (fst variable) with
  | Some internalKey =>
      match defaults !! "hasOwnProperty"%string with
      | Some _ => Throw "TypeError: defaults.hasOwnProperty is not a function"
      | None =>
          match defaults !! internalKey with
          | Some _ => Ok (<[internalKey := JsStr (snd variable)]> defaults)
          | None => Ok defaults
          end
      end
  | None => Ok defaults
  end.

(** [Object.keys(process.env).forEach(...)]: an exception ends it. *)
Definition overrideAll (env : list (string * string)) (defaults : gmap string JsValue)
  : Result (gmap string JsValue) :=
  fold_left (fun acc variable => defaults ← acc; override defaults variable)
    env (Ok defaults).

(** The static fields [instance] and [data] of the class; [instance] is
    [undefined] until the first construction. *)
Record Class : Type := {
  instance : bool;
  data : JsValue
}.

Definition unconstructed : Class := {| instance := false; data := JsUndefined |}.

(** [new ConfigService()], on the [defaults] of config/default.json: the
    static fields after it, or the exception it throws, before it has
    assigned them. *)
Definition construct (defaults : gmap string JsValue) (env : Environment)
  (cls : Class) : Result Class :=
  if instance cls then Ok cls
  else
    props ← overrideAll (default [] env) defaults;
    Ok {| instance := true; data := JsObj ObjectPrototype props |}.

(** The properties of its own of an object. *)
Definition ownProperties (v : JsValue) : gmap string JsValue :=
  match v with
  | JsObj _ props => props
  | _ => ∅
  end.

(** The body of the [forEach] of the constructor of [Config], the class
    of src/unnamed/part_002: [if (defaults[key]) { defaults[key] =
    process.env[key]; }], a read and an assignment like any other; the
    value assigned is a string, which leaves the prototype what it is. *)
Definition overrideTruthy {R} (E : Engine R) (r : R) (defaults : gmap string JsValue)
  (variable : string * string) : gmap string JsValue :=
  if UtilsLogs.foundTruthy (getProp E r ObjectPrototype defaults (fst variable))
  then ownProperties (setProp ObjectPrototype defaults (fst variable)
                        (JsStr (snd variable)))
  else defaults.

(** [new Config()] *)
Definition constructConfig {R} (E : Engine R) (r : R) (defaults : gmap string JsValue)
  (env : Environment) (cls : Class) : Class :=
  if instance cls then cls
  else {| instance := true;
          data := JsObj ObjectPrototype
                    (fold_left (overrideTruthy E r) (default [] env) defaults) |}.

(** The settings of a DAO stack node, and an environment that names two of
    them and one that is no setting. *)
Definition someDefaults : gmap string JsValue :=
  {[ "providerPort" := JsNum 8545; "estimateGas" := JsBool false;
     "network" := JsStr "ganache" ]}.

Definition someEnvironment : Environment :=
  Some [ ("arcjs_providerPort", "8546"); ("arcjs_color", "red");
         ("estimateGas", "true"); ("network", "kovan") ]%string.

(** An environment with a variable called [toString], and one called
    [__proto__]. *)
Definition oddEnvironment : Environment :=
  Some [ ("toString", "x"); ("__proto__", "y") ]%string.

End ConfigConstruction.

(** ** Paths within the settings *)

Module ConfigPaths.
Import ConfigService.

(** The descent along [parts] through properties of their own ends on
    [v]. *)
Fixpoint reaches (section : JsValue) (parts : list string) (v : JsValue) : Prop :=
  match parts with
  | [] => section = v
  | part :: parts' =>
      exists proto props inner,
        section = JsObj proto props /\ props !! part = Some inner
        /\ reaches inner parts' v
  end.

(** Settings in which a section is [null]. *)
Definition withNull : JsValue :=
  JsObj ObjectPrototype
    {[ "network" := JsStr "ganache"; "networkDefaults" := JsNull ]}.

End ConfigPaths.

(** ** What the wrapper cache holds *)

Module ContractWrapperCache.
Import ContractWrapperFactory.

(** Every entry of the cache stands under the address of the wrapper it
    holds. *)
Definition wellKeyed (st : State) : Prop :=
  forall contractName addressMap a w,
    contractCache st !! contractName = Some addressMap ->
    addressMap !! a = Some w ->
    address w = a.

(** A callback for [deployed()] on a contract deployed at [a]. *)
Definition hydrateFromDeployed (a : Address) : Hydrator :=
  fun n => Ok (Some (wrapperAt a n)).

(** A factory whose contract is loaded but not deployed: reading its
    address throws. *)
Definition undeployedFactory : Factory :=
  {| solidityContractName := "UpgradeScheme";
     solidityContract := Some {| contractAddress := None |} |}.

End ContractWrapperCache.


(** ** What a DAO is asked: [getSchemes] and [getGlobalConstraints] *)

Module DAOQueries.
Import DAO.

(** [getSchemes(name)] of lib/dao.ts: the schemes of [_getSchemes], all of
    them when [name] is falsy, those of that name otherwise; a scheme that
    is no known wrapper has the name [undefined], which is [===] to no
    string. *)
Definition getSchemes (fromString : string -> Z) (controller : Controller)
  (allWrappers : list (string * Address)) (name : option string)
  : Awaited (list DaoSchemeInfo) :=
  match _getSchemes fromString controller allWrappers with
  | Resolves schemes =>
      if truthy name
      then Resolves (List.filter (fun s => bool_decide (DAO.name s = name)) schemes)
      else Resolves schemes
  | Rejects msg => Rejects msg
  | NeverSettles => NeverSettles
  end.

(** [getGlobalConstraints(name)] of lib/dao.ts. *)
Definition getGlobalConstraints (controller : Controller)
  (allWrappers : list (string * Address)) (name : option string)
  : Awaited (list DaoGlobalConstraintInfo) :=
  match _getConstraints controller allWrappers with
  | Resolves constraints =>
      if truthy name
      then Resolves (List.filter (fun s => bool_decide (gcName s = name)) constraints)
      else Resolves constraints
  | Rejects msg => Rejects msg
  | NeverSettles => NeverSettles
  end.

(** The permissions read for an address, the empty string standing for a
    read that is rejected. *)
Definition permissionsRead (controller : Controller) (a : Address) : string :=
  match getSchemePermissions controller a with
  | Ok p => p
  | Throw _ => EmptyString
  end.

(** The record [_handleSchemeEvent] makes of a log entry. *)
Definition schemeInfoOf (fromString : string -> Z) (controller : Controller)
  (arcTypesMap : gmap Address string) (entry : ControllerRegisterSchemeEventLogEntry)
  : DaoSchemeInfo :=
  {| name := arcTypesMap !! _scheme entry;
     address := _scheme entry;
     permissions := fromString (permissionsRead controller (_scheme entry)) |}.

(** The record [_handleConstraintEvent] makes of a log entry. *)
Definition constraintInfoOf (arcTypesMap : gmap Address string)
  (entry : ControllerAddGlobalConstraintsEventLogEntry) : DaoGlobalConstraintInfo :=
  {| gcName := arcTypesMap !! _globalConstraint entry;
     gcAddress := _globalConstraint entry;
     paramsHash := _params entry |}.

(** What the last loop of a discovery keeps: the addresses for which the
    read answers [true]. *)
Definition answersTrue (read : Address -> Result bool) (a : Address) : bool :=
  match read a with
  | Ok true => true
  | _ => false
  end.

(** The addresses of a log in the order in which each one is seen first. *)
Definition firstSeen (addresses : list Address) : list Address :=
  rev (remove_dups (rev addresses)).

(** A directory in which two names stand for one address, and a
    controller with three registrations of two schemes, both in force. *)
Definition twoNames : list (string * Address) :=
  [ ("SchemeRegistrar", "0xA"); ("UpgradeScheme", "0xB");
    ("ContributionReward", "0xA") ]%string.

Definition registeredTwice : Controller :=
  {| RegisterScheme :=
       Ok (Entries [ {| _scheme := "0xB" |}; {| _scheme := "0xA" |};
                     {| _scheme := "0xB" |} ]);
     AddGlobalConstraint := Ok (Entries []);
     getSchemePermissions := fun _ => Ok "0x00000001"%string;
     isSchemeRegistered := fun _ => Ok true;
     isGlobalConstraintRegistered := fun _ => Ok true |}.

End DAOQueries.

(** ** dao.ts, the version that has the wrapper in what it finds *)

Module WrapperDAO.

(** The [name] of a wrapper, as against the [name] of the scheme
    information of lib/dao.ts. *)
Local Abbreviation wrapperName := name (only parsing).

Import DAO.

(** [DaoSchemeInfo] and [DaoGlobalConstraintInfo] of this version:
    [wrapper] is [undefined] for an address that is not of a wrapper of
    the running release. *)
Record DaoSchemeInfo : Type := {
  address : Address;
  wrapper : option Wrapper
}.

Record DaoGlobalConstraintInfo : Type := {
  gcAddress : Address;
  paramsHash : string;
  gcWrapper : option Wrapper
}.

(** [_handleSchemeEvent(log, schemesMap)]; it reads nothing from the
    controller. *)
Definition _handleSchemeEvent (wrappersByAddress : gmap Address Wrapper)
  (log : Log ControllerRegisterSchemeEventLogEntry)
  (schemesMap : JsMap DaoSchemeInfo) : JsMap DaoSchemeInfo :=
  fold_left
    (fun schemesMap entry =>
       let address := _scheme entry in
       let wrapper := wrappersByAddress !! address in
       let schemeInfo := {| address := address; wrapper := wrapper |} in
       mapSet address schemeInfo schemesMap)
    (asArray log) schemesMap.

(** [_getSchemes()]: [if (err) { return reject(err); }] *)
Definition _getSchemes (wrappersByAddress : gmap Address Wrapper)
  (controller : Controller) : Awaited (list DaoSchemeInfo) :=
  match RegisterScheme controller with
  | Throw err => Rejects err
  | Ok log =>
      let foundSchemes := _handleSchemeEvent wrappersByAddress log [] in
      match keepRegistered
              (fun scheme => isSchemeRegistered controller (address scheme))
              (mapValues foundSchemes) with
      | Ok registeredSchemes => Resolves registeredSchemes
      | Throw msg => Rejects msg
      end
  end.

(** [_handleConstraintEvent(log, constraintsMap)] *)
Definition _handleConstraintEvent (wrappersByAddress : gmap Address Wrapper)
  (log : Log ControllerAddGlobalConstraintsEventLogEntry)
  (constraintsMap : JsMap DaoGlobalConstraintInfo) : JsMap DaoGlobalConstraintInfo :=
  fold_left
    (fun constraintsMap entry =>
       let address := _globalConstraint entry in
       let paramsHash := _params entry in
       let wrapper := wrappersByAddress !! address in
       let info :=
         {| gcAddress := address; paramsHash := paramsHash; gcWrapper := wrapper |} in
       mapSet address info constraintsMap)
    (asArray log) constraintsMap.

(** [_getConstraints()] *)
Definition _getConstraints (wrappersByAddress : gmap Address Wrapper)
  (controller : Controller) : Awaited (list DaoGlobalConstraintInfo) :=
  match AddGlobalConstraint controller with
  | Throw err => Rejects err
  | Ok log =>
      let foundConstraints := _handleConstraintEvent wrappersByAddress log [] in
      match keepRegistered
              (fun gc => isGlobalConstraintRegistered controller (gcAddress gc))
              (mapValues foundConstraints) with
      | Ok registeredConstraints => Resolves registeredConstraints
      | Throw msg => Rejects msg
      end
  end.

(** [Array.prototype.filter] with a callback that can throw: the first
    throw ends it. *)
Fixpoint filterThrowing {A} (callback : A -> Result bool) (array : list A)
  : Result (list A) :=
  match array with
  | [] => Ok []
  | x :: rest =>
      keep ← callback x;
      kept ← filterThrowing callback rest;
      Ok (if keep : bool then x :: kept else kept)
  end.

(** [s.wrapper && s.wrapper.name && (s.wrapper.name === name)] *)
Definition schemeHasName (name : string) (s : DaoSchemeInfo) : Result bool :=
  match wrapper s with
  | None => Ok false
  | Some w => Ok (negb (String.eqb (wrapperName w) "") && String.eqb (wrapperName w) name)
  end.

(** [s.wrapper.name && (s.wrapper.name === name)]: reading [name] of
    [undefined] throws. *)
Definition constraintHasName (name : string) (s : DaoGlobalConstraintInfo)
  : Result bool :=
  match gcWrapper s with
  | None => Throw "TypeError: s.wrapper is undefined"
  | Some w => Ok (negb (String.eqb (wrapperName w) "") && String.eqb (wrapperName w) name)
  end.

Definition settle {A} (r : Result A) : Awaited A :=
  match r with
  | Ok a => Resolves a
  | Throw msg => Rejects msg
  end.

(** [getSchemes(name?)] *)
Definition getSchemes (wrappersByAddress : gmap Address Wrapper)
  (controller : Controller) (name : option string) : Awaited (list DaoSchemeInfo) :=
  match _getSchemes wrappersByAddress controller with
  | Resolves schemes =>
      if truthy name
      then settle (filterThrowing (schemeHasName (default EmptyString name)) schemes)
      else Resolves schemes
  | Rejects msg => Rejects msg
  | NeverSettles => NeverSettles
  end.

(** [getGlobalConstraints(name?)] *)
Definition getGlobalConstraints (wrappersByAddress : gmap Address Wrapper)
  (controller : Controller) (name : option string)
  : Awaited (list DaoGlobalConstraintInfo) :=
  match _getConstraints wrappersByAddress controller with
  | Resolves constraints =>
      if truthy name
      then settle (filterThrowing (constraintHasName (default EmptyString name))
                     constraints)
      else Resolves constraints
  | Rejects msg => Rejects msg
  | NeverSettles => NeverSettles
  end.

(** A controller with one constraint in force that is of no wrapper of
    the release. *)
Definition foreignConstraint : Controller :=
  {| RegisterScheme := Ok (Entries [ {| _scheme := "0xF" |} ]);
     AddGlobalConstraint :=
       Ok (Entries [ {| _globalConstraint := "0xF"; _params := "0x01" |} ]);
     getSchemePermissions := fun _ => Throw "no answer";
     isSchemeRegistered := fun _ => Ok true;
     isGlobalConstraintRegistered := fun _ => Ok true |}.

End WrapperDAO.

(** ** Creating a DAO *)

Module DAOCreation.
Import DAO.

(** Collaborators whose [forgeOrg] is mined without a [NewOrg] log. *)
Definition withoutAvatar : Collaborators :=
  {| requireContract := requireContract cooperative;
     hydrateFromAt := hydrateFromAt cooperative;
     forgeOrgTransactionsCount := forgeOrgTransactionsCount cooperative;
     setSchemesTransactionsCount := setSchemesTransactionsCount cooperative;
     forgeOrg := fun _ => Ok None;
     setSchemes := setSchemes cooperative;
     daoAt := daoAt cooperative |}.

(** [DAO.getGenesisDao(daoCreatorAddress)] of lib/dao.ts.
    [InitialSchemesSet] is what [event.get] hands to its callback for the
    history of the DaoCreator found: the [_avatar] of each entry, oldest
    first, or an error.  The lookup and the call of the event run inside
    the [try], so that what they throw rejects the promise; the callback
    runs later, outside it, and reads [log[0].args] without looking at
    [err]: when there is no first entry it throws, nothing resolves or
    rejects the promise, and the promise never settles. *)
Definition getGenesisDao (c : Collaborators) (dir : WrapperService.Directory)
  (DaoCreatorFactory : ContractWrapperFactory.Factory)
  (InitialSchemesSet : Wrapper -> Result (list Address))
  (daoCreatorAddress : option Address) (st : ContractWrapperFactory.State)
  : Awaited Address * ContractWrapperFactory.State :=
  let '(r, st1) :=
    daoCreatorFor c dir DaoCreatorFactory
      {| daoCreatorAddress := daoCreatorAddress; schemes := None |} st in
  match r with
  | Throw ex => (Rejects ex, st1)
  | Ok None => (Rejects "TypeError: daoCreator is undefined", st1)
  | Ok (Some daoCreator) =>
      match InitialSchemesSet daoCreator with
      | Ok (avatarAddress :: _) => (Resolves avatarAddress, st1)
      | Ok [] => (NeverSettles, st1)
      | Throw _ => (NeverSettles, st1)
      end
  end.

(** The transactions of a trace. *)
Definition transactions (trace : list Effect) : list Effect :=
  List.filter isTransaction trace.

(** The avatars read in a trace. *)
Definition avatarsRead (trace : list Effect) : list Address :=
  flat_map (fun e => match e with ReadAvatar a => [a] | _ => [] end) trace.

End DAOCreation.

(** ** wrappers: the proposals of GlobalConstraintRegistrar and UpgradeScheme *)

Module Proposals.

(** A call of a method of the truffle contract, which sends a
    transaction: the method and its arguments in order. *)
Record ContractCall : Type := {
  method : string;
  arguments : list string
}.

(** [new ArcTransactionProposalResult(tx)] *)
Record ArcTransactionProposalResult : Type := {
  tx : string
}.

(** [this.contract]: what the node answers to a call, the transaction or
    an error. *)
Definition Contract : Type := ContractCall -> Result string.

(** [const tx = await this.contract.method(...); return new
    ArcTransactionProposalResult(tx);] with the calls made. *)
Definition send (contract : Contract) (call : ContractCall)
  : Result ArcTransactionProposalResult * list ContractCall :=
  (tx ← contract call; Ok {| tx := tx |}, [call]).

(** The value of an option that is given. *)
Definition given (option : option string) : string := default EmptyString option.

(** Of options with the message for each, in the order in which they are
    looked at: the message of the first that is [undefined] or empty. *)
Fixpoint firstMissing (required : list (option string * string)) : option string :=
  match required with
  | [] => None
  | (option, message) :: rest =>
      if truthy option then firstMissing rest else Some message
  end.

End Proposals.

Module GlobalConstraintRegistrarWrapper.
Import Proposals.

Record ProposeToAddModifyGlobalConstraintParams : Type := {
  avatar : option Address;
  globalConstraint : option string;
  globalConstraintParametersHash : option string;
  votingMachineHash : option string
}.

Record ProposeToRemoveGlobalConstraintParams : Type := {
  removeAvatar : option Address;
  removeGlobalConstraint : option string
}.

(** [proposeToAddModifyGlobalConstraint(opts)]; the defaults are all
    [undefined], so that [options] has what [opts] has. *)
Definition proposeToAddModifyGlobalConstraint (contract : Contract)
  (options : ProposeToAddModifyGlobalConstraintParams)
  : Result ArcTransactionProposalResult * list ContractCall :=
  if negb (truthy (avatar options)) then
    (Throw "address is not defined", [])
  else if negb (truthy (globalConstraint options)) then
    (Throw "globalConstraint is not defined", [])
  else if negb (truthy (globalConstraintParametersHash options)) then
    (Throw "globalConstraintParametersHash is not defined", [])
  else if negb (truthy (votingMachineHash options)) then
    (Throw "votingMachineHash is not defined", [])
  else
    send contract
      {| method := "proposeGlobalConstraint";
         arguments := [ given (avatar options);
                        given (globalConstraint options);
                        given (globalConstraintParametersHash options);
                        given (votingMachineHash options) ] |}.

(** [proposeToRemoveGlobalConstraint(opts)] *)
Definition proposeToRemoveGlobalConstraint (contract : Contract)
  (options : ProposeToRemoveGlobalConstraintParams)
  : Result ArcTransactionProposalResult * list ContractCall :=
  if negb (truthy (removeAvatar options)) then
    (Throw "avatar address is not defined", [])
  else if negb (truthy (removeGlobalConstraint options)) then
    (Throw "avatar globalConstraint is not defined", [])
  else
    send contract
      {| method := "proposeToRemoveGC";
         arguments := [ given (removeAvatar options);
                        given (removeGlobalConstraint options) ] |}.

End GlobalConstraintRegistrarWrapper.

Module UpgradeSchemeWrapper.
Import Proposals.

Record ProposeControllerParams : Type := {
  avatar : option Address;
  controller : option string
}.

Record ProposeUpgradingSchemeParams : Type := {
  upgradingAvatar : option Address;
  scheme : option string;
  schemeParametersHash : option string
}.

(** [proposeController(opts)] *)
Definition proposeController (contract : Contract) (options : ProposeControllerParams)
  : Result ArcTransactionProposalResult * list ContractCall :=
  if negb (truthy (avatar options)) then
    (Throw "avatar address is not defined", [])
  else if negb (truthy (controller options)) then
    (Throw "controller address is not defined", [])
  else
    send contract
      {| method := "proposeUpgrade";
         arguments := [ given (avatar options); given (controller options) ] |}.

(** [proposeUpgradingScheme(opts)] *)
Definition proposeUpgradingScheme (contract : Contract)
  (options : ProposeUpgradingSchemeParams)
  : Result ArcTransactionProposalResult * list ContractCall :=
  if negb (truthy (upgradingAvatar options)) then
    (Throw "avatar address is not defined", [])
  else if negb (truthy (scheme options)) then
    (Throw "scheme is not defined", [])
  else if negb (truthy (schemeParametersHash options)) then
    (Throw "schemeParametersHash is not defined", [])
  else
    send contract
      {| method := "proposeChangeUpgradingScheme";
         arguments := [ given (upgradingAvatar options);
                        given (scheme options);
                        given (schemeParametersHash options) ] |}.

End UpgradeSchemeWrapper.

(** ** lib/utils.ts: the web3 object and the default account *)

Module UtilsWeb3.

(** A Web3 object, as far as [Utils] looks at it: the provider it talks
    to and [eth.defaultAccount]. *)
Record Web3 : Type := {
  currentProvider : string;
  defaultAccount : option string
}.

(** The private statics of [Utils]. *)
Record Statics : Type := {
  web3 : option Web3;
  alreadyTriedAndFailed : bool
}.

(** What [getWeb3] reads from outside: the global [web3], if one is
    injected, and the two settings of the provider. *)
Record Globals : Type := {
  injected : option Web3;
  providerUrl : string;
  providerPort : string
}.

(** [Utils.getWeb3()]; [newWeb3] is [new Web3(provider)], which gives an
    object or throws.  An object is truthy, so that the branch on
    [!preWeb3] is not taken; the copy put on [window] is not modelled. *)
Definition getWeb3 (newWeb3 : string -> Result Web3) (g : Globals) (s : Statics)
  : Result Web3 * Statics :=
  match web3 s with
  | Some w => (Ok w, s)
  | None =>
      let preWeb3 :=
        match injected g with
        | Some w => newWeb3 (currentProvider w)
        | None =>
            if alreadyTriedAndFailed s then Throw "already tried and failed"
            else newWeb3 (String.append (providerUrl g)
                            (String.append ":" (providerPort g)))
        end in
      match preWeb3 with
      | Throw msg => (Throw msg, s)
      | Ok w =>
          (Ok w, {| web3 := Some w; alreadyTriedAndFailed := alreadyTriedAndFailed s |})
      end
  end.

(** [Utils.getDefaultAccount()]; [getAccounts] is what
    [web3.eth.getAccounts] answers.  The web3 object written to is the one
    [Utils.web3] holds. *)
Definition getDefaultAccount (newWeb3 : string -> Result Web3)
  (getAccounts : Result (list string)) (g : Globals) (s : Statics)
  : Result string * Statics :=
  let '(r, s1) := getWeb3 newWeb3 g s in
  match r with
  | Throw msg => (Throw msg, s1)
  | Ok w =>
      match getAccounts with
      | Throw msg => (Throw msg, s1)
      | Ok accounts =>
          let account := head accounts in
          let s2 :=
            {| web3 := Some {| currentProvider := currentProvider w;
                               defaultAccount := account |};
               alreadyTriedAndFailed := alreadyTriedAndFailed s1 |} in
          if negb (truthy account) then (Throw "accounts[0] is not set", s2)
          else (Ok (default EmptyString account), s2)
      end
  end.

(** [Utils] before its first use, a node at the default place, and a
    constructor that always gives an object. *)
Definition unused : Statics := {| web3 := None; alreadyTriedAndFailed := false |}.

Definition local : Globals :=
  {| injected := None; providerUrl := "http://127.0.0.1"; providerPort := "8545" |}.

Definition connect (provider : string) : Result Web3 :=
  Ok {| currentProvider := provider; defaultAccount := None |}.

End UtilsWeb3.

(** * Properties *)

(** ** The permissions codec *)

Module UtilsFacts.
Import Utils.

Lemma digitValue_hexDigit (d : Z) :
  0 <= d < 16 -> digitValue (hexDigit d) = Some d.
Proof.
  intros Hd.
  assert (Hin : In d [0; 1; 2; 3; 4; 5; 6; 7; 8; 9; 10; 11; 12; 13; 14; 15])
    by (simpl; lia).
  simpl in Hin.
  repeat (destruct Hin as [<- | Hin]; [reflexivity |]).
  contradiction.
Qed.

Lemma readDigits_snoc (base : Z) (ds : list ascii) (c : ascii) :
  readDigits base (ds ++ [c]) = readDigits base ds * base + default 0 (digitValue c).
Proof. unfold readDigits. now rewrite fold_left_app. Qed.

Lemma readDigits_zero (base : Z) (ds : list ascii) :
  readDigits base ("0"%char :: ds) = readDigits base ds.
Proof. reflexivity. Qed.

(** With fuel for every digit, [hexDigits] writes [n]: reading the digits
    back gives [n], and every one of them is a hexadecimal digit. *)
Lemma hexDigits_sound (fuel : nat) :
  forall n, 0 <= n < 16 ^ Z.of_nat fuel ->
    readDigits 16 (hexDigits fuel n) = n
    /\ forallb isHexDigit (hexDigits fuel n) = true.
Proof.
  induction fuel as [| fuel IH]; intros n Hn.
  - change (16 ^ Z.of_nat 0) with 1 in Hn.
    assert (n = 0) as -> by lia. split; reflexivity.
  - cbn [hexDigits]. destruct (n <? 16) eqn:Hlt.
    + apply Z.ltb_lt in Hlt. unfold readDigits, isHexDigit. cbn.
      rewrite digitValue_hexDigit by lia. auto.
    + apply Z.ltb_ge in Hlt.
      assert (Hq : 0 <= n / 16 < 16 ^ Z.of_nat fuel).
      { split; [apply Z.div_pos; lia |].
        apply Z.div_lt_upper_bound; [lia |].
        replace (16 * 16 ^ Z.of_nat fuel) with (16 ^ Z.of_nat (S fuel)); [lia |].
        rewrite Nat2Z.inj_succ, Z.pow_succ_r; lia. }
      destruct (IH _ Hq) as [Hread Hall].
      assert (Hr : 0 <= n mod 16 < 16) by (apply Z.mod_pos_bound; lia).
      split.
      * rewrite readDigits_snoc, Hread, digitValue_hexDigit by lia. cbn.
        pose proof (Z.div_mod n 16). lia.
      * rewrite forallb_app, Hall. cbn. unfold isHexDigit.
        now rewrite digitValue_hexDigit by lia.
Qed.

(** A number below [16 ^ k] has at most [k] digits, and at least one. *)
Lemma hexDigits_length (fuel : nat) :
  forall n k, (1 <= fuel)%nat -> 0 <= n < 16 ^ Z.of_nat fuel ->
    n < 16 ^ Z.of_nat k -> (1 <= k)%nat ->
    (1 <= length (hexDigits fuel n) <= k)%nat.
Proof.
  induction fuel as [| fuel IH]; intros n k Hfuel Hn Hk Hk1.
  - lia.
  - cbn [hexDigits]. destruct (n <? 16) eqn:Hlt.
    + simpl. lia.
    + apply Z.ltb_ge in Hlt.
      destruct k as [| k]; [lia |].
      destruct k as [| k].
      { change (16 ^ Z.of_nat 1) with 16 in Hk. lia. }
      assert (Hpow : forall m : nat, 16 ^ Z.of_nat (S m) = 16 * 16 ^ Z.of_nat m).
      { intros m. rewrite Nat2Z.inj_succ, Z.pow_succ_r; lia. }
      assert (Hq : 0 <= n / 16 < 16 ^ Z.of_nat fuel).
      { split; [apply Z.div_pos; lia |].
        apply Z.div_lt_upper_bound; [lia |]. rewrite <- Hpow. lia. }
      assert (Hqk : n / 16 < 16 ^ Z.of_nat (S k)).
      { apply Z.div_lt_upper_bound; [lia |]. rewrite <- Hpow. lia. }
      assert (Hq1 : 1 <= n / 16) by (apply Z.div_le_lower_bound; lia).
      assert (Hfuel' : (1 <= fuel)%nat).
      { destruct fuel; [| lia]. change (16 ^ Z.of_nat 0) with 1 in Hq. lia. }
      specialize (IH (n / 16) (S k) Hfuel' Hq Hqk ltac:(lia)).
      rewrite length_app. simpl. lia.
Qed.

(** [toString16] gives itself enough fuel. *)
Lemma toString16_fuel (n : Z) :
  0 <= n -> 0 <= n < 16 ^ Z.of_nat (S (Z.to_nat (Z.log2 n))).
Proof.
  intros Hn. split; [assumption |].
  rewrite Nat2Z.inj_succ, Z2Nat.id by apply Z.log2_nonneg.
  destruct (Z.eq_dec n 0) as [-> | Hne]; [reflexivity |].
  pose proof (Z.log2_spec n ltac:(lia)) as [_ Hup].
  eapply Z.lt_le_trans; [exact Hup |].
  apply Z.pow_le_mono_l. lia.
Qed.

Lemma substrFromEnd_padded (h : list ascii) :
  (1 <= length h <= 8)%nat ->
  substrFromEnd 8 (list_ascii_of_string "00000000" ++ h)
  = skipn (length h) (list_ascii_of_string "00000000") ++ h.
Proof.
  intros Hlen. unfold substrFromEnd.
  rewrite length_app.
  replace (length (list_ascii_of_string "00000000") + length h - 8)%nat
    with (length h) by (simpl; lia).
  rewrite skipn_app.
  replace (length h - length (list_ascii_of_string "00000000"))%nat with 0%nat
    by (simpl; lia).
  reflexivity.
Qed.

Lemma skipn_zeros (k : nat) :
  (k <= 8)%nat ->
  skipn k (list_ascii_of_string "00000000") = repeat "0"%char (8 - k).
Proof.
  intros Hk.
  do 9 (destruct k as [| k]; [reflexivity |]).
  lia.
Qed.

Lemma zeros_then_digits (m : nat) (h : list ascii) :
  forallb isHexDigit h = true ->
  forallb isHexDigit (repeat "0"%char m ++ h) = true
  /\ readDigits 16 (repeat "0"%char m ++ h) = readDigits 16 h.
Proof.
  intros Hall. induction m as [| m [IHall IHread]]; [now split |].
  cbn [repeat app]. rewrite readDigits_zero. split; [| exact IHread].
  cbn [forallb]. now rewrite IHall.
Qed.

(** The padding changes neither the value read nor the kind of characters,
    and brings the length to 8. *)
Lemma padded_digits (h : list ascii) :
  (1 <= length h <= 8)%nat -> forallb isHexDigit h = true ->
  let digits := skipn (length h) (list_ascii_of_string "00000000") ++ h in
  length digits = 8%nat /\ forallb isHexDigit digits = true
  /\ readDigits 16 digits = readDigits 16 h.
Proof.
  intros Hlen Hall digits. subst digits.
  rewrite skipn_zeros by lia.
  destruct (zeros_then_digits (8 - length h) h Hall) as [Hall' Hread].
  repeat split; [| exact Hall' | exact Hread].
  rewrite length_app, repeat_length. lia.
Qed.

(** C10, for [SchemePermissions.None] being [none]: for every integer [p]
    with [0 <= p < 2^32], [numberToPermissionsString p] is ["0x"] followed
    by exactly 8 hexadecimal digits, and [permissionsStringToNumber] reads
    it back as [p].  A zero [p] is replaced by [none], so the round trip
    at zero asks for [none = 0], the value the enumeration has. *)
Theorem permissions_roundtrip (none p : Z) :
  0 <= p < 2 ^ 32 -> (p = 0 -> none = 0) ->
  exists digits : list ascii,
    numberToPermissionsString none p
    = String "0" (String "x" (string_of_list_ascii digits))
    /\ length digits = 8%nat
    /\ forallb isHexDigit digits = true
    /\ permissionsStringToNumber (numberToPermissionsString none p) = Some p.
Proof.
  intros Hp Hnone.
  assert (Hq : (if p =? 0 then none else p) = p).
  { destruct (p =? 0) eqn:E; [apply Z.eqb_eq in E; lia | reflexivity]. }
  unfold numberToPermissionsString. rewrite Hq. clear Hq Hnone.
  pose proof (toString16_fuel p ltac:(lia)) as Hfuel.
  destruct (hexDigits_sound _ _ Hfuel) as [Hread Hall].
  assert (Hlen : (1 <= length (toString16 p) <= 8)%nat).
  { apply hexDigits_length; [lia | exact Hfuel | | lia].
    change (16 ^ Z.of_nat 8) with (2 ^ 32). lia. }
  fold (toString16 p) in Hread, Hall.
  rewrite substrFromEnd_padded by exact Hlen.
  destruct (padded_digits _ Hlen Hall) as (Hlen8 & Hall8 & Hread8).
  set (digits := skipn (length (toString16 p)) (list_ascii_of_string "00000000")
                 ++ toString16 p) in *.
  exists digits. repeat split; try assumption.
  cbn [string_of_list_ascii permissionsStringToNumber]. unfold Number.
  cbn [list_ascii_of_string]. rewrite list_ascii_of_string_of_list_ascii.
  destruct digits as [| d ds]; [discriminate Hlen8 |].
  change (Ascii.eqb "0" "0" && (Ascii.eqb "x" "x" || Ascii.eqb "x" "X"))%char
    with true.
  cbv iota. rewrite Hall8. now rewrite Hread8, Hread.
Qed.

(** The round trip at the permissions the test of the wrappers reads,
    ["0x00000009"], and at zero. *)
Lemma permissions_roundtrip_witness :
  exists digits : list ascii,
    numberToPermissionsString 0 9
    = String "0" (String "x" (string_of_list_ascii digits))
    /\ length digits = 8%nat
    /\ forallb isHexDigit digits = true
    /\ permissionsStringToNumber (numberToPermissionsString 0 9) = Some 9.
Proof. apply (permissions_roundtrip 0 9); lia. Defined.

End UtilsFacts.

(** ** Settings *)

Module ConfigServiceFacts.
Import ConfigService.

Lemma split_nonempty (setting : string) : split setting <> [].
Proof.
  destruct setting as [| c rest]; [discriminate |].
  cbn [split]. destruct (Ascii.eqb c "."); [discriminate |].
  destruct (split rest); discriminate.
Qed.

Lemma bind_Ok {A B} (a : A) (k : A -> Result B) : (x ← Ok a; k x) = k a.
Proof. reflexivity. Qed.

(** A name other than [__proto__] is assigned as a property of the
    object's own. *)
Lemma setProp_own (proto : Prototype) (props : gmap string JsValue) (part : string)
  (value : JsValue) :
  part <> "__proto__"%string ->
  setProp proto props part value = JsObj proto (<[part := value]> props).
Proof.
  intros Hpart. apply String.eqb_neq in Hpart. unfold setProp, resolve.
  destruct (props !! part); [reflexivity |].
  destruct (inherited proto part); try reflexivity.
  now rewrite Hpart.
Qed.

Lemma resolve_own (proto : Prototype) (props : gmap string JsValue) (part : string)
  (v : JsValue) :
  props !! part = Some v -> resolve proto props part = Own v.
Proof. unfold resolve. now intros ->. Qed.

Lemma assign_own {R} (E : Engine R) (r : R) (proto : Prototype)
  (props : gmap string JsValue) (part part' : string) (parts : list string)
  (inner value : JsValue) :
  props !! part = Some inner ->
  assign E r (JsObj proto props) (part :: part' :: parts) value
  = ('(inner', r') ← assign E r inner (part' :: parts) value;
     Ok (JsObj proto (<[part := inner']> props), r')).
Proof.
  intros Hinner.
  change (assign E r (JsObj proto props) (part :: part' :: parts) value)
    with (match resolve proto props part with
          | Own inner =>
              '(inner', r') ← assign E r inner (part' :: parts) value;
              Ok (JsObj proto (<[part := inner']> props), r')
          | Up inner =>
              '(inner', r') ← assign E r inner (part' :: parts) value;
              Ok (JsObj (replaceUp proto part inner') props, r')
          | ThePrototype p ps =>
              '(inner', r') ← assign E r (JsObj p ps) (part' :: parts) value;
              Ok (JsObj (asPrototype inner' proto) props, r')
          | TheObjectPrototype =>
              r' ← assignEngineObject E r "Object.prototype" (part' :: parts) value;
              Ok (JsObj proto props, r')
          | InObjectPrototype =>
              r' ← assignAnswer E r (inheritedProperty E r part) (part' :: parts) value;
              Ok (JsObj proto props, r')
          | Absent =>
              '(_, r') ← assign E r JsUndefined (part' :: parts) value;
              Ok (JsObj proto props, r')
          end).
  now rewrite (resolve_own _ _ _ inner Hinner).
Qed.

Lemma getProp_own {R} (E : Engine R) (r : R) (proto : Prototype)
  (props : gmap string JsValue) (part : string) (v : JsValue) :
  props !! part = Some v -> getProp E r proto props part = Value v.
Proof. intros Hv. unfold getProp. now rewrite (resolve_own _ _ _ v Hv). Qed.

Lemma walk_own {R} (E : Engine R) (r : R) (proto : Prototype)
  (props : gmap string JsValue) (part : string) (parts : list string)
  (inner : JsValue) :
  props !! part = Some inner ->
  walk E r (Value (JsObj proto props)) (part :: parts) = walk E r (Value inner) parts.
Proof. intros Hinner. cbn [walk]. now rewrite (getProp_own E r _ _ _ inner Hinner). Qed.

(** Assigning along a path of properties of their own that hold objects
    succeeds, in the settings alone; when the last part is not
    [__proto__], walking the same path afterwards ends on the value
    assigned. *)
Lemma assign_then_walk {R} (E : Engine R) (r : R) (value : JsValue)
  (parts : list string) :
  parts <> [] -> last parts <> Some "__proto__"%string ->
  forall section, intermediatesAreObjects section parts ->
    exists section', assign E r section parts value = Ok (section', r)
                     /\ walk E r (Value section') parts = Ok (Value value).
Proof.
  induction parts as [| part parts IH]; [congruence |].
  intros _ Hlast section Hobj.
  destruct parts as [| part' parts].
  - destruct Hobj as (proto & props & ->).
    assert (Hpart : part <> "__proto__"%string) by (cbn in Hlast; congruence).
    eexists. split; [cbn; reflexivity |].
    rewrite setProp_own by exact Hpart.
    now rewrite (walk_own E r _ _ _ _ value) by apply lookup_insert_eq.
  - destruct Hobj as (proto & props & inner & -> & Hinner & Hrest).
    destruct (IH ltac:(discriminate) Hlast inner Hrest) as (inner' & Hassign & Hwalk).
    exists (JsObj proto (<[part := inner']> props)). split.
    + rewrite (assign_own E r _ _ _ _ _ inner value Hinner), Hassign. reflexivity.
    + now rewrite (walk_own E r _ _ _ _ inner') by apply lookup_insert_eq.
Qed.

(** C9, as the code has it: for every dotted path whose segments before
    the last name properties of their own that hold objects, nested in
    the settings, and whose last segment is not [__proto__],
    [set(path, v)] succeeds, within the settings, and [get(path)] on the
    settings it leaves returns exactly [v]. *)
Theorem set_get_roundtrip {R} (E : Engine R) (r : R) (data : JsValue)
  (setting : string) (value : JsValue) :
  intermediatesAreObjects data (split setting) ->
  last (split setting) <> Some "__proto__"%string ->
  exists data', set E r data setting value = Ok (data', r)
                /\ get E r data' setting = Ok (Value value).
Proof.
  intros Hobj Hlast.
  destruct (assign_then_walk E r value (split setting) (split_nonempty setting) Hlast
              data Hobj)
    as (data' & Hassign & Hwalk).
  exists data'. split; [exact Hassign |].
  unfold get. destruct (split setting) eqn:Es; [| exact Hwalk].
  now apply split_nonempty in Es.
Qed.

Lemma set_get_roundtrip_witness :
  exists data',
    set unasked tt sampleData "txDepthRequiredForConfirmation.ganache" (JsNum 3)
    = Ok (data', tt)
    /\ get unasked tt data' "txDepthRequiredForConfirmation.ganache"
       = Ok (Value (JsNum 3)).
Proof.
  apply (set_get_roundtrip unasked tt sampleData
           "txDepthRequiredForConfirmation.ganache").
  - vm_compute. do 3 eexists. split; [reflexivity |].
    split; [reflexivity |]. do 2 eexists. reflexivity.
  - vm_compute. discriminate.
Defined.

(** C9 as stated fails on the path [__proto__], which has no segment
    before the last: the assignment goes to the accessor that the
    settings inherit from [Object.prototype], whose setter does nothing
    for a value that is neither an object nor [null]; the settings are
    what they were, and [get] returns their prototype, not the value. *)
Lemma set_get_proto_accessor :
  intermediatesAreObjects sampleData (split "__proto__")
  /\ set unasked tt sampleData "__proto__" (JsNum 3) = Ok (sampleData, tt)
  /\ get unasked tt sampleData "__proto__" = Ok (EngineObject "Object.prototype")
  /\ ~ (exists data' r',
          set unasked tt sampleData "__proto__" (JsNum 3) = Ok (data', r')
          /\ get unasked r' data' "__proto__" = Ok (Value (JsNum 3))).
Proof.
  assert (Hset : set unasked tt sampleData "__proto__" (JsNum 3) = Ok (sampleData, tt))
    by (vm_compute; reflexivity).
  assert (Hget : get unasked tt sampleData "__proto__"
                 = Ok (EngineObject "Object.prototype"))
    by (vm_compute; reflexivity).
  split; [do 2 eexists; reflexivity |].
  split; [exact Hset |]. split; [exact Hget |].
  intros (data' & r' & Hset' & Hget').
  rewrite Hset in Hset'. injection Hset' as <- <-.
  rewrite Hget in Hget'. discriminate Hget'.
Qed.

(** On a nested section too; and [null] takes the prototype away, after
    which the name reads as [undefined]. *)
Example proto_accessor_nested :
  (exists data',
     set unasked tt sampleData "txDepthRequiredForConfirmation.__proto__" (JsStr "x")
     = Ok (data', tt)
     /\ get unasked tt data' "txDepthRequiredForConfirmation.__proto__"
        = Ok (EngineObject "Object.prototype"))
  /\ (exists data',
        set unasked tt sampleData "__proto__" JsNull = Ok (data', tt)
        /\ get unasked tt data' "__proto__" = Ok (Value JsUndefined)).
Proof. split; eexists; split; vm_compute; reflexivity. Qed.

End ConfigServiceFacts.

(** ** The wrapper cache *)

Module ContractWrapperFactoryFacts.
Import ContractWrapperFactory.

Lemma hydrations_emit (e : Effect) (st : State) :
  hydrations (emit e st) = (hydrations st + (if isHydrate e then 1 else 0))%nat.
Proof.
  unfold hydrations, emit. cbn [trace].
  rewrite List.filter_app, length_app. cbn [List.filter].
  destruct (isHydrate e); reflexivity.
Qed.

Lemma hydrations_setCachedContract (n : string) (w : option Wrapper) (st : State) :
  hydrations (setCachedContract n w st) = hydrations st.
Proof. destruct w; reflexivity. Qed.

Lemma invoke_spec (f : Factory) (getWrapper : Hydrator) (st : State) :
  invoke f getWrapper st
  = (getWrapper (hydrations st), emit (Hydrate (solidityContractName f)) st).
Proof. reflexivity. Qed.

Lemma nonempty_eqb (a : Address) : a <> EmptyString -> String.eqb a "" = false.
Proof.
  intros Ha. destruct (String.eqb a "") eqn:E; [| reflexivity].
  now apply String.eqb_eq in E.
Qed.

Lemma truthy_Some (a : Address) : a <> EmptyString -> truthy (Some a) = true.
Proof. intros Ha. unfold truthy. now rewrite nonempty_eqb. Qed.

(** Opens [getHydratedWrapper] on the caching path for the address [a],
    known not to be empty, down to the lookup in the cache. *)
Ltac enter_at a :=
  unfold getHydratedWrapper, enter;
  match goal with
  | Hon : cacheContractWrappers _ = true, Ha : a <> EmptyString |- _ =>
      rewrite Hon; unfold truthy; rewrite !(nonempty_eqb a Ha); cbn;
      rewrite ?(nonempty_eqb a Ha); cbn
  end.

Lemma getCachedContract_nonempty (st : State) (n : string) (a : Address) :
  a <> EmptyString ->
  getCachedContract st n a = (addressMap ← contractCache st !! n; addressMap !! a).
Proof.
  intros Ha. unfold getCachedContract.
  destruct (String.eqb a "") eqn:E; [| reflexivity].
  now apply String.eqb_eq in E.
Qed.

(** What is stored is found again under the wrapper's own address. *)
Lemma getCachedContract_stored (st : State) (n : string) (w : Wrapper) :
  address w <> EmptyString ->
  getCachedContract (setCachedContract n (Some w) st) n (address w) = Some w.
Proof.
  intros Ha. rewrite getCachedContract_nonempty by exact Ha.
  cbn [setCachedContract contractCache].
  rewrite lookup_insert_eq. cbn. now rewrite lookup_insert_eq.
Qed.

(** A lookup with the setting on, an address and an entry for it: the entry
    is returned, nothing is invoked, nothing changes. *)
Lemma getHydratedWrapper_hit (f : Factory) (getWrapper : Hydrator) (a : Address)
  (w : Wrapper) (st : State) :
  cacheContractWrappers st = true -> a <> EmptyString ->
  getCachedContract st (solidityContractName f) a = Some w ->
  getHydratedWrapper f getWrapper (Some a) st = (Ok (Some w), st).
Proof.
  intros Hon Ha Hhit. enter_at a. now rewrite Hhit.
Qed.

(** A lookup with the setting on, an address and no entry for it. *)
Lemma getHydratedWrapper_miss (f : Factory) (getWrapper : Hydrator) (a : Address)
  (st : State) :
  cacheContractWrappers st = true -> a <> EmptyString ->
  getCachedContract st (solidityContractName f) a = None ->
  getHydratedWrapper f getWrapper (Some a) st
  = leave f (AwaitCaching (getWrapper (hydrations st)))
      (emit (Hydrate (solidityContractName f)) st).
Proof.
  intros Hon Ha Hmiss. enter_at a. now rewrite Hmiss.
Qed.

(** A lookup with the setting off: the callback decides, the cache is
    neither read nor written. *)
Lemma getHydratedWrapper_off (f : Factory) (getWrapper : Hydrator)
  (address : option Address) (st : State) :
  cacheContractWrappers st = false ->
  getHydratedWrapper f getWrapper address st
  = (getWrapper (hydrations st), emit (Hydrate (solidityContractName f)) st).
Proof. intros Hoff. unfold getHydratedWrapper, enter. now rewrite Hoff. Qed.

(** A lookup of an address that has no entry, whatever the setting: the
    callback is invoked once and its outcome is the result; the cache
    changes only by the wrapper hydrated, and only with the setting on. *)
Lemma getHydratedWrapper_not_hit (f : Factory) (getWrapper : Hydrator)
  (a : Address) (st : State) :
  a <> EmptyString ->
  getCachedContract st (solidityContractName f) a = None ->
  exists st',
    getHydratedWrapper f getWrapper (Some a) st = (getWrapper (hydrations st), st')
    /\ hydrations st' = S (hydrations st)
    /\ cacheContractWrappers st' = cacheContractWrappers st
    /\ st' = (if cacheContractWrappers st
              then match getWrapper (hydrations st) with
                   | Ok w => setCachedContract (solidityContractName f) w
                   | Throw _ => fun s => s
                   end
              else fun s => s) (emit (Hydrate (solidityContractName f)) st).
Proof.
  intros Ha Hmiss. destruct (cacheContractWrappers st) eqn:Hon.
  - rewrite (getHydratedWrapper_miss f getWrapper a st Hon Ha Hmiss).
    destruct (getWrapper (hydrations st)) as [w | msg]; cbn [leave].
    + eexists. split; [reflexivity |].
      rewrite hydrations_setCachedContract, hydrations_emit. cbn.
      repeat split; [lia |]. destruct w; exact Hon.
    + eexists. split; [reflexivity |]. rewrite hydrations_emit. cbn.
      repeat split; [lia | exact Hon].
  - rewrite (getHydratedWrapper_off f getWrapper (Some a) st Hon).
    eexists. split; [reflexivity |]. rewrite hydrations_emit. cbn.
    repeat split; [lia | exact Hon].
Qed.

(** [k] lookups of the same address, one after the other. *)
Lemma lookups_hit (f : Factory) (getWrapper : Hydrator) (a : Address)
  (w : Wrapper) (st : State) (k : nat) :
  cacheContractWrappers st = true -> a <> EmptyString ->
  getCachedContract st (solidityContractName f) a = Some w ->
  lookups f getWrapper a k st = (repeat (Ok (Some w)) k, st).
Proof.
  intros Hon Ha Hhit. induction k as [| k IH]; [reflexivity |].
  cbn [lookups repeat]. rewrite (getHydratedWrapper_hit f getWrapper a w st Hon Ha Hhit).
  now rewrite IH.
Qed.

(** A lookup that starts with the setting on and an entry for its
    address ends at once, with the entry. *)
Lemma step_hit (f : Factory) (getWrapper : Hydrator) (a : Address) (w : Wrapper)
  (st : State) :
  cacheContractWrappers st = true -> a <> EmptyString ->
  getCachedContract st (solidityContractName f) a = Some w ->
  step f getWrapper (NotStarted (Some a)) st = (Done (Ok (Some w)), st).
Proof.
  intros Hon Ha Hhit. unfold step, enter.
  rewrite Hon. unfold truthy. rewrite !(nonempty_eqb a Ha). cbn.
  rewrite ?(nonempty_eqb a Ha). cbn. now rewrite Hhit.
Qed.

Lemma answeredWith_refl (w : Wrapper) (tasks : list Task) :
  Forall2 (answeredWith w) tasks tasks.
Proof. induction tasks; constructor; [now left | assumption]. Qed.

(** Lookups of an address that has an entry, none of them in flight, run
    under any schedule. *)
Lemma run_hit (f : Factory) (getWrapper : Hydrator) (a : Address) (w : Wrapper)
  (st : State) :
  cacheContractWrappers st = true -> a <> EmptyString ->
  getCachedContract st (solidityContractName f) a = Some w ->
  forall (schedule : list nat) (tasks : list Task),
    Forall (notInFlight a) tasks ->
    exists tasks',
      run f getWrapper schedule tasks st = (tasks', st)
      /\ Forall2 (answeredWith w) tasks tasks'
      /\ forall i, In i schedule -> tasks !! i = Some (NotStarted (Some a)) ->
           tasks' !! i = Some (Done (Ok (Some w))).
Proof.
  intros Hon Ha Hhit schedule.
  induction schedule as [| i schedule IH]; intros tasks Hidle.
  - exists tasks. split; [reflexivity |].
    split; [apply answeredWith_refl | intros i []].
  - cbn [run]. destruct (tasks !! i) as [t |] eqn:Hi.
    + destruct (Forall_lookup_1 _ _ _ _ Hidle Hi) as [-> | [r ->]].
      * rewrite (step_hit f getWrapper a w st Hon Ha Hhit).
        assert (Hidle1 : Forall (notInFlight a) (<[i := Done (Ok (Some w))]> tasks)).
        { apply Forall_insert; [exact Hidle | right; eauto]. }
        destruct (IH _ Hidle1) as (tasks' & Hrun & Hall & Hdone).
        assert (Hlt : (i < length tasks)%nat) by (eapply lookup_lt_Some; exact Hi).
        assert (Hi' : tasks' !! i = Some (Done (Ok (Some w)))).
        { destruct (Forall2_lookup_l _ _ _ i _ Hall
                      (list_lookup_insert_eq tasks i _ Hlt))
            as (t' & Ht' & [-> | [[address Habs] _]]);
            [exact Ht' | discriminate Habs]. }
        exists tasks'. split; [exact Hrun |]. split.
        -- apply Forall2_same_length_lookup. split.
           ++ rewrite <- (Forall2_length _ _ _ Hall). now rewrite length_insert.
           ++ intros j t t' Hj Hj'. destruct (decide (i = j)) as [<- | Hne].
              ** rewrite Hi in Hj. injection Hj as <-.
                 rewrite Hi' in Hj'. injection Hj' as <-.
                 right. split; [eauto | reflexivity].
              ** eapply Forall2_lookup_lr; [exact Hall | | exact Hj'].
                 now rewrite list_lookup_insert_ne.
        -- intros j [<- | Hin] Hj; [exact Hi' |].
           destruct (decide (i = j)) as [<- | Hne]; [exact Hi' |].
           apply Hdone; [exact Hin |]. now rewrite list_lookup_insert_ne.
      * cbn [step]. rewrite (list_insert_id _ _ _ Hi).
        destruct (IH _ Hidle) as (tasks' & Hrun & Hall & Hdone).
        exists tasks'. split; [exact Hrun |]. split; [exact Hall |].
        intros j [<- | Hin] Hj; [congruence | now apply Hdone].
    + destruct (IH _ Hidle) as (tasks' & Hrun & Hall & Hdone).
      exists tasks'. split; [exact Hrun |]. split; [exact Hall |].
      intros j [<- | Hin] Hj; [congruence | now apply Hdone].
Qed.

(** Storing a wrapper of another address leaves the entry of an address
    as it is. *)
Lemma getCachedContract_other (st : State) (n : string) (w' : option Wrapper)
  (a : Address) :
  match w' with Some w' => address w' <> a | None => True end ->
  getCachedContract (setCachedContract n w' st) n a = getCachedContract st n a.
Proof.
  destruct w' as [w' |]; [| reflexivity]. intros Hne.
  unfold getCachedContract. destruct (String.eqb a ""); [reflexivity |].
  cbn [setCachedContract contractCache]. rewrite lookup_insert_eq. cbn.
  rewrite lookup_insert_ne by exact Hne.
  now destruct (contractCache st !! n).
Qed.

(** One turn of a task that stores no wrapper of the address [a], the
    callback having none for outcome: the setting and the entry of [a]
    are what they were, and the task still stores none. *)
Lemma step_elsewhere (f : Factory) (getWrapper : Hydrator) (a : Address) (w : Wrapper)
  (t : Task) (st : State) :
  (forall n w', getWrapper n = Ok (Some w') -> address w' <> a) ->
  cacheContractWrappers st = true ->
  getCachedContract st (solidityContractName f) a = Some w ->
  storesElsewhere a t ->
  cacheContractWrappers (snd (step f getWrapper t st)) = true
  /\ getCachedContract (snd (step f getWrapper t st)) (solidityContractName f) a
     = Some w
  /\ storesElsewhere a (fst (step f getWrapper t st)).
Proof.
  intros Hgw Hon Hhit Ht. destruct t as [address | s | r].
  - unfold step, enter. rewrite Hon. cbv zeta.
    match goal with
    | |- context [match ?x with Some _ => _ | None => _ end] => destruct x as [c |]
    end.
    + cbn. auto.
    + rewrite invoke_spec. cbn [fst snd].
      split; [exact Hon |]. split; [exact Hhit |].
      cbn. destruct (getWrapper (hydrations st)) as [[w' |] |] eqn:E; [| exact I ..].
      exact (Hgw _ _ E).
  - destruct s as [c | [w' | msg] | r]; cbn [step leave fst snd]; auto.
    split; [now destruct w' |]. split; [| exact I].
    rewrite getCachedContract_other; [exact Hhit |].
    destruct w' as [w' |]; [exact Ht | exact I].
  - cbn. auto.
Qed.

(** Lookups of an address that has an entry, among tasks none of which
    stores a wrapper of that address. *)
Lemma run_elsewhere (f : Factory) (getWrapper : Hydrator) (a : Address) (w : Wrapper) :
  a <> EmptyString ->
  (forall n w', getWrapper n = Ok (Some w') -> address w' <> a) ->
  forall (schedule : list nat) (tasks : list Task) (st : State),
    cacheContractWrappers st = true ->
    getCachedContract st (solidityContractName f) a = Some w ->
    Forall (storesElsewhere a) tasks ->
    exists tasks' st',
      run f getWrapper schedule tasks st = (tasks', st')
      /\ cacheContractWrappers st' = true
      /\ getCachedContract st' (solidityContractName f) a = Some w
      /\ (forall i r, tasks !! i = Some (Done r) -> tasks' !! i = Some (Done r))
      /\ forall i, In i schedule -> tasks !! i = Some (NotStarted (Some a)) ->
           tasks' !! i = Some (Done (Ok (Some w))).
Proof.
  intros Ha Hgw schedule.
  induction schedule as [| i schedule IH]; intros tasks st Hon Hhit Hquiet.
  - exists tasks, st. split; [reflexivity |]. split; [exact Hon |].
    split; [exact Hhit |]. split; [auto | intros i []].
  - cbn [run]. destruct (tasks !! i) as [t |] eqn:Hi.
    + destruct (step_elsewhere f getWrapper a w t st Hgw Hon Hhit
                  (Forall_lookup_1 _ _ _ _ Hquiet Hi))
        as (Hon1 & Hhit1 & Hquiet1).
      destruct (step f getWrapper t st) as [t1 st1] eqn:Hstep.
      cbn [fst snd] in Hon1, Hhit1, Hquiet1.
      assert (Hlt : (i < length tasks)%nat) by (eapply lookup_lt_Some; exact Hi).
      destruct (IH (<[i := t1]> tasks) st1 Hon1 Hhit1
                  (Forall_insert _ _ _ _ Hquiet Hquiet1))
        as (tasks' & st' & Hrun & Hon' & Hhit' & Hstay & Hdone).
      exists tasks', st'. split; [exact Hrun |]. split; [exact Hon' |].
      split; [exact Hhit' |]. split.
      * intros j r Hj. apply Hstay. destruct (decide (i = j)) as [<- | Hne].
        -- rewrite Hi in Hj. injection Hj as ->. cbn in Hstep.
           injection Hstep as <- <-. now apply list_lookup_insert_eq.
        -- now rewrite list_lookup_insert_ne.
      * intros j Hin Hj. destruct (decide (i = j)) as [<- | Hne].
        -- rewrite Hi in Hj. injection Hj as ->.
           rewrite (step_hit f getWrapper a w st Hon Ha Hhit) in Hstep.
           injection Hstep as <- <-. apply Hstay. now apply list_lookup_insert_eq.
        -- destruct Hin as [-> | Hin]; [contradiction |].
           apply Hdone; [exact Hin |]. now rewrite list_lookup_insert_ne.
    + destruct (IH tasks st Hon Hhit Hquiet)
        as (tasks' & st' & Hrun & Hon' & Hhit' & Hstay & Hdone).
      exists tasks', st'. split; [exact Hrun |]. split; [exact Hon' |].
      split; [exact Hhit' |]. split; [exact Hstay |].
      intros j [<- | Hin] Hj; [congruence | now apply Hdone].
Qed.

Lemma servedFromCache_hit (f : Factory) (a : Address) (w : Wrapper) (st : State) :
  cacheContractWrappers st = true -> a <> EmptyString ->
  getCachedContract st (solidityContractName f) a = Some w ->
  servedFromCache f a w st.
Proof.
  intros Hon Ha Hhit getWrapper. split; [| split].
  - intros k. now apply lookups_hit.
  - now apply run_hit.
  - intros schedule tasks Hgw Hquiet.
    destruct (run_elsewhere f getWrapper a w Ha Hgw schedule tasks st Hon Hhit Hquiet)
      as (tasks' & st' & Hrun & Hon' & Hhit' & _ & Hdone).
    now exists tasks', st'.
Qed.

(** C2, as the code has it: with the setting "cacheContractWrappers" on,
    an address that has an entry is answered by that same wrapper object
    in every lookup that starts while the entry is in place, the lookup
    calling no callback and changing nothing: in lookups awaited one
    after the other, in lookups run together under any schedule, and in
    lookups run among other tasks, the entry staying in place as long as
    none of these stores a wrapper of the same address.  An address that
    has no entry makes one call of the callback, whose outcome is the
    result, and a wrapper so obtained is in the cache, under its own
    address, when the lookup returns: the lookups of that address that
    start from then on are answered by it in the same way. *)
Theorem cached_lookups (f : Factory) (getWrapper : Hydrator) (a : Address)
  (st : State) :
  cacheContractWrappers st = true -> a <> EmptyString ->
  match getCachedContract st (solidityContractName f) a with
  | Some w => servedFromCache f a w st
  | None =>
      exists st',
        getHydratedWrapper f getWrapper (Some a) st
        = (getWrapper (hydrations st), st')
        /\ hydrations st' = S (hydrations st)
        /\ match getWrapper (hydrations st) with
           | Ok (Some w) =>
               contractCache st' !! solidityContractName f
               = Some (<[address w := w]>
                         (default ∅ (contractCache st !! solidityContractName f)))
               /\ (address w <> EmptyString ->
                   servedFromCache f (address w) w st')
           | _ => contractCache st' = contractCache st
           end
  end.
Proof.
  intros Hon Ha.
  destruct (getCachedContract st (solidityContractName f) a) as [w |] eqn:Hlook.
  - now apply servedFromCache_hit.
  - destruct (getHydratedWrapper_not_hit f getWrapper a st Ha Hlook)
      as (st' & Hrun & Hcount & Hon' & Hst').
    exists st'. split; [exact Hrun |]. split; [exact Hcount |].
    rewrite Hon in Hst', Hon'.
    destruct (getWrapper (hydrations st)) as [[w |] | msg]; subst st';
      try reflexivity.
    split.
    + cbn [setCachedContract contractCache emit]. now rewrite lookup_insert_eq.
    + intros Hw. apply servedFromCache_hit; [exact Hon' | exact Hw |].
      now apply getCachedContract_stored.
Qed.

(** The first lookup of an address hydrates and stores; three more return
    the same wrapper object and leave the count of hydrations at one; so
    do three lookups that run together; and so do two that run with a
    lookup of another address between them. *)
Lemma cached_lookups_witness :
  exists st',
    getHydratedWrapper upgradeSchemeFactory (hydrateFromAt "0xaa") (Some "0xaa"%string)
      (initial true)
    = (Ok (Some (wrapperAt "0xaa" 0)), st')
    /\ hydrations st' = 1%nat
    /\ lookups upgradeSchemeFactory (hydrateFromAt "0xaa") "0xaa" 3 st'
       = (repeat (Ok (Some (wrapperAt "0xaa" 0))) 3, st')
    /\ (exists tasks',
          run upgradeSchemeFactory (hydrateFromAt "0xaa") [2; 0; 1; 0]%nat
            (repeat (NotStarted (Some "0xaa"%string)) 3) st'
          = (tasks', st')
          /\ tasks' !! 0%nat = Some (Done (Ok (Some (wrapperAt "0xaa" 0))))
          /\ tasks' !! 1%nat = Some (Done (Ok (Some (wrapperAt "0xaa" 0))))
          /\ tasks' !! 2%nat = Some (Done (Ok (Some (wrapperAt "0xaa" 0)))))
    /\ (exists tasks' st'',
          run upgradeSchemeFactory (hydrateFromAt "0xbb") [1; 0; 1; 2]%nat
            [NotStarted (Some "0xaa"%string); NotStarted (Some "0xbb"%string);
             NotStarted (Some "0xaa"%string)] st'
          = (tasks', st'')
          /\ getCachedContract st'' "UpgradeScheme" "0xaa" = Some (wrapperAt "0xaa" 0)
          /\ tasks' !! 0%nat = Some (Done (Ok (Some (wrapperAt "0xaa" 0))))
          /\ tasks' !! 2%nat = Some (Done (Ok (Some (wrapperAt "0xaa" 0))))).
Proof.
  destruct (cached_lookups upgradeSchemeFactory (hydrateFromAt "0xaa") "0xaa"
              (initial true) eq_refl ltac:(discriminate))
    as (st' & Hrun & Hcount & _ & Hlater).
  specialize (Hlater ltac:(discriminate)).
  destruct (Hlater (hydrateFromAt "0xaa")) as (Hlookups & Htogether & _).
  destruct (Hlater (hydrateFromAt "0xbb")) as (_ & _ & Hamong).
  destruct (Htogether [2; 0; 1; 0]%nat (repeat (NotStarted (Some "0xaa"%string)) 3))
    as (tasks1 & Hrun1 & _ & Hdone1).
  { repeat constructor. }
  destruct (Hamong [1; 0; 1; 2]%nat
              [NotStarted (Some "0xaa"%string); NotStarted (Some "0xbb"%string);
               NotStarted (Some "0xaa"%string)])
    as (tasks2 & st2 & Hrun2 & _ & Hentry2 & Hdone2).
  { intros n w' [= <-]. discriminate. }
  { repeat constructor. }
  exists st'. split; [exact Hrun |]. split; [exact Hcount |].
  split; [apply Hlookups |]. split.
  - exists tasks1. split; [exact Hrun1 |].
    repeat split; apply Hdone1; cbn; auto.
  - exists tasks2, st2. split; [exact Hrun2 |]. split; [exact Hentry2 |].
    split; apply Hdone2; cbn; auto.
Defined.

(** C2 as stated fails with the setting off.  Off from the start, a
    lookup hydrates and stores nothing, so the next one hydrates again and
    returns another wrapper object.  Switched off after a first lookup
    has stored its wrapper, the entry is not read: the callback runs again
    and again another wrapper object is returned.  And with the setting
    on, a lookup that was in flight when the wrapper was stored stores its
    own when it goes on: the lookup that comes after both returns that
    other wrapper object. *)
Lemma later_lookup_returns_another_instance :
  let getWrapper := hydrateFromAt "0xaa" in
  (let '(r1, st1) :=
     getHydratedWrapper upgradeSchemeFactory getWrapper (Some "0xaa"%string)
       (initial false) in
   let '(r2, st2) :=
     getHydratedWrapper upgradeSchemeFactory getWrapper (Some "0xaa"%string) st1 in
   r1 = Ok (Some (wrapperAt "0xaa" 0))
   /\ contractCache st1 = ∅
   /\ r2 = Ok (Some (wrapperAt "0xaa" 1))
   /\ r2 <> r1
   /\ hydrations st2 = 2%nat)
  /\ (let '(r1, st1) :=
        getHydratedWrapper upgradeSchemeFactory getWrapper (Some "0xaa"%string)
          (initial true) in
      let '(r2, st2) :=
        getHydratedWrapper upgradeSchemeFactory getWrapper (Some "0xaa"%string)
          (configure false st1) in
      r1 = Ok (Some (wrapperAt "0xaa" 0))
      /\ getCachedContract st1 "UpgradeScheme" "0xaa" = Some (wrapperAt "0xaa" 0)
      /\ r2 = Ok (Some (wrapperAt "0xaa" 1))
      /\ r2 <> r1
      /\ hydrations st2 = 2%nat)
  /\ (let '(tasks1, st1) :=
        run upgradeSchemeFactory getWrapper [0; 1; 0]%nat
          [NotStarted (Some "0xaa"%string); NotStarted (Some "0xaa"%string)]
          (initial true) in
      let '(tasks2, st2) := run upgradeSchemeFactory getWrapper [1]%nat tasks1 st1 in
      let '(r3, st3) :=
        getHydratedWrapper upgradeSchemeFactory getWrapper (Some "0xaa"%string) st2 in
      tasks1 = [Done (Ok (Some (wrapperAt "0xaa" 0)));
                Suspended (AwaitCaching (Ok (Some (wrapperAt "0xaa" 1))))]
      /\ getCachedContract st1 "UpgradeScheme" "0xaa" = Some (wrapperAt "0xaa" 0)
      /\ getCachedContract st2 "UpgradeScheme" "0xaa" = Some (wrapperAt "0xaa" 1)
      /\ r3 = Ok (Some (wrapperAt "0xaa" 1))
      /\ r3 <> Ok (Some (wrapperAt "0xaa" 0))).
Proof. vm_compute. repeat split; discriminate. Qed.

(** C5: when the callback is rejected on a lookup of an address that has
    no entry, the lookup is rejected with the same error, the cache is what
    it was, and the next lookup of that address invokes the callback again
    and has its outcome for result. *)
Theorem hydrate_failure_not_cached (f : Factory) (getWrapper : Hydrator)
  (a : Address) (st : State) (msg : string) :
  a <> EmptyString ->
  getCachedContract st (solidityContractName f) a = None ->
  getWrapper (hydrations st) = Throw msg ->
  exists st',
    getHydratedWrapper f getWrapper (Some a) st = (Throw msg, st')
    /\ contractCache st' = contractCache st
    /\ hydrations st' = S (hydrations st)
    /\ exists st'',
         getHydratedWrapper f getWrapper (Some a) st'
         = (getWrapper (S (hydrations st)), st'')
         /\ hydrations st'' = S (S (hydrations st)).
Proof.
  intros Ha Hmiss Hfail.
  destruct (getHydratedWrapper_not_hit f getWrapper a st Ha Hmiss)
    as (st' & Hrun & Hcount & Hon' & Hst').
  rewrite Hfail in Hrun, Hst'.
  assert (Hcache : contractCache st' = contractCache st).
  { subst st'. destruct (cacheContractWrappers st); reflexivity. }
  exists st'. repeat split; try assumption.
  assert (Hmiss' : getCachedContract st' (solidityContractName f) a = None).
  { unfold getCachedContract in *. now rewrite Hcache. }
  destruct (getHydratedWrapper_not_hit f getWrapper a st' Ha Hmiss')
    as (st'' & Hrun' & Hcount' & _).
  exists st''. rewrite Hcount in Hrun', Hcount'. now split.
Qed.

(** A rejected first hydration, and the retry that succeeds. *)
Lemma hydrate_failure_not_cached_witness :
  exists st',
    getHydratedWrapper upgradeSchemeFactory (hydrateFailingOnce "0xaa")
      (Some "0xaa"%string) (initial true)
    = (Throw "hydrateFromAt: the node did not answer", st')
    /\ contractCache st' = contractCache (initial true)
    /\ hydrations st' = 1%nat
    /\ exists st'',
         getHydratedWrapper upgradeSchemeFactory (hydrateFailingOnce "0xaa")
           (Some "0xaa"%string) st'
         = (Ok (Some (wrapperAt "0xaa" 1)), st'')
         /\ hydrations st'' = 2%nat.
Proof.
  apply (hydrate_failure_not_cached upgradeSchemeFactory (hydrateFailingOnce "0xaa")
           "0xaa" (initial true));
    [discriminate | reflexivity | reflexivity].
Defined.

(** A failed [new] or [at] leaves the cache as it was, too. *)
Lemma new_failure_not_cached (requireContract : string -> Result SolidityContract)
  (f : Factory) (hydrateFromNew : Hydrator) (st : State) :
  forall msg f' st',
    new requireContract f hydrateFromNew st = (Throw msg, f', st') ->
    contractCache st' = contractCache st.
Proof.
  intros msg f' st'. unfold new, ensureSolidityContract.
  destruct (solidityContract f) as [c |].
  - rewrite invoke_spec.
    destruct (hydrateFromNew (hydrations st)) as [[w |] | m];
      cbn; try destruct (cacheContractWrappers st); intros [= <- <- <-];
      reflexivity.
  - destruct (requireContract (solidityContractName f)) as [c | m].
    + rewrite invoke_spec.
      destruct (hydrateFromNew
                  (hydrations (emit (RequireContract (solidityContractName f)) st)))
        as [[w |] | m];
        cbn; try destruct (cacheContractWrappers st); intros [= <- <- <-];
        reflexivity.
    + intros [= <- <- <-]. reflexivity.
Qed.

(** [at] on a factory whose contract is loaded is the lookup itself. *)
Lemma at_loaded (requireContract : string -> Result SolidityContract)
  (f : Factory) (c : SolidityContract) (hydrate : Address -> Hydrator)
  (a : Address) (st : State) :
  solidityContract f = Some c ->
  at_ requireContract f hydrate a st
  = (let '(r, st') := getHydratedWrapper f (hydrate a) (Some a) st in (r, f, st')).
Proof.
  intros Hc. unfold at_, ensureSolidityContract. rewrite Hc.
  now destruct (getHydratedWrapper f (hydrate a) (Some a) st).
Qed.

(** *** Lookups in flight together *)

Lemma step_begin_miss (f : Factory) (getWrapper : Hydrator) (a : Address)
  (st : State) :
  cacheContractWrappers st = true -> a <> EmptyString ->
  getCachedContract st (solidityContractName f) a = None ->
  step f getWrapper (NotStarted (Some a)) st
  = (Suspended (AwaitCaching (getWrapper (hydrations st))),
     emit (Hydrate (solidityContractName f)) st).
Proof.
  intros Hon Ha Hmiss. unfold step, enter.
  rewrite Hon. unfold truthy. rewrite !(nonempty_eqb a Ha). cbn.
  rewrite ?(nonempty_eqb a Ha). cbn. now rewrite Hmiss.
Qed.

Lemma step_resume (f : Factory) (getWrapper : Hydrator)
  (r : Result (option Wrapper)) (st : State) :
  exists st',
    step f getWrapper (Suspended (AwaitCaching r)) st = (Done r, st')
    /\ hydrations st' = hydrations st.
Proof.
  destruct r as [w | msg]; cbn [step leave]; eexists; split; try reflexivity.
  apply hydrations_setCachedContract.
Qed.

(** C3, as the code has it: with the setting on and no entry for the
    address, two lookups that both start before either has finished each
    invoke the callback, twice in all, and each returns the outcome of its
    own call; the one that started first has the earlier one.  Nothing
    makes the second wait for the first. *)
Theorem lookups_in_flight_hydrate_twice (f : Factory) (getWrapper : Hydrator)
  (a : Address) (st : State) (schedule : list nat) :
  cacheContractWrappers st = true -> a <> EmptyString ->
  getCachedContract st (solidityContractName f) a = None ->
  In schedule [[0; 1; 0; 1]; [0; 1; 1; 0]; [1; 0; 0; 1]; [1; 0; 1; 0]]%nat ->
  exists tasks st',
    run f getWrapper schedule [NotStarted (Some a); NotStarted (Some a)] st
    = (tasks, st')
    /\ hydrations st' = S (S (hydrations st))
    /\ (tasks = [Done (getWrapper (hydrations st));
                 Done (getWrapper (S (hydrations st)))]
        \/ tasks = [Done (getWrapper (S (hydrations st)));
                    Done (getWrapper (hydrations st))]).
Proof.
  intros Hon Ha Hmiss Hsched.
  set (st1 := emit (Hydrate (solidityContractName f)) st).
  assert (Hon1 : cacheContractWrappers st1 = true) by exact Hon.
  assert (Hmiss1 : getCachedContract st1 (solidityContractName f) a = None)
    by exact Hmiss.
  assert (Hcount1 : hydrations st1 = S (hydrations st)).
  { subst st1. rewrite hydrations_emit. cbn. lia. }
  pose proof (step_begin_miss f getWrapper a st Hon Ha Hmiss) as Hb0.
  pose proof (step_begin_miss f getWrapper a st1 Hon1 Ha Hmiss1) as Hb1.
  fold st1 in Hb0. rewrite Hcount1 in Hb1.
  set (st2 := emit (Hydrate (solidityContractName f)) st1) in *.
  assert (Hcount2 : hydrations st2 = S (S (hydrations st))).
  { subst st2. rewrite hydrations_emit, Hcount1. cbn. lia. }
  destruct (step_resume f getWrapper (getWrapper (hydrations st)) st2)
    as (sa & Hra & Hca).
  destruct (step_resume f getWrapper (getWrapper (S (hydrations st))) sa)
    as (sab & Hrab & Hcab).
  destruct (step_resume f getWrapper (getWrapper (S (hydrations st))) st2)
    as (sb & Hrb & Hcb).
  destruct (step_resume f getWrapper (getWrapper (hydrations st)) sb)
    as (sba & Hrba & Hcba).
  cbn [In] in Hsched.
  destruct Hsched as [<- | [<- | [<- | [<- | []]]]];
    cbn [run lookup list_lookup insert list_insert];
    rewrite Hb0; cbn [lookup list_lookup insert list_insert];
    rewrite Hb1; cbn [lookup list_lookup insert list_insert];
    first [ rewrite Hra; cbn [lookup list_lookup insert list_insert]; rewrite Hrab
          | rewrite Hrb; cbn [lookup list_lookup insert list_insert]; rewrite Hrba ];
    cbn [lookup list_lookup insert list_insert];
    do 2 eexists; (split; [reflexivity |]); split; try lia; auto.
Qed.

(** Two lookups of one address, the second started while the first waits:
    two hydrations, two wrapper objects. *)
Lemma lookups_in_flight_hydrate_twice_witness :
  exists tasks st',
    run upgradeSchemeFactory (hydrateFromAt "0xaa") [0; 1; 0; 1]%nat
      [NotStarted (Some "0xaa"%string); NotStarted (Some "0xaa"%string)]
      (initial true)
    = (tasks, st')
    /\ hydrations st' = 2%nat
    /\ (tasks = [Done (Ok (Some (wrapperAt "0xaa" 0)));
                 Done (Ok (Some (wrapperAt "0xaa" 1)))]
        \/ tasks = [Done (Ok (Some (wrapperAt "0xaa" 1)));
                    Done (Ok (Some (wrapperAt "0xaa" 0)))]).
Proof.
  apply (lookups_in_flight_hydrate_twice upgradeSchemeFactory (hydrateFromAt "0xaa")
           "0xaa" (initial true) [0; 1; 0; 1]%nat);
    [reflexivity | discriminate | reflexivity | left; reflexivity].
Defined.

(** C3 as stated fails: both callers hydrate, and they end with different
    wrapper objects. *)
Lemma two_lookups_two_hydrations :
  let '(tasks, st') :=
    run upgradeSchemeFactory (hydrateFromAt "0xaa") [0; 1; 0; 1]%nat
      [NotStarted (Some "0xaa"%string); NotStarted (Some "0xaa"%string)]
      (initial true) in
  tasks = [Done (Ok (Some (wrapperAt "0xaa" 0)));
           Done (Ok (Some (wrapperAt "0xaa" 1)))]
  /\ wrapperAt "0xaa" 0 <> wrapperAt "0xaa" 1
  /\ hydrations st' = 2%nat.
Proof. vm_compute. repeat split; discriminate. Qed.

(** When the second lookup starts after the first has finished, it finds
    the entry: one hydration, one wrapper object. *)
Example one_lookup_after_the_other :
  let '(tasks, st') :=
    run upgradeSchemeFactory (hydrateFromAt "0xaa") [0; 0; 1]%nat
      [NotStarted (Some "0xaa"%string); NotStarted (Some "0xaa"%string)]
      (initial true) in
  tasks = [Done (Ok (Some (wrapperAt "0xaa" 0)));
           Done (Ok (Some (wrapperAt "0xaa" 0)))]
  /\ hydrations st' = 1%nat.
Proof. vm_compute. split; reflexivity. Qed.

End ContractWrapperFactoryFacts.

(** ** Notifications of an operation *)

Module TransactionServiceFacts.
Import TransactionService.










(** The scenario of section 8: three steps after the kickoff give the
    counts 0, 1, 2, 3 and the receipts in their order. *)
Example scenario_of_section_8 :
  published
    (snd (operation "txReceipts.Op.create" testOptions 3 ["r1"; "r2"; "r3"]%string
            None emptyTracker))
  = [ ("txReceipts.Op.create", {| options := Some testOptions; txCount := 0; tx := None |});
      ("txReceipts.Op.create",
       {| options := Some testOptions; txCount := 1; tx := Some "r1" |});
      ("txReceipts.Op.create",
       {| options := Some testOptions; txCount := 2; tx := Some "r2" |});
      ("txReceipts.Op.create",
       {| options := Some testOptions; txCount := 3; tx := Some "r3" |}) ]%string.
Proof. reflexivity. Qed.


End TransactionServiceFacts.

(** ** The directory *)

Module WrapperServiceFacts.
Import WrapperService.




(** The lookup that finds: the name of a released wrapper. *)
Example getContractWrapper_found :
  DAO.getContractWrapper releasedDirectory "UpgradeScheme" None
  = Ok (Some {| instance := 0; name := "UpgradeScheme"; address := "0xd0" |}).
Proof. reflexivity. Qed.

End WrapperServiceFacts.

(** ** Discovery, and the creation of a DAO *)

Module DAOFacts.
Import DAO.

(** *** The Map of the discovery *)

Section JsMapFacts.

Context {V : Type}.

Lemma mapGet_mapSet_eq (k : string) (v : V) (m : JsMap V) :
  mapGet k (mapSet k v m) = Some v.
Proof.
  induction m as [| [k' v'] m IH]; cbn.
  - now rewrite String.eqb_refl.
  - destruct (String.eqb k' k) eqn:E; cbn; rewrite ?E, ?String.eqb_refl; auto.
Qed.

Lemma mapGet_mapSet_ne (k k' : string) (v : V) (m : JsMap V) :
  k <> k' -> mapGet k' (mapSet k v m) = mapGet k' m.
Proof.
  intros Hne. apply String.eqb_neq in Hne.
  induction m as [| [k0 v0] m IH]; cbn.
  - now rewrite Hne.
  - destruct (String.eqb k0 k) eqn:E; cbn.
    + apply String.eqb_eq in E. subst k0. now rewrite Hne.
    + now rewrite IH.
Qed.

Lemma In_mapSet (k : string) (v : V) (m : JsMap V) (k' : string) (v' : V) :
  In (k', v') (mapSet k v m) -> (k' = k /\ v' = v) \/ In (k', v') m.
Proof.
  induction m as [| [k0 v0] m IH]; cbn.
  - intros [[= <- <-] | []]. now left.
  - destruct (String.eqb k0 k); cbn.
    + intros [[= <- <-] | Hin]; [now left | right; now right].
    + intros [Heq | Hin]; [right; now left |].
      destruct (IH Hin) as [? | ?]; [now left | right; now right].
Qed.

Lemma keys_mapSet (k : string) (v : V) (m : JsMap V) (k' : string) :
  In k' (map fst (mapSet k v m)) <-> k' = k \/ In k' (map fst m).
Proof.
  induction m as [| [k0 v0] m IH]; cbn.
  - intuition.
  - destruct (String.eqb k0 k) eqn:E; cbn.
    + apply String.eqb_eq in E. subst k0. intuition.
    + rewrite IH. intuition.
Qed.

Lemma NoDup_mapSet (k : string) (v : V) (m : JsMap V) :
  List.NoDup (map fst m) -> List.NoDup (map fst (mapSet k v m)).
Proof.
  induction m as [| [k0 v0] m IH]; cbn; intros Hnd.
  - constructor; [intros [] | constructor].
  - inversion Hnd as [| ? ? Hnotin Hnd']; subst.
    destruct (String.eqb k0 k) eqn:E; cbn.
    + apply String.eqb_eq in E. subst k0. now constructor.
    + constructor; [| now apply IH].
      rewrite keys_mapSet. intros [-> | Hin]; [| contradiction].
      now rewrite String.eqb_refl in E.
Qed.

Lemma mapGet_In (m : JsMap V) (k : string) (v : V) :
  mapGet k m = Some v -> In (k, v) m.
Proof.
  induction m as [| [k0 v0] m IH]; cbn; [discriminate |].
  destruct (String.eqb k0 k) eqn:E.
  - apply String.eqb_eq in E. subst k0. intros [= <-]. now left.
  - intros H. right. now apply IH.
Qed.

Lemma In_mapGet (m : JsMap V) (k : string) (v : V) :
  List.NoDup (map fst m) -> In (k, v) m -> mapGet k m = Some v.
Proof.
  induction m as [| [k0 v0] m IH]; cbn; intros Hnd Hin; [contradiction |].
  inversion Hnd as [| ? ? Hnotin Hnd']; subst.
  destruct Hin as [[= -> ->] | Hin].
  - now rewrite String.eqb_refl.
  - destruct (String.eqb k0 k) eqn:E; [| now apply IH].
    apply String.eqb_eq in E. subst k0.
    exfalso. apply Hnotin. change k with (fst (k, v)). now apply in_map.
Qed.

End JsMapFacts.

Lemma find_app {A} (p : A -> bool) (l l' : list A) :
  List.find p (l ++ l')
  = match List.find p l with Some x => Some x | None => List.find p l' end.
Proof.
  induction l as [| x l IH]; cbn; [reflexivity |].
  destruct (p x); [reflexivity | exact IH].
Qed.

Lemma NoDup_map_filter {A B} (f : A -> B) (p : A -> bool) (l : list A) :
  List.NoDup (map f l) -> List.NoDup (map f (List.filter p l)).
Proof.
  induction l as [| x l IH]; cbn; intros Hnd; [constructor |].
  inversion Hnd as [| ? ? Hnotin Hnd']; subst.
  destruct (p x); cbn; [| now apply IH].
  constructor; [| now apply IH].
  intros Hin. apply Hnotin.
  apply in_map_iff in Hin as (y & Hy & Hiny).
  apply filter_In in Hiny as [Hiny _].
  rewrite <- Hy. now apply in_map.
Qed.

(** *** Folding a log into the Map

    [key] is the address of an entry and [mk] the record made for it; the
    fold is the loop of [_handleSchemeEvent] and [_handleConstraintEvent]. *)

Section Fold.

Context {E V : Type} (key : E -> Address) (mk : E -> V) (keyOf : V -> Address).
Hypothesis keyOf_mk : forall e, keyOf (mk e) = key e.

Let handle (es : list E) (m : JsMap V) : JsMap V :=
  fold_left (fun m e => mapSet (key e) (mk e) m) es m.

(** Last write wins: the value under an address is the record of the last
    entry for it, or what was there when the log has none. *)
Lemma handle_get (es : list E) :
  forall m a,
    mapGet a (handle es m)
    = match lastFor key a es with
      | Some e => Some (mk e)
      | None => mapGet a m
      end.
Proof.
  induction es as [| e es IH]; intros m a; [reflexivity |].
  unfold handle in *. cbn [fold_left]. rewrite IH.
  unfold lastFor. cbn [rev]. rewrite find_app.
  destruct (List.find _ (rev es)); [reflexivity |].
  cbn [List.find]. destruct (String.eqb (key e) a) eqn:Ek.
  - apply String.eqb_eq in Ek. subst a. apply mapGet_mapSet_eq.
  - apply String.eqb_neq in Ek. now apply mapGet_mapSet_ne.
Qed.

Lemma handle_NoDup (es : list E) :
  forall m, List.NoDup (map fst m) -> List.NoDup (map fst (handle es m)).
Proof.
  induction es as [| e es IH]; intros m Hnd; [exact Hnd |].
  unfold handle in *. cbn [fold_left]. apply IH. now apply NoDup_mapSet.
Qed.

Lemma handle_keyed (es : list E) :
  forall m, (forall k v, In (k, v) m -> keyOf v = k) ->
    forall k v, In (k, v) (handle es m) -> keyOf v = k.
Proof.
  induction es as [| e es IH]; intros m Hm; [exact Hm |].
  unfold handle in *. cbn [fold_left]. apply IH.
  intros k v Hin. apply In_mapSet in Hin as [[-> ->] | Hin]; [apply keyOf_mk |].
  now apply Hm.
Qed.

(** The values of the Map folded from nothing, filtered on the present
    state: one record per address, and exactly the records of the last
    entries of the addresses that pass the filter. *)
Lemma discovered (es : list E) (live : Address -> bool) :
  let found := List.filter (fun v => live (keyOf v)) (mapValues (handle es [])) in
  List.NoDup (map keyOf found)
  /\ forall v, In v found <->
       live (keyOf v) = true
       /\ exists e, lastFor key (keyOf v) es = Some e /\ v = mk e.
Proof.
  cbn zeta.
  assert (Hnd : List.NoDup (map fst (handle es []))) by (apply handle_NoDup; constructor).
  assert (Hkeyed : forall k v, In (k, v) (handle es []) -> keyOf v = k)
    by (apply handle_keyed; intros ? ? []).
  split.
  - apply NoDup_map_filter. unfold mapValues. rewrite map_map.
    erewrite map_ext_in; [exact Hnd |].
    intros [k v] Hin. cbn. now apply Hkeyed.
  - intros v. rewrite filter_In. unfold mapValues. split.
    + intros [Hin Hlive]. split; [exact Hlive |].
      apply in_map_iff in Hin as ([k v'] & Hv & Hin). cbn in Hv. subst v'.
      pose proof (Hkeyed _ _ Hin) as Hk. subst k.
      apply (In_mapGet _ _ _ Hnd) in Hin. rewrite handle_get in Hin.
      destruct (lastFor key (keyOf v) es) as [e |]; [| discriminate].
      injection Hin as <-. now exists e.
    + intros (Hlive & e & Hlast & ->). split; [| exact Hlive].
      apply in_map_iff. exists (keyOf (mk e), mk e). split; [reflexivity |].
      apply mapGet_In. rewrite handle_get. now rewrite Hlast.
Qed.

End Fold.

(** *** What is registered now *)

(** With reads that succeed, the loop of [_handleSchemeEvent] is the fold
    of the Map. *)
Lemma _handleSchemeEvent_answers (fromString : string -> Z) (controller : Controller)
  (perms : Address -> string) (arcTypesMap : gmap Address string)
  (entries : list ControllerRegisterSchemeEventLogEntry) :
  (forall a, getSchemePermissions controller a = Ok (perms a)) ->
  forall schemesMap,
    _handleSchemeEvent fromString controller (Entries entries) arcTypesMap schemesMap
    = Ok (fold_left
            (fun m entry =>
               mapSet (_scheme entry)
                 {| name := arcTypesMap !! _scheme entry;
                    address := _scheme entry;
                    permissions := fromString (perms (_scheme entry)) |} m)
            entries schemesMap).
Proof.
  intros Hperms. unfold _handleSchemeEvent. cbn [asArray].
  induction entries as [| entry entries IH]; intros schemesMap; [reflexivity |].
  cbn [fold_left]. rewrite <- IH. f_equal. cbn. now rewrite Hperms.
Qed.

Lemma keepRegistered_from {V} (registered : V -> Result bool) (reg : V -> bool)
  (found : list V) :
  (forall v, registered v = Ok (reg v)) ->
  forall out,
    fold_left
      (fun sofar v =>
         out ← sofar; yes ← registered v; Ok (if yes : bool then out ++ [v] else out))
      found (Ok out)
    = Ok (out ++ List.filter reg found).
Proof.
  intros Hreg. induction found as [| v found IH]; intros out.
  - cbn. now rewrite app_nil_r.
  - cbn [fold_left List.filter]. cbn. rewrite Hreg. cbn.
    destruct (reg v); rewrite IH; [now rewrite <- app_assoc | reflexivity].
Qed.

(** With reads that succeed, the last loop is a filter. *)
Lemma keepRegistered_answers {V} (registered : V -> Result bool) (reg : V -> bool)
  (found : list V) :
  (forall v, registered v = Ok (reg v)) ->
  keepRegistered registered found = Ok (List.filter reg found).
Proof. intros Hreg. apply (keepRegistered_from registered reg found Hreg []). Qed.

(** C4: [_getSchemes] and [_getConstraints], on a controller that answers,
    fold the log, oldest entry first, into a Map keyed by address in which
    a later entry for an address replaces the earlier one, and keep the
    addresses that the controller reports registered now.  So the result
    has one record per address; a record is in it exactly when its address
    is registered now and it is the record made from the last entry of the
    log for that address.  After register(A), register(B), deregister(A)
    the result has B and not A. *)
Theorem discovery_last_write_then_live (fromString : string -> Z)
  (controller : Controller) (allWrappers : list (string * Address))
  (schemeLog : Log ControllerRegisterSchemeEventLogEntry)
  (constraintLog : Log ControllerAddGlobalConstraintsEventLogEntry)
  (perms : Address -> string) (reg greg : Address -> bool) :
  answers controller schemeLog constraintLog perms reg greg ->
  (exists registeredSchemes,
     _getSchemes fromString controller allWrappers = Resolves registeredSchemes
     /\ List.NoDup (map address registeredSchemes)
     /\ forall info, In info registeredSchemes <->
          reg (address info) = true
          /\ exists entry,
               lastFor _scheme (address info) (asArray schemeLog) = Some entry
               /\ info = {| name := arcTypes allWrappers !! _scheme entry;
                            address := _scheme entry;
                            permissions := fromString (perms (_scheme entry)) |})
  /\ (exists registeredConstraints,
        _getConstraints controller allWrappers = Resolves registeredConstraints
        /\ List.NoDup (map gcAddress registeredConstraints)
        /\ forall info, In info registeredConstraints <->
             greg (gcAddress info) = true
             /\ exists entry,
                  lastFor _globalConstraint (gcAddress info) (asArray constraintLog)
                  = Some entry
                  /\ info = {| gcName := arcTypes allWrappers !! _globalConstraint entry;
                               gcAddress := _globalConstraint entry;
                               paramsHash := _params entry |})
  /\ (forall A B : Address, A <> B ->
        exists registeredSchemes,
          _getSchemes fromString
            (controllerAfter [registerScheme A; registerScheme B; unregisterScheme A])
            allWrappers
          = Resolves registeredSchemes
          /\ map address registeredSchemes = [B]).
Proof.
  intros (Hslog & Hclog & Hperms & Hreg & Hgreg).
  pose proof (discovered _scheme
                (fun entry =>
                   {| name := arcTypes allWrappers !! _scheme entry;
                      address := _scheme entry;
                      permissions := fromString (perms (_scheme entry)) |})
                address (fun _ => eq_refl) (asArray schemeLog) reg) as [Hnd Hin].
  pose proof (discovered _globalConstraint
                (fun entry =>
                   {| gcName := arcTypes allWrappers !! _globalConstraint entry;
                      gcAddress := _globalConstraint entry;
                      paramsHash := _params entry |})
                gcAddress (fun _ => eq_refl) (asArray constraintLog) greg)
    as [Hndc Hinc].
  split; [| split].
  - eexists. split; [| split; [exact Hnd | exact Hin]].
    unfold _getSchemes. rewrite Hslog.
    replace (_handleSchemeEvent fromString controller schemeLog (arcTypes allWrappers) [])
      with (_handleSchemeEvent fromString controller (Entries (asArray schemeLog))
              (arcTypes allWrappers) []) by now destruct schemeLog.
    rewrite (_handleSchemeEvent_answers fromString controller perms _ _ Hperms).
    rewrite (keepRegistered_answers _ (fun scheme => reg (address scheme)))
      by (intros v; apply Hreg).
    reflexivity.
  - eexists. split; [| split; [exact Hndc | exact Hinc]].
    unfold _getConstraints. rewrite Hclog. cbv zeta.
    rewrite (keepRegistered_answers _ (fun gc => greg (gcAddress gc)))
      by (intros v; apply Hgreg).
    reflexivity.
  - intros A B Hne.
    assert (HAB : String.eqb A B = false) by now apply String.eqb_neq.
    assert (HBA : String.eqb B A = false) by (apply String.eqb_neq; congruence).
    eexists. split.
    + unfold _getSchemes, _handleSchemeEvent, keepRegistered, controllerAfter,
        registeredAfter.
      cbn. rewrite !String.eqb_refl, ?HAB, ?HBA. cbn.
      rewrite !String.eqb_refl, ?HAB, ?HBA. cbn. reflexivity.
    + reflexivity.
Qed.

(** Two addresses: the first registered and removed, the second
    registered. *)
Lemma discovery_last_write_then_live_witness :
  exists registeredSchemes,
    _getSchemes Utils.hexValue
      (controllerAfter
         [registerScheme "0xA"; registerScheme "0xB"; unregisterScheme "0xA"])
      [("SchemeRegistrar"%string, "0xB"%string)]
    = Resolves registeredSchemes
    /\ map address registeredSchemes = ["0xB"%string].
Proof.
  apply (discovery_last_write_then_live Utils.hexValue
           (controllerAfter []) [("SchemeRegistrar"%string, "0xB"%string)]
           (Entries []) (Entries [])
           (fun _ => "0x00000000"%string) (fun _ => false) (fun _ => false)).
  - repeat split; reflexivity.
  - discriminate.
Defined.

(** A constraint added twice is found once, with the later parameters. *)
Example constraint_parameters_last_write :
  _getConstraints reconfigured [("TokenCapGC"%string, "0xC"%string)]
  = Resolves [ {| gcName := Some "TokenCapGC"%string; gcAddress := "0xC";
                  paramsHash := "0x02" |} ].
Proof. reflexivity. Qed.

(** C6: with an empty history the discovery resolves to the empty array,
    for schemes and for constraints, whatever the reads of the controller
    would answer: none of them is made. *)
Theorem discovery_of_empty_history (fromString : string -> Z)
  (controller : Controller) (allWrappers : list (string * Address)) :
  RegisterScheme controller = Ok (Entries []) ->
  AddGlobalConstraint controller = Ok (Entries []) ->
  _getSchemes fromString controller allWrappers = Resolves []
  /\ _getConstraints controller allWrappers = Resolves [].
Proof.
  intros Hs Hc. unfold _getSchemes, _getConstraints. rewrite Hs, Hc.
  split; reflexivity.
Qed.

(** No history, and a node that answers no read: both discoveries still
    resolve to the empty array. *)
Lemma discovery_of_empty_history_witness :
  _getSchemes Utils.hexValue silent [("SchemeRegistrar"%string, "0xB"%string)]
  = Resolves []
  /\ _getConstraints silent [("SchemeRegistrar"%string, "0xB"%string)]
     = Resolves [].
Proof.
  apply (discovery_of_empty_history Utils.hexValue silent); reflexivity.
Defined.

(** With a history, a read that is rejected in the handler leaves
    [_getSchemes] waiting for ever; one rejected in the last loop rejects
    it. *)
Example discovery_on_a_silent_node :
  _getSchemes Utils.hexValue
    {| RegisterScheme := Ok (Single {| _scheme := "0xA" |});
       AddGlobalConstraint := Ok (Entries []);
       getSchemePermissions := fun _ => Throw "no answer";
       isSchemeRegistered := fun _ => Ok true;
       isGlobalConstraintRegistered := fun _ => Ok true |} []
  = NeverSettles
  /\ _getSchemes Utils.hexValue
       {| RegisterScheme := Ok (Single {| _scheme := "0xA" |});
          AddGlobalConstraint := Ok (Entries []);
          getSchemePermissions := fun _ => Ok "0x00000001"%string;
          isSchemeRegistered := fun _ => Throw "no answer";
          isGlobalConstraintRegistered := fun _ => Ok true |} []
     = Rejects "no answer".
Proof. split; reflexivity. Qed.

(** *** [DAO.new]: the kickoff and what comes before it *)

(** Finding a wrapper adds to the trace at most the loading of the
    contract and one hydration. *)
Lemma getHydratedWrapper_trace (f : ContractWrapperFactory.Factory)
  (getWrapper : ContractWrapperFactory.Hydrator) (given : option Address)
  (st : ContractWrapperFactory.State) :
  exists done,
    ContractWrapperFactory.trace
      (snd (ContractWrapperFactory.getHydratedWrapper f getWrapper given st))
    = ContractWrapperFactory.trace st ++ done
    /\ Forall (lookupEffect (ContractWrapperFactory.solidityContractName f)) done.
Proof.
  unfold ContractWrapperFactory.getHydratedWrapper, ContractWrapperFactory.enter.
  destruct (ContractWrapperFactory.cacheContractWrappers st).
  - match goal with
    | |- context [match ?c with Some _ => _ | None => _ end] => destruct c
    end.
    + exists []. cbn. split; [now rewrite app_nil_r | constructor].
    + rewrite ContractWrapperFactoryFacts.invoke_spec.
      exists [Hydrate (ContractWrapperFactory.solidityContractName f)].
      split; [| repeat constructor; now right].
      destruct (getWrapper (ContractWrapperFactory.hydrations st)) as [[w |] | msg];
        reflexivity.
  - rewrite ContractWrapperFactoryFacts.invoke_spec.
    exists [Hydrate (ContractWrapperFactory.solidityContractName f)].
    split; [reflexivity | repeat constructor; now right].
Qed.

Lemma at_trace (rc : string -> Result ContractWrapperFactory.SolidityContract)
  (f : ContractWrapperFactory.Factory)
  (h : Address -> ContractWrapperFactory.Hydrator) (a : Address)
  (st : ContractWrapperFactory.State) :
  exists done,
    ContractWrapperFactory.trace (snd (ContractWrapperFactory.at_ rc f h a st))
    = ContractWrapperFactory.trace st ++ done
    /\ Forall (lookupEffect (ContractWrapperFactory.solidityContractName f)) done.
Proof.
  unfold ContractWrapperFactory.at_, ContractWrapperFactory.ensureSolidityContract.
  destruct (ContractWrapperFactory.solidityContract f) as [c |] eqn:Hc.
  - destruct (getHydratedWrapper_trace f (h a) (Some a) st) as (done & Ht & Hall).
    destruct (ContractWrapperFactory.getHydratedWrapper f (h a) (Some a) st)
      as [r st2].
    now exists done.
  - destruct (rc (ContractWrapperFactory.solidityContractName f)) as [c | msg].
    + match goal with
      | |- context [ContractWrapperFactory.getHydratedWrapper ?f' ?g ?x ?s] =>
          destruct (getHydratedWrapper_trace f' g x s) as (done & Ht & Hall);
          destruct (ContractWrapperFactory.getHydratedWrapper f' g x s) as [r st2]
      end.
      exists (RequireContract (ContractWrapperFactory.solidityContractName f) :: done).
      cbn in *. rewrite Ht. rewrite <- app_assoc. split; [reflexivity |].
      constructor; [now left | exact Hall].
    + exists [RequireContract (ContractWrapperFactory.solidityContractName f)].
      split; [reflexivity | repeat constructor; now left].
Qed.

(** C7, as the code has it: when [DAO.new] has a DaoCreator to work with,
    it publishes the kickoff on [txReceipts.DAO.new] with the count
    [forgeOrgTransactionsCount(options) + setSchemesTransactionsCount(options)]
    before [forgeOrg], [setSchemes] and everything else it does after; the
    only effects that can come before the kickoff are those of finding the
    DaoCreator at [options.daoCreatorAddress] (loading the contract,
    hydrating the wrapper), and there is none when that option is not
    given.  Otherwise [DAO.new] throws without having published or sent
    anything. *)
Theorem kickoff_count_and_place (c : Collaborators) (dir : WrapperService.Directory)
  (factory : ContractWrapperFactory.Factory) (opts : NewDaoConfig)
  (st : ContractWrapperFactory.State) :
  exists lookup rest,
    ContractWrapperFactory.trace (snd (new c dir factory opts st))
    = ContractWrapperFactory.trace st ++ lookup ++ rest
    /\ Forall (lookupEffect (ContractWrapperFactory.solidityContractName factory)) lookup
    /\ forallb (fun e => negb (isTransaction e)) lookup = true
    /\ (if truthy (daoCreatorAddress opts) then True else lookup = [])
    /\ ((rest = [] /\ exists msg, fst (new c dir factory opts st) = Throw msg)
        \/ exists sent,
             rest = Publish "txReceipts.DAO.new"
                      (TransactionService.kickoffPayload opts
                         (forgeOrgTransactionsCount c opts
                          + setSchemesTransactionsCount c opts))
                    :: NewTxEventContext "DAO.new"
                    :: SendTransaction "DaoCreator.forgeOrg" :: sent).
Proof.
  assert (Hfor : exists lookup,
             ContractWrapperFactory.trace (snd (daoCreatorFor c dir factory opts st))
             = ContractWrapperFactory.trace st ++ lookup
             /\ Forall (lookupEffect (ContractWrapperFactory.solidityContractName factory))
                  lookup
             /\ (if truthy (daoCreatorAddress opts) then True else lookup = [])).
  { unfold daoCreatorFor. destruct (truthy (daoCreatorAddress opts)).
    - destruct (at_trace (requireContract c) factory (hydrateFromAt c)
                  (default EmptyString (daoCreatorAddress opts)) st)
        as (done & Ht & Hall).
      destruct (ContractWrapperFactory.at_ _ _ _ _ _) as [[r f'] st'].
      now exists done.
    - exists []. cbn. split; [now rewrite app_nil_r |]. split; [constructor | reflexivity]. }
  destruct Hfor as (lookup & Ht & Hall' & Hnone).
  assert (Hall : Forall (lookupEffect (ContractWrapperFactory.solidityContractName factory))
                   lookup
                 /\ forallb (fun e => negb (isTransaction e)) lookup = true).
  { split; [exact Hall' |]. apply forallb_forall. intros e He.
    rewrite Forall_forall in Hall'. rewrite <- list_elem_of_In in He.
    destruct (Hall' e He) as [-> | ->]; reflexivity. }
  clear Hall'.
  exists lookup. unfold new.
  destruct (daoCreatorFor c dir factory opts st) as [r st1]. cbn [snd] in Ht.
  destruct r as [[daoCreator |] | msg].
  - unfold TransactionService.publishKickoffEvent.
    destruct (forgeOrg c opts) as [avatarAddress | msg].
    + destruct (truthy avatarAddress); cbn [negb].
      * destruct (setSchemes c (default EmptyString avatarAddress) opts) as [[] | msg];
          eexists; (split; [cbn; rewrite Ht, <- !app_assoc; reflexivity |]);
          (split; [apply Hall |]); (split; [apply Hall |]); (split; [exact Hnone |]);
          right; eexists; reflexivity.
      * eexists. split; [cbn; rewrite Ht, <- !app_assoc; reflexivity |].
        split; [apply Hall |]. split; [apply Hall |]. split; [exact Hnone |].
        right. eexists. reflexivity.
    + eexists. split; [cbn; rewrite Ht, <- !app_assoc; reflexivity |].
      split; [apply Hall |]. split; [apply Hall |]. split; [exact Hnone |].
      right. eexists. reflexivity.
  - exists []. cbn. rewrite app_nil_r.
    split; [exact Ht |]. split; [apply Hall |]. split; [apply Hall |].
    split; [exact Hnone |]. left. eauto.
  - exists []. cbn. rewrite app_nil_r.
    split; [exact Ht |]. split; [apply Hall |]. split; [apply Hall |].
    split; [exact Hnone |]. left. eauto.
Qed.

(** C7 as stated fails when [options.daoCreatorAddress] is given and that
    DaoCreator is not at hand yet: the contract is loaded and the wrapper
    hydrated, both over the network, before the kickoff is published. *)
Lemma lookup_over_the_network_before_kickoff :
  ContractWrapperFactory.trace
    (snd (new cooperative WrapperService.uninitialized DaoCreatorFactory
            optionsWithDaoCreator (ContractWrapperFactory.initial true)))
  = [ RequireContract "DaoCreator";
      Hydrate "DaoCreator";
      Publish "txReceipts.DAO.new"
        (TransactionService.kickoffPayload optionsWithDaoCreator 6);
      NewTxEventContext "DAO.new";
      SendTransaction "DaoCreator.forgeOrg";
      SendTransaction "DaoCreator.setSchemes";
      ReadAvatar "0xa1" ]
  /\ isNetworkCall (RequireContract "DaoCreator") = true
  /\ isNetworkCall (Hydrate "DaoCreator") = true.
Proof. repeat split; reflexivity. Qed.

(** Without the option, and with the DaoCreator of the directory, the
    kickoff is the first thing done. *)
Example kickoff_first_without_the_option :
  ContractWrapperFactory.trace
    (snd (new cooperative directoryWithDaoCreator DaoCreatorFactory
            TransactionService.testOptions (ContractWrapperFactory.initial true)))
  = [ Publish "txReceipts.DAO.new"
        (TransactionService.kickoffPayload TransactionService.testOptions 6);
      NewTxEventContext "DAO.new";
      SendTransaction "DaoCreator.forgeOrg";
      SendTransaction "DaoCreator.setSchemes";
      ReadAvatar "0xa1" ].
Proof. reflexivity. Qed.

End DAOFacts.

(** ** Values read from the logs *)

Module UtilsLogsFacts.
Import ConfigService UtilsLogs.

Lemma nth_error_Some_lt {A} (l : list A) (k : nat) (x : A) :
  nth_error l k = Some x -> (k < length l)%nat.
Proof. intros H. apply nth_error_Some. congruence. Qed.

Lemma firstWithEvent_spec (eventName : string) (entries : list LogEntry) :
  forall i0,
    match firstWithEvent eventName entries i0 with
    | Some i =>
        exists k entry,
          i = (i0 + k)%nat /\ nth_error entries k = Some entry
          /\ event entry = eventName
          /\ forall j e, (j < k)%nat -> nth_error entries j = Some e ->
               event e <> eventName
    | None => forall e, In e entries -> event e <> eventName
    end.
Proof.
  induction entries as [| entry entries IH]; intros i0; cbn [firstWithEvent].
  - intros e [].
  - destruct (String.eqb (event entry) eventName) eqn:E.
    + apply String.eqb_eq in E. exists 0%nat, entry.
      repeat split; [lia | exact E | intros j e Hj; lia].
    + apply String.eqb_neq in E. specialize (IH (S i0)).
      destruct (firstWithEvent eventName entries (S i0)) as [i |].
      * destruct IH as (k & e & -> & Hk & He & Hbefore).
        exists (S k), e. repeat split; [lia | exact Hk | exact He |].
        intros j e' Hj Hnth. destruct j as [| j]; cbn in Hnth.
        -- now injection Hnth as <-.
        -- apply (Hbefore j e'); [lia | exact Hnth].
      * intros e [<- | Hin]; [exact E | now apply IH].
Qed.

(** X1: [getValueFromLogs] throws in one case only: the receipt has logs,
    the event name is not given or empty or carried by none of them, and
    the index is outside the array.  In particular a receipt without
    logs gives [undefined] and does not throw. *)
Theorem getValueFromLogs_throws_iff {R} (E : Engine R) (r : R)
  (tx : TransactionReceiptTruffle) (arg : string)
  (eventName : option string) (index : Z) :
  (exists msg, getValueFromLogs E r tx arg eventName index = Throw msg)
  <-> exists entries,
        logs tx = Some entries /\ entries <> []
        /\ (forall name, eventName = Some name -> name <> EmptyString ->
              forall entry, In entry entries -> event entry <> name)
        /\ (index < 0 \/ Z.of_nat (length entries) <= index).
Proof.
  unfold getValueFromLogs.
  destruct (logs tx) as [[| e1 es] |].
  - split; [intros [msg [=]] | intros (entries & [= <-] & Hne & _); congruence].
  - set (entries := e1 :: es). cbv zeta.
    assert (Hat : forall ix, (exists msg,
                     match logAt entries ix with
                     | Some entry =>
                         if negb (String.eqb (type entry) "mined") then Ok None
                         else if foundTruthy (getProp E r ObjectPrototype (args entry) arg)
                              then Ok (Some (getProp E r ObjectPrototype (args entry) arg))
                              else Ok None
                     | None => Throw "TypeError: cannot read property 'type' of undefined"
                     end = Throw msg)
                  <-> (ix < 0 \/ Z.of_nat (length entries) <= ix)).
    { intros ix. unfold logAt. destruct (ix <? 0) eqn:Hneg.
      - apply Z.ltb_lt in Hneg. split; [now left | eexists; reflexivity].
      - apply Z.ltb_ge in Hneg.
        destruct (nth_error entries (Z.to_nat ix)) as [entry |] eqn:Hnth.
        + assert (Hlt : (Z.to_nat ix < length entries)%nat)
            by (apply nth_error_Some; congruence).
          split; [| lia]. intros [msg Hmsg].
          destruct (negb _); [discriminate |]. now destruct (foundTruthy _).
        + apply nth_error_None in Hnth. split; [lia | eexists; reflexivity]. }
    pose proof (firstWithEvent_spec) as Hfirst.
    destruct eventName as [name |].
    + destruct (String.eqb name "") eqn:Hempty.
      * apply String.eqb_eq in Hempty. rewrite Hat. split.
        -- intros Hout. exists entries. repeat split; try assumption; [discriminate |].
           intros n [= <-] Hn. congruence.
        -- now intros (? & [= <-] & _ & _ & Hout).
      * apply String.eqb_neq in Hempty. specialize (Hfirst name entries 0%nat).
        destruct (firstWithEvent name entries 0) as [i |].
        -- destruct Hfirst as (k & entry & -> & Hk & He & _).
           rewrite Hat. split.
           ++ intros [Hneg | Hbig]; [lia |].
              apply nth_error_Some_lt in Hk. lia.
           ++ intros (? & [= <-] & _ & Habsent & _).
              destruct (Habsent name eq_refl Hempty entry (nth_error_In _ _ Hk) He).
        -- rewrite Hat. split.
           ++ intros Hout. exists entries. repeat split; try assumption; [discriminate |].
              intros n [= <-] _. exact Hfirst.
           ++ now intros (? & [= <-] & _ & _ & Hout).
    + rewrite Hat. split.
      * intros Hout. exists entries. repeat split; try assumption; discriminate.
      * now intros (? & [= <-] & _ & _ & Hout).
  - split; [intros [msg [=]] | intros (entries & [=] & _)].
Qed.

(** A receipt without logs, and an index outside the logs. *)
Example getValueFromLogs_edges :
  getValueFromLogs unasked tt {| logs := None |} "_avatar" (Some "NewOrg"%string) 7
  = Ok None
  /\ getValueFromLogs unasked tt {| logs := Some [] |} "_avatar" None 7 = Ok None
  /\ getValueFromLogs unasked tt newOrgReceipt "_avatar" None 1
     = Throw "TypeError: cannot read property 'type' of undefined".
Proof. repeat split; reflexivity. Qed.

(** X2: what [getValueFromLogs] returns is truthy, and it is what the
    name given reads as in the arguments of one of the logs of the
    receipt, a log whose type is ["mined"]: the argument of that name
    when there is one, and otherwise what [Object.prototype] has under
    the name. *)
Theorem getValueFromLogs_sound {R} (E : Engine R) (r : R)
  (tx : TransactionReceiptTruffle) (arg : string)
  (eventName : option string) (index : Z) (f : Found) :
  getValueFromLogs E r tx arg eventName index = Ok (Some f) ->
  foundTruthy f = true
  /\ exists entries entry,
       logs tx = Some entries /\ In entry entries
       /\ type entry = "mined"%string
       /\ match args entry !! arg with
          | Some v => f = Value v
          | None =>
              if String.eqb arg "__proto__" then f = EngineObject "Object.prototype"
              else f = found (inheritedProperty E r arg)
          end.
Proof.
  unfold getValueFromLogs. destruct (logs tx) as [[| e0 es] |]; try discriminate.
  set (entries := e0 :: es). cbv zeta.
  match goal with |- context [logAt _ ?i] => set (ix := i) end.
  unfold logAt. destruct (ix <? 0); [discriminate |].
  destruct (nth_error entries (Z.to_nat ix)) as [entry |] eqn:Hnth; [| discriminate].
  destruct (String.eqb (type entry) "mined") eqn:Ht; cbn [negb]; [| discriminate].
  destruct (foundTruthy (getProp E r ObjectPrototype (args entry) arg)) eqn:Htruthy;
    [| discriminate].
  intros [= <-]. split; [exact Htruthy |].
  exists entries, entry.
  split; [reflexivity |]. split; [eapply nth_error_In; exact Hnth |].
  split; [now apply String.eqb_eq |].
  unfold getProp, resolve. destruct (args entry !! arg); [reflexivity |].
  cbn [inherited]. now destruct (String.eqb arg "__proto__").
Qed.

Lemma getValueFromLogs_sound_witness :
  foundTruthy (Value (JsStr "0xcc05f0cde8c3e4b6c41c9b963031829496107bbb")) = true
  /\ exists entries entry,
       logs newOrgReceipt = Some entries /\ In entry entries
       /\ type entry = "mined"%string
       /\ match args entry !! "_avatar"%string with
          | Some v => Value (JsStr "0xcc05f0cde8c3e4b6c41c9b963031829496107bbb") = Value v
          | None =>
              if String.eqb "_avatar" "__proto__"
              then Value (JsStr "0xcc05f0cde8c3e4b6c41c9b963031829496107bbb")
                   = EngineObject "Object.prototype"
              else Value (JsStr "0xcc05f0cde8c3e4b6c41c9b963031829496107bbb")
                   = found (inheritedProperty unasked tt "_avatar")
          end.
Proof.
  apply (getValueFromLogs_sound unasked tt newOrgReceipt "_avatar"
           (Some "NewOrg"%string) 0).
  reflexivity.
Defined.

(** A name that the arguments do not have and [Object.prototype] has:
    the value is the function of [Object.prototype]. *)
Example getValueFromLogs_inherited :
  getValueFromLogs unasked tt newOrgReceipt "constructor" None 0
  = Ok (Some (EngineObject "Object.prototype.constructor"))
  /\ getValueFromLogs unasked tt newOrgReceipt "_owner" None 0 = Ok None.
Proof. split; vm_compute; reflexivity. Qed.

(** X3: when some log carries the event name given, the value is read
    from the first log that carries it, whatever the index given. *)
Theorem getValueFromLogs_by_event {R} (E : Engine R) (r : R)
  (tx : TransactionReceiptTruffle) (arg : string)
  (eventName : string) (index : Z) (entries : list LogEntry) :
  logs tx = Some entries -> eventName <> EmptyString ->
  (exists entry, In entry entries /\ event entry = eventName) ->
  exists k entry,
    nth_error entries k = Some entry /\ event entry = eventName
    /\ (forall j e, (j < k)%nat -> nth_error entries j = Some e ->
          event e <> eventName)
    /\ getValueFromLogs E r tx arg (Some eventName) index
       = getValueFromLogs E r tx arg None (Z.of_nat k).
Proof.
  intros Hlogs Hname (e0 & Hin & He0).
  pose proof (firstWithEvent_spec eventName entries 0) as Hfirst.
  unfold getValueFromLogs. rewrite Hlogs.
  destruct entries as [| e1 es]; [destruct Hin |].
  apply String.eqb_neq in Hname. rewrite Hname.
  destruct (firstWithEvent eventName (e1 :: es) 0) as [i |].
  - destruct Hfirst as (k & entry & -> & Hk & He & Hbefore).
    exists k, entry. repeat split; auto.
  - now destruct (Hfirst e0 Hin).
Qed.

Lemma getValueFromLogs_by_event_witness :
  exists k entry,
    nth_error twoLogs k = Some entry
    /\ event entry = "NewOrg"%string
    /\ (forall j e, (j < k)%nat -> nth_error twoLogs j = Some e ->
          event e <> "NewOrg"%string)
    /\ getValueFromLogs unasked tt twoLogReceipt "_avatar" (Some "NewOrg"%string) 0
       = getValueFromLogs unasked tt twoLogReceipt "_avatar" None (Z.of_nat k).
Proof.
  apply (getValueFromLogs_by_event unasked tt twoLogReceipt "_avatar" "NewOrg" 0 twoLogs
           eq_refl).
  - discriminate.
  - eexists. split; [right; left; reflexivity | reflexivity].
Defined.

(** X4: an event name that no log carries selects nothing: the value is
    the one at the index given, as if no name had been given. *)
Theorem getValueFromLogs_event_absent {R} (E : Engine R) (r : R)
  (tx : TransactionReceiptTruffle) (arg : string)
  (eventName : string) (index : Z) (entries : list LogEntry) :
  logs tx = Some entries ->
  (forall entry, In entry entries -> event entry <> eventName) ->
  getValueFromLogs E r tx arg (Some eventName) index
  = getValueFromLogs E r tx arg None index.
Proof.
  intros Hlogs Habsent.
  pose proof (firstWithEvent_spec eventName entries 0) as Hfirst.
  unfold getValueFromLogs. rewrite Hlogs.
  destruct entries as [| e1 es]; [reflexivity |].
  destruct (String.eqb eventName ""); [reflexivity |].
  destruct (firstWithEvent eventName (e1 :: es) 0) as [i |]; [| reflexivity].
  destruct Hfirst as (k & entry & _ & Hk & He & _).
  destruct (Habsent entry (nth_error_In _ _ Hk) He).
Qed.

Lemma getValueFromLogs_event_absent_witness :
  getValueFromLogs unasked tt newOrgReceipt "_avatar" (Some "NoSuchEvent"%string) 0
  = getValueFromLogs unasked tt newOrgReceipt "_avatar" None 0.
Proof.
  apply (getValueFromLogs_event_absent unasked tt newOrgReceipt "_avatar" "NoSuchEvent" 0
           _ eq_refl).
  intros entry [<- | []]. discriminate.
Defined.

End UtilsLogsFacts.

(** ** Permissions beyond 32 bits *)

Module UtilsPermissionsFacts.
Import Utils UtilsFacts.

Lemma digitValue_range (c : ascii) (d : Z) :
  digitValue c = Some d -> 0 <= d < 16.
Proof.
  unfold digitValue. set (n := Z.of_nat (nat_of_ascii c)).
  destruct ((48 <=? n) && (n <=? 57)) eqn:E1.
  - intros [= <-]. apply andb_true_iff in E1 as [?%Z.leb_le ?%Z.leb_le]. lia.
  - destruct ((97 <=? n) && (n <=? 102)) eqn:E2.
    + intros [= <-]. apply andb_true_iff in E2 as [?%Z.leb_le ?%Z.leb_le]. lia.
    + destruct ((65 <=? n) && (n <=? 70)) eqn:E3; [| discriminate].
      intros [= <-]. apply andb_true_iff in E3 as [?%Z.leb_le ?%Z.leb_le]. lia.
Qed.

Lemma readDigits_nonneg (l : list ascii) :
  forallb isHexDigit l = true -> 0 <= readDigits 16 l.
Proof.
  induction l as [| c l IH] using rev_ind; [intros _; reflexivity |].
  rewrite forallb_app, andb_true_iff. cbn. intros [Hl Hc].
  rewrite readDigits_snoc. specialize (IH Hl).
  unfold isHexDigit in Hc. destruct (digitValue c) as [d |] eqn:Hd; [| discriminate].
  apply digitValue_range in Hd. cbn. lia.
Qed.

(** The last [k] digits of a hexadecimal numeral are its value modulo
    [16 ^ k]. *)
Lemma readDigits_substrFromEnd (k : nat) :
  forall l, forallb isHexDigit l = true -> (k <= length l)%nat ->
    readDigits 16 (substrFromEnd k l) = readDigits 16 l mod 16 ^ Z.of_nat k
    /\ forallb isHexDigit (substrFromEnd k l) = true
    /\ length (substrFromEnd k l) = k.
Proof.
  induction k as [| k IH]; intros l Hall Hlen.
  - unfold substrFromEnd. rewrite Nat.sub_0_r, skipn_all.
    repeat split. now rewrite Z.mod_1_r.
  - destruct l as [| c l] using rev_ind; [cbn in Hlen; lia |]. clear IHl.
    rewrite length_app in Hlen. cbn in Hlen.
    rewrite forallb_app, andb_true_iff in Hall. destruct Hall as [Hl Hc].
    assert (Hsub : substrFromEnd (S k) (l ++ [c]) = substrFromEnd k l ++ [c]).
    { unfold substrFromEnd. rewrite length_app. cbn [length].
      replace (length l + 1 - S k)%nat with (length l - k)%nat by lia.
      rewrite skipn_app.
      replace (length l - k - length l)%nat with 0%nat by lia. reflexivity. }
    destruct (IH l Hl ltac:(lia)) as (Hread & Hhex & Hk).
    rewrite Hsub. repeat split.
    + rewrite !readDigits_snoc, Hread.
      cbn in Hc. unfold isHexDigit in Hc.
      destruct (digitValue c) as [d |] eqn:Hd; [| discriminate].
      apply digitValue_range in Hd. cbn [default]. unfold id.
      pose proof (readDigits_nonneg l Hl) as Hnn.
      rewrite Nat2Z.inj_succ, Z.pow_succ_r by lia.
      rewrite (Z.rem_mul_r _ 16 (16 ^ Z.of_nat k)) by lia.
      replace ((readDigits 16 l * 16 + d) mod 16) with d
        by (rewrite Z.add_comm, Z.mod_add by lia; symmetry; apply Z.mod_small; lia).
      replace ((readDigits 16 l * 16 + d) / 16) with (readDigits 16 l)
        by (rewrite Z.add_comm, Z.div_add by lia; rewrite Z.div_small by lia; lia).
      lia.
    + rewrite forallb_app, Hhex. exact Hc.
    + rewrite length_app, Hk. cbn. lia.
Qed.

(** X5: for every integer [p >= 0], of any size, [numberToPermissionsString]
    gives ["0x"] and exactly 8 hexadecimal digits, and
    [permissionsStringToNumber] reads them back as [p] modulo [2^32]: what
    is beyond 32 bits is cut off without notice.  ([none] is
    [SchemePermissions.None], which stands in for [p = 0].) *)
Theorem permissions_truncated (none p : Z) :
  0 <= p -> (p = 0 -> none = 0) ->
  exists digits : list ascii,
    numberToPermissionsString none p
    = String "0" (String "x" (string_of_list_ascii digits))
    /\ length digits = 8%nat
    /\ forallb isHexDigit digits = true
    /\ permissionsStringToNumber (numberToPermissionsString none p)
       = Some (p mod 2 ^ 32).
Proof.
  intros Hp Hnone.
  assert (Hq : (if p =? 0 then none else p) = p).
  { destruct (p =? 0) eqn:E; [apply Z.eqb_eq in E; lia | reflexivity]. }
  unfold numberToPermissionsString. rewrite Hq. clear Hq Hnone.
  pose proof (toString16_fuel p Hp) as Hfuel.
  destruct (hexDigits_sound _ _ Hfuel) as [Hread Hall].
  fold (toString16 p) in Hread, Hall.
  change (list_ascii_of_string "00000000") with (repeat "0"%char 8).
  destruct (zeros_then_digits 8 (toString16 p) Hall) as [Hall' Hread'].
  destruct (readDigits_substrFromEnd 8 (repeat "0"%char 8 ++ toString16 p) Hall')
    as (Hval & Hhex & Hlen).
  { rewrite length_app, repeat_length. lia. }
  set (digits := substrFromEnd 8 (repeat "0"%char 8 ++ toString16 p)) in *.
  exists digits. repeat split; try assumption.
  cbn [string_of_list_ascii permissionsStringToNumber]. unfold Number.
  cbn [list_ascii_of_string]. rewrite list_ascii_of_string_of_list_ascii.
  destruct digits as [| d ds]; [discriminate Hlen |].
  change (Ascii.eqb "0" "0" && (Ascii.eqb "x" "x" || Ascii.eqb "x" "X"))%char
    with true.
  cbv iota. rewrite Hhex, Hval, Hread', Hread. reflexivity.
Qed.

(** [2^32 + 9] comes back as 9. *)
Lemma permissions_truncated_witness :
  exists digits : list ascii,
    numberToPermissionsString 0 4294967305
    = String "0" (String "x" (string_of_list_ascii digits))
    /\ length digits = 8%nat
    /\ forallb isHexDigit digits = true
    /\ permissionsStringToNumber (numberToPermissionsString 0 4294967305)
       = Some (4294967305 mod 2 ^ 32).
Proof. apply (permissions_truncated 0 4294967305); lia. Defined.

End UtilsPermissionsFacts.

(** ** Settings: where [set] throws, and what it leaves alone *)

Module ConfigServiceMoreFacts.
Import ConfigService ConfigServiceFacts ConfigPaths.

Lemma walk_reaches {R} (E : Engine R) (r : R) (pre post : list string) :
  forall section v,
    reaches section pre v ->
    walk E r (Value section) (pre ++ post) = walk E r (Value v) post.
Proof.
  induction pre as [| part pre IH]; intros section v Hreach.
  - cbn in Hreach. now subst.
  - destruct Hreach as (proto & props & inner & -> & Hinner & Hreach).
    cbn [app]. rewrite (walk_own E r _ _ _ _ inner Hinner). now apply IH.
Qed.

Lemma assign_nothing {R} (E : Engine R) (r : R) (v : JsValue) (post : list string)
  (value : JsValue) :
  v = JsUndefined \/ v = JsNull -> post <> [] ->
  exists msg, assign E r v post value = Throw msg.
Proof.
  intros [-> | ->] Hpost; destruct post as [| a [| b post]]; try congruence;
    eexists; reflexivity.
Qed.

Lemma assign_reaches_throw {R} (E : Engine R) (r : R) (pre post : list string)
  (value : JsValue) :
  post <> [] ->
  forall section v,
    reaches section pre v -> v = JsUndefined \/ v = JsNull ->
    exists msg, assign E r section (pre ++ post) value = Throw msg.
Proof.
  intros Hpost. induction pre as [| part pre IH]; intros section v Hreach Hv.
  - cbn in Hreach. subst section. now apply assign_nothing.
  - destruct Hreach as (proto & props & inner & -> & Hinner & Hreach).
    destruct (IH _ _ Hreach Hv) as [msg Hmsg].
    cbn [app]. destruct (pre ++ post) as [| part' rest] eqn:Hrest.
    + destruct pre; [now destruct post | discriminate].
    + rewrite (assign_own E r _ _ _ _ _ inner value Hinner), Hmsg.
      now exists msg.
Qed.

(** X6: [set] makes no section.  When the path goes on after a setting
    that is [undefined] or [null], [set] throws, as [get] does, whatever
    the engine; nothing is assigned. *)
Theorem set_through_nothing_throws {R} (E : Engine R) (r : R) (data : JsValue)
  (setting : string) (pre post : list string) (v value : JsValue) :
  split setting = pre ++ post -> post <> [] ->
  reaches data pre v -> v = JsUndefined \/ v = JsNull ->
  (exists msg, set E r data setting value = Throw msg)
  /\ (exists msg, get E r data setting = Throw msg).
Proof.
  intros Hsplit Hpost Hreach Hv. split.
  - unfold set. rewrite Hsplit. now apply (assign_reaches_throw E r pre post value Hpost data v).
  - unfold get. pose proof (split_nonempty setting) as Hne.
    destruct (split setting) as [| a ps] eqn:Es; [congruence |].
    rewrite Hsplit, (walk_reaches E r pre post data v Hreach).
    destruct post as [| b post]; [congruence |].
    destruct Hv as [-> | ->]; eexists; reflexivity.
Qed.

Lemma set_through_nothing_throws_witness :
  (exists msg, set unasked tt withNull "networkDefaults.live" (JsNum 1) = Throw msg)
  /\ (exists msg, get unasked tt withNull "networkDefaults.live" = Throw msg).
Proof.
  apply (set_through_nothing_throws unasked tt withNull "networkDefaults.live"
           ["networkDefaults"%string] ["live"%string] JsNull (JsNum 1)).
  - reflexivity.
  - discriminate.
  - vm_compute. do 3 eexists. repeat split; reflexivity.
  - now right.
Defined.

(** What an assignment along properties of their own leaves: the object
    it started from with one property replaced, the first of the path. *)
Lemma assign_top {R} (E : Engine R) (r : R) (value : JsValue) (parts : list string) :
  parts <> [] -> last parts <> Some "__proto__"%string ->
  forall section, intermediatesAreObjects section parts ->
    exists proto props inner,
      section = JsObj proto props
      /\ assign E r section parts value
         = Ok (JsObj proto (<[hd EmptyString parts := inner]> props), r).
Proof.
  intros Hne Hlast section Hobj.
  destruct (assign_then_walk E r value parts Hne Hlast section Hobj)
    as (section' & Hassign & _).
  destruct parts as [| part [| part' parts]]; [congruence | |].
  - destruct Hobj as (proto & props & ->). exists proto, props, value.
    split; [reflexivity |]. cbn [assign hd].
    rewrite setProp_own; [reflexivity |]. cbn in Hlast. congruence.
  - destruct Hobj as (proto & props & inner & -> & Hinner & Hrest).
    rewrite (assign_own E r _ _ _ _ _ inner value Hinner) in Hassign |- *.
    destruct (assign E r inner (part' :: parts) value) as [[inner' r'] |];
      [| discriminate].
    cbn in Hassign. injection Hassign as <- <-.
    exists proto, props, inner'. split; reflexivity.
Qed.

Lemma assign_twice {R} (E : Engine R) (r : R) (v1 v2 : JsValue) (parts : list string) :
  parts <> [] -> last parts <> Some "__proto__"%string ->
  forall section, intermediatesAreObjects section parts ->
    exists s1,
      assign E r section parts v1 = Ok (s1, r)
      /\ assign E r s1 parts v2 = assign E r section parts v2.
Proof.
  induction parts as [| part parts IH]; [congruence |].
  intros _ Hlast section Hobj.
  destruct parts as [| part' parts].
  - destruct Hobj as (proto & props & ->).
    assert (Hpart : part <> "__proto__"%string) by (cbn in Hlast; congruence).
    eexists. split; [reflexivity |].
    rewrite (setProp_own proto props part v1 Hpart). cbn [assign].
    rewrite !setProp_own by exact Hpart. now rewrite insert_insert_eq.
  - destruct Hobj as (proto & props & inner & -> & Hinner & Hrest).
    destruct (IH ltac:(discriminate) Hlast inner Hrest) as (i1 & Hi1 & Htwice).
    exists (JsObj proto (<[part := i1]> props)). split.
    + rewrite (assign_own E r _ _ _ _ _ inner v1 Hinner), Hi1. reflexivity.
    + rewrite (assign_own E r _ _ _ _ _ i1 v2) by apply lookup_insert_eq.
      rewrite (assign_own E r _ _ _ _ _ inner v2 Hinner), Htwice.
      destruct (assign E r inner (part' :: parts) v2) as [[i2 r2] |]; [| reflexivity].
      cbn. now rewrite insert_insert_eq.
Qed.

(** X7: a second [set] on a path overwrites the first.  On a path of
    properties of their own that hold objects, not ending in
    [__proto__], the settings after [set(path, v1); set(path, v2)] are
    those after [set(path, v2)] alone. *)
Theorem set_overwrites {R} (E : Engine R) (r : R) (data : JsValue)
  (setting : string) (v1 v2 : JsValue) :
  intermediatesAreObjects data (split setting) ->
  last (split setting) <> Some "__proto__"%string ->
  exists data1,
    set E r data setting v1 = Ok (data1, r)
    /\ set E r data1 setting v2 = set E r data setting v2.
Proof.
  intros Hobj Hlast. unfold set.
  now apply assign_twice; [apply split_nonempty | |].
Qed.

Lemma set_overwrites_witness :
  exists data1,
    set unasked tt sampleData "providerPort" (JsNum 1) = Ok (data1, tt)
    /\ set unasked tt data1 "providerPort" (JsNum 8546)
       = set unasked tt sampleData "providerPort" (JsNum 8546).
Proof.
  apply (set_overwrites unasked tt sampleData "providerPort" (JsNum 1) (JsNum 8546)).
  - vm_compute. do 2 eexists. reflexivity.
  - vm_compute. discriminate.
Defined.

Lemma walk_other {R} (E : Engine R) (r : R) (proto : Prototype)
  (props : gmap string JsValue) (a b : string) (inner : JsValue) (qs : list string) :
  a <> b ->
  walk E r (Value (JsObj proto (<[a := inner]> props))) (b :: qs)
  = walk E r (Value (JsObj proto props)) (b :: qs).
Proof.
  intros Hne. cbn [walk]. unfold getProp, resolve. now rewrite lookup_insert_ne.
Qed.

(** X8: a [set] on a path of properties of their own that hold objects,
    not ending in [__proto__], changes nothing under any other first
    segment: [get] of a path that starts with another segment returns
    what it returned before, or throws as it threw before. *)
Theorem set_leaves_other_sections {R} (E : Engine R) (r : R) (data : JsValue)
  (setting other : string) (value : JsValue) :
  intermediatesAreObjects data (split setting) ->
  last (split setting) <> Some "__proto__"%string ->
  hd EmptyString (split setting) <> hd EmptyString (split other) ->
  exists data',
    set E r data setting value = Ok (data', r)
    /\ get E r data' other = get E r data other.
Proof.
  intros Hobj Hlast Hne.
  destruct (assign_top E r value (split setting) (split_nonempty setting) Hlast data Hobj)
    as (proto & props & inner & -> & Hassign).
  eexists. split; [exact Hassign |].
  unfold get. pose proof (split_nonempty other) as Hq.
  destruct (split other) as [| b qs]; [congruence |].
  cbn [hd] in Hne. now apply walk_other.
Qed.

Lemma set_leaves_other_sections_witness :
  exists data',
    set unasked tt sampleData "txDepthRequiredForConfirmation.ganache" (JsNum 3)
    = Ok (data', tt)
    /\ get unasked tt data' "providerPort" = get unasked tt sampleData "providerPort".
Proof.
  apply (set_leaves_other_sections unasked tt sampleData
           "txDepthRequiredForConfirmation.ganache" "providerPort" (JsNum 3)).
  - vm_compute. do 3 eexists. split; [reflexivity |].
    split; [reflexivity |]. do 2 eexists. reflexivity.
  - vm_compute. discriminate.
  - vm_compute. discriminate.
Defined.

(** The prototype of the settings is another matter: given an object for
    [__proto__], the settings inherit its properties, and a name they do
    not have reads as what that object has. *)
Example proto_accessor_changes_other_reads :
  exists data',
    set unasked tt sampleData "__proto__"
      (JsObj ObjectPrototype {[ "network" := JsStr "kovan" ]})
    = Ok (data', tt)
    /\ get unasked tt data' "network" = Ok (Value (JsStr "kovan"))
    /\ get unasked tt data' "__proto__"
       = Ok (Value (JsObj ObjectPrototype {[ "network" := JsStr "kovan" ]})).
Proof. eexists. repeat split; vm_compute; reflexivity. Qed.

End ConfigServiceMoreFacts.

(** ** The constructors of the settings *)

Module ConfigConstructionFacts.
Import ConfigService ConfigServiceFacts ConfigConstruction.

Lemma stripPrefix_append (p k : string) : stripPrefix p (String.append p k) = Some k.
Proof.
  induction p as [| c p IH]; [reflexivity |].
  simpl. now rewrite Ascii.eqb_refl.
Qed.

Lemma stripPrefix_Some (p : string) :
  forall s k, stripPrefix p s = Some k -> s = String.append p k.
Proof.
  induction p as [| c p IH]; intros s k; simpl.
  - now intros [= ->].
  - destruct s as [| c' s]; [discriminate |].
    destruct (Ascii.eqb c c') eqn:E; [| discriminate].
    apply Ascii.eqb_eq in E. subst c'. intros H. now rewrite (IH _ _ H).
Qed.

(** The defaults having no setting called [hasOwnProperty], one variable
    changes the setting it names, if there is such a setting, and nothing
    else. *)
Lemma override_lookup (defaults : gmap string JsValue) (variable : string * string) :
  defaults !! "hasOwnProperty"%string = None ->
  exists defaults',
    override defaults variable = Ok defaults'
    /\ forall k,
         defaults' !! k
         = if decide (fst variable = String.append prefix k)
           then match defaults !! k with
                | Some _ => Some (JsStr (snd variable))
                | None => None
                end
           else defaults !! k.
Proof.
  intros Hown. unfold override. rewrite Hown.
  destruct (stripPrefix prefix (fst variable)) as [internalKey |] eqn:Hstrip.
  - apply stripPrefix_Some in Hstrip.
    assert (Hkey : forall k, fst variable = String.append prefix k -> internalKey = k).
    { intros k Heq. rewrite Heq in Hstrip.
      pose proof (stripPrefix_append prefix k) as H1.
      pose proof (stripPrefix_append prefix internalKey) as H2.
      rewrite <- Hstrip in H2. congruence. }
    destruct (defaults !! internalKey) eqn:Hk; eexists; (split; [reflexivity |]);
      intros k; destruct (decide (fst variable = String.append prefix k)) as [Heq | Hne].
    + rewrite <- (Hkey k Heq), Hk. apply lookup_insert_eq.
    + apply lookup_insert_ne. intros ->. contradiction.
    + now rewrite <- (Hkey k Heq), Hk.
    + reflexivity.
  - eexists. split; [reflexivity |]. intros k.
    destruct (decide (fst variable = String.append prefix k)) as [Heq | Hne];
      [| reflexivity].
    rewrite Heq, stripPrefix_append in Hstrip. discriminate.
Qed.

Lemma overrideAll_cons (variable : string * string) (env : list (string * string))
  (defaults defaults' : gmap string JsValue) :
  override defaults variable = Ok defaults' ->
  overrideAll (variable :: env) defaults = overrideAll env defaults'.
Proof. intros H. unfold overrideAll. cbn [fold_left]. cbn. now rewrite H. Qed.

(** All the variables: the settings are those of the defaults; one that
    no variable names keeps its default; one that a variable names takes
    its value. *)
Lemma overrideAll_lookup (env : list (string * string)) :
  forall defaults,
    defaults !! "hasOwnProperty"%string = None ->
    exists props,
      overrideAll env defaults = Ok props
      /\ (forall k, is_Some (props !! k) <-> is_Some (defaults !! k))
      /\ (forall k,
            (forall variable, In variable env ->
               fst variable <> String.append prefix k) ->
            props !! k = defaults !! k)
      /\ (List.NoDup (map fst env) ->
          forall k s, In (String.append prefix k, s) env -> is_Some (defaults !! k) ->
            props !! k = Some (JsStr s)).
Proof.
  induction env as [| variable env IH]; intros defaults Hown.
  - exists defaults. split; [reflexivity |]. split; [reflexivity |].
    split; [reflexivity |]. intros _ k s [].
  - destruct (override_lookup defaults variable Hown) as (defaults' & Hone & Hlookup).
    assert (Hown' : defaults' !! "hasOwnProperty"%string = None).
    { rewrite Hlookup. destruct (decide _); [now rewrite Hown | exact Hown]. }
    destruct (IH defaults' Hown') as (props & Hall & Hdom & Hother & Hhit).
    exists props. split; [now rewrite (overrideAll_cons _ _ _ _ Hone) |].
    assert (Hdom' : forall k, is_Some (defaults' !! k) <-> is_Some (defaults !! k)).
    { intros k. rewrite Hlookup. destruct (decide _); [| reflexivity].
      destruct (defaults !! k); [| reflexivity]. split; eauto. }
    split; [intros k; now rewrite Hdom, Hdom' |].
    split.
    + intros k Hno. rewrite Hother by (intros v Hv; apply Hno; now right).
      rewrite Hlookup. destruct (decide _) as [Heq | _]; [| reflexivity].
      destruct (Hno variable (or_introl eq_refl) Heq).
    + intros Hnd k s Hin Hsome.
      cbn [map] in Hnd. inversion Hnd as [| ? ? Hnotin Hnd']; subst.
      destruct Hin as [-> | Hin].
      * rewrite Hother.
        -- rewrite Hlookup. cbn [fst snd].
           destruct (decide _) as [_ | Hne]; [| congruence].
           destruct Hsome as [v ->]. reflexivity.
        -- intros v Hv Heq. apply Hnotin. cbn [fst]. rewrite <- Heq. now apply in_map.
      * apply (Hhit Hnd' k s Hin). now apply Hdom'.
Qed.

(** X9: the defaults having no setting called [hasOwnProperty], the first
    [new ConfigService()] makes the settings of the defaults and of the
    variables of the environment named [arcjs_] and a setting: the
    settings are those the defaults have, no more and no less; a setting
    that no variable names keeps its default; a setting [k] that a
    variable [arcjs_k] names takes the value of the variable, as a string.
    Any later construction changes nothing. *)
Theorem construct_overrides (defaults : gmap string JsValue)
  (env : list (string * string)) :
  defaults !! "hasOwnProperty"%string = None ->
  exists cls props,
    construct defaults (Some env) unconstructed = Ok cls
    /\ data cls = JsObj ObjectPrototype props
    /\ (forall k, is_Some (props !! k) <-> is_Some (defaults !! k))
    /\ (forall k,
          (forall variable, In variable env -> fst variable <> String.append prefix k) ->
          props !! k = defaults !! k)
    /\ (List.NoDup (map fst env) ->
        forall k s, In (String.append prefix k, s) env -> is_Some (defaults !! k) ->
          props !! k = Some (JsStr s))
    /\ (forall defaults' env', construct defaults' env' cls = Ok cls).
Proof.
  intros Hown.
  destruct (overrideAll_lookup env defaults Hown) as (props & Hall & Hdom & Hother & Hhit).
  exists {| instance := true; data := JsObj ObjectPrototype props |}, props.
  split; [unfold construct; change (default [] (Some env)) with env;
          cbn [instance unconstructed]; now rewrite Hall |].
  split; [reflexivity |]. split; [exact Hdom |]. split; [exact Hother |].
  split; [exact Hhit | reflexivity].
Qed.

(** The port is overridden, by a string; [arcjs_color] adds no setting;
    the variables without the prefix override nothing. *)
Lemma construct_overrides_witness :
  exists cls props,
    construct someDefaults someEnvironment unconstructed = Ok cls
    /\ data cls = JsObj ObjectPrototype props
    /\ props !! "providerPort"%string = Some (JsStr "8546")
    /\ props !! "color"%string = None
    /\ props !! "network"%string = Some (JsStr "ganache").
Proof.
  destruct (construct_overrides someDefaults (default [] someEnvironment) eq_refl)
    as (cls & props & Hcls & Hdata & Hdom & Hother & Hhit & _).
  exists cls, props. split; [exact Hcls |]. split; [exact Hdata |]. split; [| split].
  - apply (Hhit ltac:(repeat constructor; cbn; intuition discriminate)
             "providerPort"%string "8546"%string);
      [left; reflexivity | eexists; reflexivity].
  - apply eq_None_not_Some. rewrite Hdom. cbn. intros [? H]. vm_compute in H.
    discriminate H.
  - rewrite Hother; [reflexivity |].
    intros variable [<- | [<- | [<- | [<- | []]]]]; discriminate.
Defined.

(** With a setting called [hasOwnProperty] in the defaults, the first
    variable named [arcjs_] makes the constructor throw; without such a
    variable the setting does no harm. *)
Example construct_hasOwnProperty :
  construct (<["hasOwnProperty" := JsBool true]> someDefaults) someEnvironment
    unconstructed
  = Throw "TypeError: defaults.hasOwnProperty is not a function"
  /\ exists cls,
       construct (<["hasOwnProperty" := JsBool true]> someDefaults)
         (Some [("network", "kovan")]%string) unconstructed
       = Ok cls.
Proof. split; [| eexists]; vm_compute; reflexivity. Qed.

(** *** The older class [Config] *)

Lemma getProp_lookup {R} (E : Engine R) (r : R) (proto : Prototype)
  (props props' : gmap string JsValue) (k : string) :
  props !! k = props' !! k -> getProp E r proto props k = getProp E r proto props' k.
Proof. intros H. unfold getProp, resolve. now rewrite H. Qed.

(** An assignment changes no property but the one assigned. *)
Lemma setProp_other (proto : Prototype) (props : gmap string JsValue)
  (last k : string) (value : JsValue) :
  last <> k -> ownProperties (setProp proto props last value) !! k = props !! k.
Proof.
  intros Hne. unfold setProp.
  destruct (resolve proto props last); cbn [ownProperties];
    try (now apply lookup_insert_ne); now destruct value.
Qed.

Lemma overrideTruthy_lookup {R} (E : Engine R) (r : R)
  (defaults : gmap string JsValue) (variable : string * string) (k : string) :
  k <> "__proto__"%string ->
  overrideTruthy E r defaults variable !! k
  = if decide (fst variable = k)
    then if UtilsLogs.foundTruthy (getProp E r ObjectPrototype defaults k)
         then Some (JsStr (snd variable)) else defaults !! k
    else defaults !! k.
Proof.
  intros Hk. unfold overrideTruthy. destruct (decide (fst variable = k)) as [<- | Hne].
  - destruct (UtilsLogs.foundTruthy _); [| reflexivity].
    rewrite setProp_own by exact Hk. apply lookup_insert_eq.
  - destruct (UtilsLogs.foundTruthy _); [now apply setProp_other | reflexivity].
Qed.

Lemma overrideTruthy_other {R} (E : Engine R) (r : R)
  (defaults : gmap string JsValue) (variable : string * string) (k : string) :
  fst variable <> k -> overrideTruthy E r defaults variable !! k = defaults !! k.
Proof.
  intros Hne. unfold overrideTruthy.
  destruct (UtilsLogs.foundTruthy _); [now apply setProp_other | reflexivity].
Qed.

Lemma overridesTruthy_falsy {R} (E : Engine R) (r : R) (env : list (string * string)) :
  forall defaults k,
    UtilsLogs.foundTruthy (getProp E r ObjectPrototype defaults k) = false ->
    fold_left (overrideTruthy E r) env defaults !! k = defaults !! k.
Proof.
  induction env as [| variable env IH]; intros defaults k Hfalsy; [reflexivity |].
  cbn [fold_left].
  assert (Hsame : overrideTruthy E r defaults variable !! k = defaults !! k).
  { destruct (decide (fst variable = k)) as [<- | Hne];
      [| now apply overrideTruthy_other].
    unfold overrideTruthy. now rewrite Hfalsy. }
  rewrite IH; [exact Hsame |].
  now rewrite (getProp_lookup E r _ _ defaults k Hsame).
Qed.

Lemma overridesTruthy_other {R} (E : Engine R) (r : R) (env : list (string * string)) :
  forall defaults k,
    (forall variable, In variable env -> fst variable <> k) ->
    fold_left (overrideTruthy E r) env defaults !! k = defaults !! k.
Proof.
  induction env as [| variable env IH]; intros defaults k Hno; [reflexivity |].
  cbn [fold_left]. rewrite IH by (intros v Hv; apply Hno; now right).
  apply overrideTruthy_other. apply Hno. now left.
Qed.

Lemma overridesTruthy_hit {R} (E : Engine R) (r : R) (env : list (string * string)) :
  forall defaults k s,
    k <> "__proto__"%string ->
    List.NoDup (map fst env) -> In (k, s) env ->
    UtilsLogs.foundTruthy (getProp E r ObjectPrototype defaults k) = true ->
    fold_left (overrideTruthy E r) env defaults !! k = Some (JsStr s).
Proof.
  induction env as [| variable env IH]; intros defaults k s Hk Hnd Hin Htruthy;
    [destruct Hin |].
  cbn [map] in Hnd. inversion Hnd as [| ? ? Hnotin Hnd']; subst.
  cbn [fold_left]. destruct Hin as [-> | Hin].
  - rewrite overridesTruthy_other.
    + rewrite overrideTruthy_lookup by exact Hk. cbn [fst snd].
      destruct (decide _) as [_ | Hne]; [| congruence]. now rewrite Htruthy.
    + intros v Hv Heq. apply Hnotin. cbn [fst]. rewrite <- Heq. now apply in_map.
  - apply (IH _ k s Hk Hnd' Hin).
    assert (Hne : fst variable <> k).
    { intros Heq. apply Hnotin. rewrite Heq. change k with (fst (k, s)).
      now apply in_map. }
    now rewrite (getProp_lookup E r _ _ defaults k
                   (overrideTruthy_other E r defaults variable k Hne)).
Qed.

(** X10: [new Config()], the older class, lets a variable of the
    environment override what its name reads as in the defaults only when
    that is truthy.  A name that reads as [false], 0, the empty string,
    [null] or [undefined], and a name that no variable carries, keep what
    the defaults have, whatever the environment; a name other than
    [__proto__] that reads as a truthy value, be it a setting or a
    function of [Object.prototype], and that a variable carries, becomes
    a setting with the value of the variable, as a string. *)
Theorem constructConfig_overrides {R} (E : Engine R) (r : R)
  (defaults : gmap string JsValue) (env : list (string * string)) :
  exists props,
    data (constructConfig E r defaults (Some env) unconstructed)
    = JsObj ObjectPrototype props
    /\ (forall k,
          UtilsLogs.foundTruthy (getProp E r ObjectPrototype defaults k) = false ->
          props !! k = defaults !! k)
    /\ (forall k,
          (forall variable, In variable env -> fst variable <> k) ->
          props !! k = defaults !! k)
    /\ (List.NoDup (map fst env) ->
        forall k s, k <> "__proto__"%string -> In (k, s) env ->
          UtilsLogs.foundTruthy (getProp E r ObjectPrototype defaults k) = true ->
          props !! k = Some (JsStr s)).
Proof.
  eexists. split; [reflexivity |]. cbn [default].
  split; [intros k; apply overridesTruthy_falsy |].
  split; [intros k; apply overridesTruthy_other |].
  intros Hnd k s Hk. now apply overridesTruthy_hit.
Qed.

(** The network, a truthy default, is overridden; [estimateGas], whose
    default is [false], is not. *)
Lemma constructConfig_overrides_witness :
  exists props,
    data (constructConfig unasked tt someDefaults someEnvironment unconstructed)
    = JsObj ObjectPrototype props
    /\ props !! "estimateGas"%string = Some (JsBool false)
    /\ props !! "network"%string = Some (JsStr "kovan").
Proof.
  destruct (constructConfig_overrides unasked tt someDefaults (default [] someEnvironment))
    as (props & Hdata & Hfalsy & _ & Hhit).
  exists props. split; [exact Hdata |]. split.
  - rewrite Hfalsy; reflexivity.
  - apply (Hhit ltac:(repeat constructor; cbn; intuition discriminate)
             "network"%string "kovan"%string);
      [discriminate | do 3 right; left; reflexivity | reflexivity].
Defined.

(** A variable called [toString] makes a setting of that name, the
    function the defaults inherit being truthy; one called [__proto__]
    changes nothing, the setter of the accessor doing nothing for a
    string. *)
Example constructConfig_inherited_names :
  data (constructConfig unasked tt someDefaults oddEnvironment unconstructed)
  = JsObj ObjectPrototype (<["toString" := JsStr "x"]> someDefaults).
Proof. vm_compute. reflexivity. Qed.

End ConfigConstructionFacts.

(** ** The wrapper cache: [new], [deployed], and what a lookup leaves alone *)

Module ContractWrapperCacheFacts.
Import ContractWrapperFactory ContractWrapperFactoryFacts ContractWrapperCache.

Lemma ensure_loaded (requireContract : string -> Result SolidityContract)
  (f : Factory) (c : SolidityContract) (st : State) :
  solidityContract f = Some c ->
  ensureSolidityContract requireContract f st = (Ok c, f, st).
Proof. intros Hc. unfold ensureSolidityContract. now rewrite Hc. Qed.

(** What a successful [ensureSolidityContract] leaves: a factory of the
    same name that holds its contract, and a state that differs by the
    trace only. *)
Lemma ensure_Ok (requireContract : string -> Result SolidityContract)
  (f f' : Factory) (c : SolidityContract) (st st' : State) :
  ensureSolidityContract requireContract f st = (Ok c, f', st') ->
  solidityContract f' = Some c
  /\ solidityContractName f' = solidityContractName f
  /\ contractCache st' = contractCache st
  /\ cacheContractWrappers st' = cacheContractWrappers st.
Proof.
  unfold ensureSolidityContract.
  destruct (solidityContract f) as [c0 |] eqn:Hc.
  - intros [= <- <- <-]. auto.
  - destruct (requireContract (solidityContractName f)) as [c1 | msg];
      intros [= <- <- <-]; auto.
Qed.

(** X11: with the setting on, the wrapper that [new] deploys is in the
    cache when [new] returns: [at] of its address, on the factory [new]
    leaves, returns that same wrapper object without any hydration, and
    changes nothing. *)
Theorem new_then_at (requireContract : string -> Result SolidityContract)
  (f f' : Factory) (hydrateFromNew : Hydrator) (st st' : State) (w : Wrapper) :
  cacheContractWrappers st = true ->
  new requireContract f hydrateFromNew st = (Ok (Some w), f', st') ->
  address w <> EmptyString ->
  forall hydrate, at_ requireContract f' hydrate (address w) st' = (Ok (Some w), f', st').
Proof.
  intros Hon Hnew Hw hydrate. unfold new in Hnew.
  destruct (ensureSolidityContract requireContract f st) as [[rc f1] st1] eqn:Hens.
  destruct rc as [c | msg]; [| discriminate].
  destruct (ensure_Ok _ _ _ _ _ _ Hens) as (Hc & Hname & Hcache & Hon1).
  rewrite invoke_spec in Hnew.
  destruct (hydrateFromNew (hydrations st1)) as [[w0 |] | msg]; try discriminate.
  cbn [cacheContractWrappers emit] in Hnew. rewrite Hon1, Hon in Hnew.
  injection Hnew as <- <- <-.
  rewrite (at_loaded requireContract f1 c hydrate (address w0) _ Hc).
  rewrite (getHydratedWrapper_hit f1 (hydrate (address w0)) (address w0) w0);
    [reflexivity | cbn; congruence | exact Hw |].
  now apply getCachedContract_stored.
Qed.

Lemma new_then_at_witness :
  at_ (fun _ => Throw "not asked") upgradeSchemeFactory hydrateFromAt "0xaa"
    (setCachedContract "UpgradeScheme" (Some (wrapperAt "0xaa" 0))
       (emit (Hydrate "UpgradeScheme") (initial true)))
  = (Ok (Some (wrapperAt "0xaa" 0)), upgradeSchemeFactory,
     setCachedContract "UpgradeScheme" (Some (wrapperAt "0xaa" 0))
       (emit (Hydrate "UpgradeScheme") (initial true))).
Proof.
  apply (new_then_at (fun _ => Throw "not asked") upgradeSchemeFactory
           upgradeSchemeFactory (hydrateFromAt "0xaa") (initial true) _
           (wrapperAt "0xaa" 0) eq_refl eq_refl).
  discriminate.
Defined.

(** Without an address given, the lookup is the one of the address of the
    contract. *)
Lemma getHydratedWrapper_deployed (f : Factory) (c : SolidityContract)
  (hydrate : Hydrator) (st : State) (a : Address) :
  solidityContract f = Some c -> contractAddress c = Some a ->
  getHydratedWrapper f hydrate None st = getHydratedWrapper f hydrate (Some a) st.
Proof.
  intros Hc Ha. unfold getHydratedWrapper, enter.
  destruct (cacheContractWrappers st); [| reflexivity].
  cbn [truthy]. rewrite Hc. cbn [mbind option_bind]. rewrite Ha.
  now destruct (negb (String.eqb a "")).
Qed.

(** X12: with the setting on and a contract whose deployed address can be
    read, a [deployed()] that hydrates a wrapper of that address makes
    every later [deployed()] on the factory it leaves return that same
    wrapper object, without any hydration. *)
Theorem deployed_then_deployed (requireContract : string -> Result SolidityContract)
  (f f' : Factory) (hydrate : Hydrator) (st st' : State) (w : Wrapper)
  (c : SolidityContract) :
  cacheContractWrappers st = true ->
  deployed requireContract f hydrate st = (Ok (Some w), f', st') ->
  solidityContract f' = Some c ->
  contractAddress c = Some (address w) -> address w <> EmptyString ->
  forall hydrate', deployed requireContract f' hydrate' st' = (Ok (Some w), f', st').
Proof.
  intros Hon Hdep Hc Haddr Hw hydrate'. unfold deployed in Hdep |- *.
  destruct (ensureSolidityContract requireContract f st) as [[rc f1] st1] eqn:Hens.
  destruct rc as [c1 | msg]; [| discriminate].
  destruct (ensure_Ok _ _ _ _ _ _ Hens) as (Hc1 & Hname & Hcache & Hon1).
  destruct (getHydratedWrapper f1 hydrate None st1) as [r st2] eqn:Hget.
  injection Hdep as -> <- <-.
  rewrite (ensure_loaded requireContract f1 c _ Hc).
  rewrite (getHydratedWrapper_deployed f1 c hydrate st1 _ Hc Haddr) in Hget.
  rewrite (getHydratedWrapper_deployed f1 c hydrate' st2 _ Hc Haddr).
  rewrite Hon in Hon1.
  assert (Hstate : cacheContractWrappers st2 = true
                   /\ getCachedContract st2 (solidityContractName f1) (address w) = Some w).
  { destruct (getCachedContract st1 (solidityContractName f1) (address w))
      as [w0 |] eqn:Hlook.
    - rewrite (getHydratedWrapper_hit f1 hydrate (address w) w0 st1 Hon1 Hw Hlook) in Hget.
      injection Hget as <- <-. now split.
    - destruct (getHydratedWrapper_not_hit f1 hydrate (address w) st1 Hw Hlook)
        as (sx & Hrun & _ & Hon2 & Hst).
      rewrite Hrun in Hget. injection Hget as Hr <-.
      rewrite Hon1 in Hst, Hon2. rewrite Hr in Hst. subst sx.
      split; [exact Hon2 | now apply getCachedContract_stored]. }
  destruct Hstate as [Hon2 Hhit].
  now rewrite (getHydratedWrapper_hit f1 hydrate' (address w) w st2 Hon2 Hw Hhit).
Qed.

Lemma deployed_then_deployed_witness :
  deployed (fun _ => Throw "not asked") upgradeSchemeFactory (hydrateFromDeployed "0xd0")
    (setCachedContract "UpgradeScheme" (Some (wrapperAt "0xd0" 0))
       (emit (Hydrate "UpgradeScheme") (initial true)))
  = (Ok (Some (wrapperAt "0xd0" 0)), upgradeSchemeFactory,
     setCachedContract "UpgradeScheme" (Some (wrapperAt "0xd0" 0))
       (emit (Hydrate "UpgradeScheme") (initial true))).
Proof.
  apply (deployed_then_deployed (fun _ => Throw "not asked") upgradeSchemeFactory
           upgradeSchemeFactory (hydrateFromDeployed "0xd0") (initial true) _
           (wrapperAt "0xd0" 0) {| contractAddress := Some "0xd0"%string |}
           eq_refl eq_refl eq_refl eq_refl).
  discriminate.
Defined.

(** X13: on a contract that is loaded but whose address cannot be read,
    or is empty, [deployed()] never reads the cache: every call invokes
    the callback, whatever the cache holds and whatever the setting. *)
Theorem deployed_without_address (requireContract : string -> Result SolidityContract)
  (f : Factory) (c : SolidityContract) (hydrate : Hydrator) (st : State) :
  solidityContract f = Some c -> truthy (contractAddress c) = false ->
  exists st',
    deployed requireContract f hydrate st = (hydrate (hydrations st), f, st')
    /\ hydrations st' = S (hydrations st).
Proof.
  intros Hc Hnone. unfold deployed. rewrite (ensure_loaded _ _ _ _ Hc).
  unfold getHydratedWrapper, enter.
  destruct (cacheContractWrappers st).
  - cbn [truthy]. rewrite Hc. cbn [mbind option_bind]. rewrite Hnone.
    cbv iota. rewrite invoke_spec.
    destruct (hydrate (hydrations st)) as [w | msg]; cbn [leave];
      eexists; (split; [reflexivity |]);
      rewrite ?hydrations_setCachedContract, hydrations_emit; cbn; lia.
  - rewrite invoke_spec. cbn [leave]. eexists. split; [reflexivity |].
    rewrite hydrations_emit. cbn. lia.
Qed.

Lemma deployed_without_address_witness :
  exists st',
    deployed (fun _ => Throw "not asked") undeployedFactory (hydrateFromDeployed "0xd0")
      (setCachedContract "UpgradeScheme" (Some (wrapperAt "0xd0" 0)) (initial true))
    = (Ok (Some (wrapperAt "0xd0" 0)), undeployedFactory, st')
    /\ hydrations st' = 1%nat.
Proof.
  apply (deployed_without_address (fun _ => Throw "not asked") undeployedFactory
           {| contractAddress := None |} (hydrateFromDeployed "0xd0")
           (setCachedContract "UpgradeScheme" (Some (wrapperAt "0xd0" 0)) (initial true))
           eq_refl eq_refl).
Defined.

(** What a lookup can do to the cache: nothing, or put the wrapper it
    returns under the contract name of the factory and the wrapper's own
    address. *)
Lemma getHydratedWrapper_cache (f : Factory) (hydrate : Hydrator)
  (given : option Address) (st st' : State) (r : Result (option Wrapper)) :
  getHydratedWrapper f hydrate given st = (r, st') ->
  contractCache st' = contractCache st
  \/ exists w,
       r = Ok (Some w)
       /\ contractCache st'
          = <[solidityContractName f :=
                <[address w := w]>
                  (default ∅ (contractCache st !! solidityContractName f))]>
              (contractCache st).
Proof.
  unfold getHydratedWrapper, enter.
  destruct (cacheContractWrappers st).
  - match goal with
    | |- context [match ?c with Some _ => _ | None => _ end] => destruct c
    end.
    + cbn. intros [= <- <-]. now left.
    + rewrite invoke_spec.
      destruct (hydrate (hydrations st)) as [[w |] | msg]; cbn [leave];
        intros [= <- <-]; [right; exists w; now split | now left | now left].
  - rewrite invoke_spec. cbn. intros [= <- <-]. now left.
Qed.

Lemma ensure_cache (requireContract : string -> Result SolidityContract)
  (f : Factory) (st : State) :
  contractCache (snd (ensureSolidityContract requireContract f st)) = contractCache st
  /\ solidityContractName (snd (fst (ensureSolidityContract requireContract f st)))
     = solidityContractName f.
Proof.
  unfold ensureSolidityContract. destruct (solidityContract f); [now split |].
  destruct (requireContract (solidityContractName f)); now split.
Qed.

(** X14: a lookup touches one entry of the cache at most, the one of the
    factory's contract name and of the address of the wrapper it returns:
    what is cached under another contract name, or under another address,
    is after the lookup what it was before. *)
Theorem lookup_leaves_other_entries (f : Factory) (hydrate : Hydrator)
  (given : option Address) (st st' : State) (r : Result (option Wrapper))
  (contractName : string) (a : Address) :
  getHydratedWrapper f hydrate given st = (r, st') ->
  contractName <> solidityContractName f
  \/ (forall w, r = Ok (Some w) -> address w <> a) ->
  getCachedContract st' contractName a = getCachedContract st contractName a.
Proof.
  intros Hget Hother. unfold getCachedContract.
  destruct (getHydratedWrapper_cache _ _ _ _ _ _ Hget) as [-> | (w & -> & ->)];
    [reflexivity |].
  destruct (String.eqb a ""); [reflexivity |].
  destruct (decide (contractName = solidityContractName f)) as [-> | Hne].
  - destruct Hother as [Hne | Haddr]; [congruence |].
    specialize (Haddr w eq_refl).
    rewrite lookup_insert_eq. cbn.
    rewrite lookup_insert_ne by exact Haddr.
    now destruct (contractCache st !! solidityContractName f).
  - now rewrite lookup_insert_ne by congruence.
Qed.

Lemma lookup_leaves_other_entries_witness :
  getCachedContract
    (snd (getHydratedWrapper upgradeSchemeFactory (hydrateFromAt "0xbb")
            (Some "0xbb"%string)
            (setCachedContract "UpgradeScheme" (Some (wrapperAt "0xaa" 7)) (initial true))))
    "UpgradeScheme" "0xaa"
  = getCachedContract
      (setCachedContract "UpgradeScheme" (Some (wrapperAt "0xaa" 7)) (initial true))
      "UpgradeScheme" "0xaa".
Proof.
  eapply (lookup_leaves_other_entries upgradeSchemeFactory (hydrateFromAt "0xbb")
            (Some "0xbb"%string)).
  - apply surjective_pairing.
  - right. vm_compute. intros w [= <-]. discriminate.
Defined.

Lemma wellKeyed_setCachedContract (contractName : string) (w : Wrapper) (st : State) :
  wellKeyed st -> wellKeyed (setCachedContract contractName (Some w) st).
Proof.
  intros Hwk n m a w' Hn Hm. cbn [setCachedContract contractCache] in Hn.
  destruct (decide (contractName = n)) as [<- | Hne].
  - rewrite lookup_insert_eq in Hn. injection Hn as <-.
    destruct (decide (address w = a)) as [<- | Hna].
    + rewrite lookup_insert_eq in Hm. now injection Hm as <-.
    + rewrite lookup_insert_ne in Hm by exact Hna.
      destruct (contractCache st !! contractName) as [m0 |] eqn:Hm0; cbn in Hm.
      * exact (Hwk _ _ _ _ Hm0 Hm).
      * rewrite lookup_empty in Hm. discriminate.
  - rewrite lookup_insert_ne in Hn by exact Hne. exact (Hwk _ _ _ _ Hn Hm).
Qed.

Lemma wellKeyed_same_cache (st st' : State) :
  contractCache st' = contractCache st -> wellKeyed st -> wellKeyed st'.
Proof. unfold wellKeyed. intros ->. auto. Qed.

Lemma wellKeyed_getHydratedWrapper (f : Factory) (hydrate : Hydrator)
  (given : option Address) (st : State) :
  wellKeyed st -> wellKeyed (snd (getHydratedWrapper f hydrate given st)).
Proof.
  intros Hwk.
  destruct (getHydratedWrapper f hydrate given st) as [r st'] eqn:Hget.
  destruct (getHydratedWrapper_cache _ _ _ _ _ _ Hget) as [Hsame | (w & _ & Hput)].
  - exact (wellKeyed_same_cache _ _ Hsame Hwk).
  - apply (wellKeyed_same_cache
             (setCachedContract (solidityContractName f) (Some w) st)); [exact Hput |].
    now apply wellKeyed_setCachedContract.
Qed.

(** X15: the cache keeps every wrapper under the wrapper's own address.
    Empty caches have the property, and [at], [deployed] and [new]
    keep it; so a lookup answered from the cache returns a wrapper whose
    address is the address asked for. *)
Theorem cache_well_keyed (requireContract : string -> Result SolidityContract)
  (f : Factory) (hydrate : Address -> Hydrator) (st : State) :
  wellKeyed st ->
  (forall a, wellKeyed (snd (at_ requireContract f hydrate a st)))
  /\ (forall a, wellKeyed (snd (deployed requireContract f (hydrate a) st)))
  /\ (forall a, wellKeyed (snd (new requireContract f (hydrate a) st)))
  /\ (forall a w, getCachedContract st (solidityContractName f) a = Some w ->
        address w = a).
Proof.
  intros Hwk.
  destruct (ensure_cache requireContract f st) as [Hcache Hname].
  assert (Hwk1 : wellKeyed (snd (ensureSolidityContract requireContract f st)))
    by exact (wellKeyed_same_cache _ _ Hcache Hwk).
  repeat split.
  - intros a. unfold at_.
    destruct (ensureSolidityContract requireContract f st) as [[[c | msg] f1] st1];
      [| exact Hwk1].
    pose proof (wellKeyed_getHydratedWrapper f1 (hydrate a) (Some a) st1 Hwk1) as H.
    now destruct (getHydratedWrapper f1 (hydrate a) (Some a) st1).
  - intros a. unfold deployed.
    destruct (ensureSolidityContract requireContract f st) as [[[c | msg] f1] st1];
      [| exact Hwk1].
    pose proof (wellKeyed_getHydratedWrapper f1 (hydrate a) None st1 Hwk1) as H.
    now destruct (getHydratedWrapper f1 (hydrate a) None st1).
  - intros a. unfold new.
    destruct (ensureSolidityContract requireContract f st) as [[[c | msg] f1] st1];
      [| exact Hwk1].
    rewrite invoke_spec. cbn [snd] in Hwk1.
    assert (Hwk2 : wellKeyed (emit (Hydrate (solidityContractName f1)) st1))
      by exact Hwk1.
    destruct (hydrate a (hydrations st1)) as [[w |] | msg]; try exact Hwk2.
    destruct (cacheContractWrappers _); [| exact Hwk2].
    now apply wellKeyed_setCachedContract.
  - intros a w. unfold getCachedContract.
    destruct (String.eqb a ""); [discriminate |].
    destruct (contractCache st !! solidityContractName f) as [m |] eqn:Hm;
      [| discriminate].
    cbn. intros Hw. exact (Hwk _ _ _ _ Hm Hw).
Qed.

Lemma cache_well_keyed_witness :
  (forall a, wellKeyed (snd (at_ (fun _ => Throw "not asked") upgradeSchemeFactory
                               hydrateFromAt a (initial true))))
  /\ (forall a, wellKeyed (snd (deployed (fun _ => Throw "not asked")
                                  upgradeSchemeFactory (hydrateFromAt a) (initial true))))
  /\ (forall a, wellKeyed (snd (new (fun _ => Throw "not asked") upgradeSchemeFactory
                                  (hydrateFromAt a) (initial true))))
  /\ (forall a w, getCachedContract (initial true) "UpgradeScheme" a = Some w ->
        address w = a).
Proof.
  apply (cache_well_keyed (fun _ => Throw "not asked") upgradeSchemeFactory
           hydrateFromAt (initial true)).
  intros n m a w Hn. cbn in Hn. rewrite lookup_empty in Hn. discriminate Hn.
Defined.

End ContractWrapperCacheFacts.

(** ** What a DAO is asked *)

Module DAOQueriesFacts.
Import DAO DAOQueries.

(** *** The loops that await *)

(** Once rejected, a loop stays rejected. *)
Lemma fold_Throw {A B} (f : A -> B -> Result A) (l : list B) (msg : string) :
  fold_left (fun sofar x => a ← sofar; f a x) l (Throw msg) = Throw msg.
Proof. induction l as [| x l IH]; [reflexivity | exact IH]. Qed.

Lemma _handleSchemeEvent_cons (fromString : string -> Z) (controller : Controller)
  (arcTypesMap : gmap Address string) (entry : ControllerRegisterSchemeEventLogEntry)
  (entries : list ControllerRegisterSchemeEventLogEntry)
  (schemesMap : JsMap DaoSchemeInfo) :
  _handleSchemeEvent fromString controller (Entries (entry :: entries)) arcTypesMap
    schemesMap
  = match getSchemePermissions controller (_scheme entry) with
    | Ok _ =>
        _handleSchemeEvent fromString controller (Entries entries) arcTypesMap
          (mapSet (_scheme entry) (schemeInfoOf fromString controller arcTypesMap entry)
             schemesMap)
    | Throw msg => Throw msg
    end.
Proof.
  unfold _handleSchemeEvent, schemeInfoOf, permissionsRead. cbn [asArray fold_left].
  cbn [mbind]. unfold mbind at 2. cbn.
  destruct (getSchemePermissions controller (_scheme entry)) as [p | msg]; cbn.
  - reflexivity.
  - apply (fold_Throw
             (fun schemesMap entry =>
                permissions ← getSchemePermissions controller (_scheme entry);
                Ok (mapSet (_scheme entry)
                      {| name := arcTypesMap !! _scheme entry;
                         address := _scheme entry;
                         permissions := fromString permissions |} schemesMap))).
Qed.


(** When the handler is not rejected, the Map it leaves is the one folded
    from the log with the permissions read. *)
Lemma _handleSchemeEvent_Ok (fromString : string -> Z) (controller : Controller)
  (arcTypesMap : gmap Address string)
  (entries : list ControllerRegisterSchemeEventLogEntry) :
  forall schemesMap found,
    _handleSchemeEvent fromString controller (Entries entries) arcTypesMap schemesMap
    = Ok found ->
    found
    = fold_left
        (fun m entry =>
           mapSet (_scheme entry) (schemeInfoOf fromString controller arcTypesMap entry) m)
        entries schemesMap.
Proof.
  induction entries as [| entry entries IH]; intros schemesMap found.
  - cbn. now intros [= <-].
  - rewrite _handleSchemeEvent_cons.
    destruct (getSchemePermissions controller (_scheme entry)); [| discriminate].
    cbn [fold_left]. apply IH.
Qed.

(** The handler is rejected exactly when the read of the permissions is
    rejected for an entry of the log. *)
Lemma _handleSchemeEvent_Throw (fromString : string -> Z) (controller : Controller)
  (arcTypesMap : gmap Address string)
  (entries : list ControllerRegisterSchemeEventLogEntry) :
  forall schemesMap,
    (exists msg,
       _handleSchemeEvent fromString controller (Entries entries) arcTypesMap schemesMap
       = Throw msg)
    <-> exists entry msg,
          In entry entries /\ getSchemePermissions controller (_scheme entry) = Throw msg.
Proof.
  induction entries as [| entry entries IH]; intros schemesMap.
  - cbn. split; [intros [msg [=]] | intros (? & ? & [] & _)].
  - rewrite _handleSchemeEvent_cons.
    destruct (getSchemePermissions controller (_scheme entry)) as [p | msg] eqn:Hp.
    + rewrite IH. split.
      * intros (e & msg & Hin & He). exists e, msg. split; [now right | exact He].
      * intros (e & msg & [<- | Hin] & He); [congruence |]. now exists e, msg.
    + split; [| intros _; now exists msg].
      intros _. exists entry, msg. split; [now left | exact Hp].
Qed.

Lemma asArray_Entries {A} (log : Log A) (P : Log A -> Prop) :
  P (Entries (asArray log)) -> (forall entry, P (Entries [entry]) -> P (Single entry)) ->
  P log.
Proof. destruct log; auto. Qed.

Lemma _handleSchemeEvent_asArray (fromString : string -> Z) (controller : Controller)
  (arcTypesMap : gmap Address string) (log : Log ControllerRegisterSchemeEventLogEntry)
  (schemesMap : JsMap DaoSchemeInfo) :
  _handleSchemeEvent fromString controller log arcTypesMap schemesMap
  = _handleSchemeEvent fromString controller (Entries (asArray log)) arcTypesMap
      schemesMap.
Proof. now destruct log. Qed.

(** The last loop keeps, in their order, the records for which the read
    answers [true]; it is rejected with what the first rejected read is
    rejected with. *)
Lemma keepRegistered_Ok {V} (registered : V -> Result bool) (found : list V) :
  forall out kept,
    fold_left
      (fun sofar v =>
         out ← sofar; yes ← registered v; Ok (if yes : bool then out ++ [v] else out))
      found (Ok out)
    = Ok kept ->
    kept
    = out ++ List.filter (fun v => match registered v with Ok true => true | _ => false end)
               found.
Proof.
  match goal with |- context [fold_left ?f _ _] => set (F := f) end.
  assert (Hstep : forall out v,
             F (Ok out) v
             = match registered v with
               | Ok true => Ok (out ++ [v])
               | Ok false => Ok out
               | Throw msg => Throw msg
               end)
    by (intros out v; subst F; cbn; now destruct (registered v) as [[|] |]).
  assert (HT : forall l msg, fold_left F l (Throw msg) = Throw msg)
    by (intros l msg; induction l; [reflexivity | assumption]).
  induction found as [| v found IH]; intros out kept.
  - cbn. intros [= <-]. now rewrite app_nil_r.
  - cbn [fold_left List.filter]. rewrite Hstep.
    destruct (registered v) as [[|] | msg].
    + intros H. rewrite (IH _ _ H). now rewrite <- app_assoc.
    + apply IH.
    + rewrite HT. discriminate.
Qed.

Lemma keepRegistered_Throw {V} (registered : V -> Result bool) (found : list V) :
  forall out msg,
    fold_left
      (fun sofar v =>
         out ← sofar; yes ← registered v; Ok (if yes : bool then out ++ [v] else out))
      found (Ok out)
    = Throw msg ->
    exists v, In v found /\ registered v = Throw msg.
Proof.
  match goal with |- context [fold_left ?f _ _] => set (F := f) end.
  assert (Hstep : forall out v,
             F (Ok out) v
             = match registered v with
               | Ok true => Ok (out ++ [v])
               | Ok false => Ok out
               | Throw msg => Throw msg
               end)
    by (intros out v; subst F; cbn; now destruct (registered v) as [[|] |]).
  assert (HT : forall l msg, fold_left F l (Throw msg) = Throw msg)
    by (intros l msg; induction l; [reflexivity | assumption]).
  induction found as [| v found IH]; intros out msg.
  - cbn. discriminate.
  - cbn [fold_left]. rewrite Hstep.
    destruct (registered v) as [[|] | msg'] eqn:Hv.
    + intros H. destruct (IH _ _ H) as (v' & Hin & Hv'). exists v'. split; [now right | easy].
    + intros H. destruct (IH _ _ H) as (v' & Hin & Hv'). exists v'. split; [now right | easy].
    + rewrite HT. intros [= <-]. exists v. split; [now left | exact Hv].
Qed.

(** The last loop looks at the address only. *)
Lemma keepRegistered_map {V} (addressOf : V -> Address) (read : Address -> Result bool)
  (found : list V) :
  keepRegistered read (map addressOf found)
  = match keepRegistered (fun v => read (addressOf v)) found with
    | Ok kept => Ok (map addressOf kept)
    | Throw msg => Throw msg
    end.
Proof.
  unfold keepRegistered.
  match goal with
  | |- fold_left ?f _ _ = match fold_left ?g _ _ with _ => _ end =>
      set (F := f); set (G := g)
  end.
  assert (HF : forall out a,
             F (Ok out) a
             = match read a with
               | Ok true => Ok (out ++ [a])
               | Ok false => Ok out
               | Throw msg => Throw msg
               end)
    by (intros out a; subst F; cbn; now destruct (read a) as [[|] |]).
  assert (HG : forall out v,
             G (Ok out) v
             = match read (addressOf v) with
               | Ok true => Ok (out ++ [v])
               | Ok false => Ok out
               | Throw msg => Throw msg
               end)
    by (intros out v; subst G; cbn; now destruct (read (addressOf v)) as [[|] |]).
  assert (HFT : forall l msg, fold_left F l (Throw msg) = Throw msg)
    by (intros l msg; induction l; [reflexivity | assumption]).
  assert (HGT : forall l msg, fold_left G l (Throw msg) = Throw msg)
    by (intros l msg; induction l; [reflexivity | assumption]).
  change (@nil Address) with (map addressOf []).
  generalize (@nil V) as out.
  induction found as [| v found IH]; intros out; [reflexivity |].
  cbn [map fold_left]. rewrite HF, HG.
  destruct (read (addressOf v)) as [[|] | msg].
  - rewrite <- IH. now rewrite map_app.
  - apply IH.
  - now rewrite HFT, HGT.
Qed.

(** *** The order of the Map *)

Lemma firstSeen_In (a : Address) (addresses : list Address) :
  In a (firstSeen addresses) <-> In a addresses.
Proof.
  unfold firstSeen. rewrite <- in_rev, <- !list_elem_of_In, elem_of_remove_dups.
  rewrite !list_elem_of_In. symmetry. apply in_rev.
Qed.

Lemma firstSeen_snoc (a : Address) (addresses : list Address) :
  firstSeen (addresses ++ [a])
  = if decide (a ∈ addresses) then firstSeen addresses else firstSeen addresses ++ [a].
Proof.
  unfold firstSeen. rewrite rev_app_distr. cbn [rev app remove_dups].
  destruct (decide_rel elem_of a (rev addresses)) as [Hin | Hnotin];
    rewrite list_elem_of_In, <- in_rev, <- list_elem_of_In in *.
  - now rewrite decide_True.
  - now rewrite decide_False.
Qed.

Lemma keys_mapSet_order {V} (k : string) (v : V) (m : JsMap V) :
  map fst (mapSet k v m)
  = if decide (k ∈ map fst m) then map fst m else map fst m ++ [k].
Proof.
  induction m as [| [k' v'] m IH]; cbn.
  - rewrite decide_False; [reflexivity | apply not_elem_of_nil].
  - destruct (String.eqb k' k) eqn:E.
    + apply String.eqb_eq in E. subst k'. cbn.
      rewrite decide_True; [reflexivity | apply elem_of_cons; now left].
    + apply String.eqb_neq in E. cbn. rewrite IH.
      destruct (decide (k ∈ map fst m)) as [Hin | Hnotin].
      * rewrite decide_True; [reflexivity | apply elem_of_cons; now right].
      * rewrite decide_False; [reflexivity |].
        rewrite elem_of_cons. intros [-> | ?]; [now apply E | contradiction].
Qed.

Section Order.

Context {E V : Type} (key : E -> Address) (mk : E -> V) (keyOf : V -> Address).
Hypothesis keyOf_mk : forall e, keyOf (mk e) = key e.

(** The Map folded from a log has the addresses of the log, each once, in
    the order in which the log has them first; its values are the records
    of entries of the log, each under its address. *)
Lemma handle_order (es : list E) :
  map fst (fold_left (fun m e => mapSet (key e) (mk e) m) es [])
  = firstSeen (map key es).
Proof.
  induction es as [| e es IH] using rev_ind; [reflexivity |].
  rewrite fold_left_app, map_app. cbn [fold_left map].
  rewrite keys_mapSet_order, firstSeen_snoc, IH.
  destruct (decide (key e ∈ map key es)) as [Hin | Hnotin].
  - rewrite decide_True; [reflexivity |].
    now rewrite list_elem_of_In, firstSeen_In, <- list_elem_of_In.
  - rewrite decide_False; [reflexivity |].
    now rewrite list_elem_of_In, firstSeen_In, <- list_elem_of_In.
Qed.

Lemma handle_values (es : list E) :
  forall m,
    (forall k v, In (k, v) m -> keyOf v = k) ->
    forall k v, In (k, v) (fold_left (fun m e => mapSet (key e) (mk e) m) es m) ->
      keyOf v = k /\ (In (k, v) m \/ exists e, In e es /\ v = mk e).
Proof.
  induction es as [| e es IH]; intros m Hm k v Hin.
  - split; [now apply Hm | now left].
  - cbn [fold_left] in Hin. apply IH in Hin as [Hk Hin].
    + split; [exact Hk |]. destruct Hin as [Hin | (e' & He' & ->)].
      * apply DAOFacts.In_mapSet in Hin as [[-> ->] | Hin]; [| now left].
        right. exists e. split; [now left | reflexivity].
      * right. exists e'. split; [now right | reflexivity].
    + intros k' v' Hin'. apply DAOFacts.In_mapSet in Hin' as [[-> ->] | Hin'];
        [apply keyOf_mk | now apply Hm].
Qed.

Lemma handle_addresses (es : list E) :
  map keyOf (mapValues (fold_left (fun m e => mapSet (key e) (mk e) m) es []))
  = firstSeen (map key es).
Proof.
  rewrite <- handle_order. unfold mapValues. rewrite map_map.
  apply map_ext_in. intros [k v] Hin. cbn.
  now apply (handle_values es [] (fun _ _ F => match F with end)) in Hin as [Hk _].
Qed.

End Order.

Lemma filter_map_comm {A B} (f : A -> B) (p : B -> bool) (l : list A) :
  map f (List.filter (fun x => p (f x)) l) = List.filter p (map f l).
Proof.
  induction l as [| x l IH]; cbn; [reflexivity |].
  destruct (p (f x)); cbn; now rewrite IH.
Qed.


Lemma lastFor_Some {A} (addressOf : A -> Address) (a : Address) (entries : list A)
  (entry : A) :
  lastFor addressOf a entries = Some entry -> addressOf entry = a /\ In entry entries.
Proof.
  unfold lastFor. intros H. apply find_some in H as [Hin Ha].
  split; [now apply String.eqb_eq | now apply in_rev].
Qed.

Lemma lastFor_In {A} (addressOf : A -> Address) (a : Address) (entries : list A) :
  In a (map addressOf entries) <-> exists entry, lastFor addressOf a entries = Some entry.
Proof.
  split.
  - intros Hin. apply in_map_iff in Hin as (e & He & Hin).
    unfold lastFor. destruct (List.find _ (rev entries)) as [e' |] eqn:Hf; [now exists e' |].
    apply in_rev in Hin. apply (find_none _ _ Hf e) in Hin.
    subst a. now rewrite String.eqb_refl in Hin.
  - intros (e & He). apply lastFor_Some in He as [<- Hin]. now apply in_map.
Qed.

(** The name the discovery has for an address is that of the wrapper
    listed last with that address. *)
Lemma arcTypes_lookup (allWrappers : list (string * Address)) (a : Address) :
  arcTypes allWrappers !! a = fst <$> lastFor snd a allWrappers.
Proof.
  unfold arcTypes.
  enough (H : forall m : gmap Address string,
             fold_left (fun m entry => <[snd entry := fst entry]> m) allWrappers m !! a
             = match lastFor snd a allWrappers with
               | Some entry => Some (fst entry)
               | None => m !! a
               end).
  { rewrite H. destruct (lastFor snd a allWrappers); [reflexivity | apply lookup_empty]. }
  induction allWrappers as [| entry allWrappers IH]; intros m; [reflexivity |].
  cbn [fold_left]. rewrite IH. unfold lastFor. cbn [rev]. rewrite DAOFacts.find_app.
  destruct (List.find _ (rev allWrappers)); [reflexivity |].
  cbn [List.find]. destruct (String.eqb (snd entry) a) eqn:E.
  - apply String.eqb_eq in E. subst a. apply lookup_insert_eq.
  - apply String.eqb_neq in E. now apply lookup_insert_ne.
Qed.

(** *** The discoveries of lib/dao.ts *)

(** X16: the schemes [_getSchemes] resolves to stand in the order in which
    their addresses come first in the history, whatever the order of the
    later registrations that replaced their records: their addresses are
    the addresses of the log, each once, in order of first appearance,
    less those for which [isSchemeRegistered] does not answer [true]. *)
Theorem schemes_in_order_of_first_registration (fromString : string -> Z)
  (controller : Controller) (allWrappers : list (string * Address))
  (registeredSchemes : list DaoSchemeInfo) :
  _getSchemes fromString controller allWrappers = Resolves registeredSchemes ->
  exists log,
    RegisterScheme controller = Ok log
    /\ map address registeredSchemes
       = List.filter (answersTrue (isSchemeRegistered controller))
           (firstSeen (map _scheme (asArray log))).
Proof.
  unfold _getSchemes.
  destruct (RegisterScheme controller) as [log | msg]; [| discriminate].
  rewrite _handleSchemeEvent_asArray.
  destruct (_handleSchemeEvent _ _ _ _ _) as [found | msg] eqn:Hfound; [| discriminate].
  apply _handleSchemeEvent_Ok in Hfound. subst found.
  destruct (keepRegistered _ _) as [kept | msg] eqn:Hkept; [| discriminate].
  intros [= <-]. exists log. split; [reflexivity |].
  apply keepRegistered_Ok in Hkept. cbn [app] in Hkept. subst kept.
  rewrite <- (handle_addresses _scheme
                (schemeInfoOf fromString controller (arcTypes allWrappers)) address
                (fun _ => eq_refl)).
  apply (filter_map_comm address (answersTrue (isSchemeRegistered controller))).
Qed.

Lemma schemes_in_order_of_first_registration_witness :
  exists log,
    RegisterScheme registeredTwice = Ok log
    /\ ["0xB"; "0xA"]%string
       = List.filter (answersTrue (isSchemeRegistered registeredTwice))
           (firstSeen (map _scheme (asArray log))).
Proof.
  apply (schemes_in_order_of_first_registration Utils.hexValue registeredTwice twoNames
           [ {| name := Some "UpgradeScheme"%string; address := "0xB"; permissions := 1 |};
             {| name := Some "ContributionReward"%string; address := "0xA";
                permissions := 1 |} ]).
  vm_compute. reflexivity.
Defined.

(** X17: the same for the constraints of [_getConstraints], each with the
    parameters of the last entry of the log for its address. *)
Theorem constraints_in_order_of_first_addition (controller : Controller)
  (allWrappers : list (string * Address))
  (registeredConstraints : list DaoGlobalConstraintInfo) :
  _getConstraints controller allWrappers = Resolves registeredConstraints ->
  exists log,
    AddGlobalConstraint controller = Ok log
    /\ map gcAddress registeredConstraints
       = List.filter (answersTrue (isGlobalConstraintRegistered controller))
           (firstSeen (map _globalConstraint (asArray log)))
    /\ forall gc, In gc registeredConstraints ->
         exists entry,
           lastFor _globalConstraint (gcAddress gc) (asArray log) = Some entry
           /\ paramsHash gc = _params entry.
Proof.
  unfold _getConstraints.
  destruct (AddGlobalConstraint controller) as [log | msg]; [| discriminate].
  cbv zeta.
  destruct (keepRegistered _ _) as [kept | msg] eqn:Hkept; [| discriminate].
  intros [= <-]. exists log. split; [reflexivity |].
  apply keepRegistered_Ok in Hkept. cbn [app] in Hkept. subst kept.
  split.
  - rewrite <- (handle_addresses _globalConstraint
                  (constraintInfoOf (arcTypes allWrappers)) gcAddress (fun _ => eq_refl)).
    apply (filter_map_comm gcAddress (answersTrue (isGlobalConstraintRegistered controller))).
  - intros gc Hin. apply filter_In in Hin as [Hin _].
    pose proof (DAOFacts.discovered _globalConstraint
                  (constraintInfoOf (arcTypes allWrappers)) gcAddress (fun _ => eq_refl)
                  (asArray log) (fun _ => true)) as [_ Hd].
    destruct (proj1 (Hd gc)) as (_ & entry & Hlast & ->).
    + apply filter_In. split; [exact Hin | reflexivity].
    + exists entry. split; [exact Hlast | reflexivity].
Qed.

Lemma constraints_in_order_of_first_addition_witness :
  exists log,
    AddGlobalConstraint reconfigured = Ok log
    /\ ["0xC"%string]
       = List.filter (answersTrue (isGlobalConstraintRegistered reconfigured))
           (firstSeen (map _globalConstraint (asArray log)))
    /\ forall gc,
         In gc [ {| gcName := Some "TokenCapGC"%string; gcAddress := "0xC";
                    paramsHash := "0x02" |} ] ->
         exists entry,
           lastFor _globalConstraint (gcAddress gc) (asArray log) = Some entry
           /\ paramsHash gc = _params entry.
Proof.
  apply (constraints_in_order_of_first_addition reconfigured
           [("TokenCapGC"%string, "0xC"%string)]
           [ {| gcName := Some "TokenCapGC"%string; gcAddress := "0xC";
                paramsHash := "0x02" |} ]).
  vm_compute. reflexivity.
Defined.

(** X18: when the discoveries of lib/dao.ts do not settle.  [_getSchemes]
    waits for ever exactly when the history cannot be fetched or when,
    for an entry of the history, the read of the permissions is rejected;
    [_getConstraints] exactly when the history cannot be fetched.  When
    [_getSchemes] is rejected, it is with what [isSchemeRegistered] was
    rejected with for an address of the history. *)
Theorem discovery_waits_for_ever_iff (fromString : string -> Z)
  (controller : Controller) (allWrappers : list (string * Address)) :
  (_getSchemes fromString controller allWrappers = NeverSettles
   <-> (exists msg, RegisterScheme controller = Throw msg)
       \/ exists log entry msg,
            RegisterScheme controller = Ok log
            /\ In entry (asArray log)
            /\ getSchemePermissions controller (_scheme entry) = Throw msg)
  /\ (_getConstraints controller allWrappers = NeverSettles
      <-> exists msg, AddGlobalConstraint controller = Throw msg)
  /\ (forall msg,
        _getSchemes fromString controller allWrappers = Rejects msg ->
        exists log entry,
          RegisterScheme controller = Ok log
          /\ In entry (asArray log)
          /\ isSchemeRegistered controller (_scheme entry) = Throw msg).
Proof.
  split; [| split].
  - unfold _getSchemes.
    destruct (RegisterScheme controller) as [log | msg].
    + rewrite _handleSchemeEvent_asArray.
      pose proof (_handleSchemeEvent_Throw fromString controller (arcTypes allWrappers)
                    (asArray log) []) as Hthrow.
      destruct (_handleSchemeEvent _ _ _ _ _) as [found | msg].
      * split.
        -- destruct (keepRegistered _ _); discriminate.
        -- intros [(msg & [=]) | (log' & entry & msg & [= <-] & Hin & Hp)].
           destruct (proj2 Hthrow) as (? & [=]). now exists entry, msg.
      * split; [| reflexivity]. intros _. right.
        destruct (proj1 Hthrow) as (entry & msg' & Hin & Hp); [now exists msg |].
        now exists log, entry, msg'.
    + split; [| reflexivity]. intros _. left. now exists msg.
  - unfold _getConstraints.
    destruct (AddGlobalConstraint controller) as [log | msg].
    + cbv zeta. split; [destruct (keepRegistered _ _); discriminate |].
      intros (msg & [=]).
    + split; [| reflexivity]. intros _. now exists msg.
  - intros msg. unfold _getSchemes.
    destruct (RegisterScheme controller) as [log | msg']; [| discriminate].
    rewrite _handleSchemeEvent_asArray.
    destruct (_handleSchemeEvent _ _ _ _ _) as [found | msg'] eqn:Hfound; [| discriminate].
    apply _handleSchemeEvent_Ok in Hfound. subst found.
    destruct (keepRegistered _ _) as [kept | msg'] eqn:Hkept; [discriminate |].
    intros [= ->]. apply keepRegistered_Throw in Hkept as (v & Hin & Hv).
    unfold mapValues in Hin. apply in_map_iff in Hin as ([k v'] & Hv' & Hin).
    cbn in Hv'. subst v'.
    apply (handle_values _scheme
             (schemeInfoOf fromString controller (arcTypes allWrappers)) address
             (fun _ => eq_refl) (asArray log) [] (fun _ _ F => match F with end))
      in Hin as [_ [[] | (entry & Hentry & ->)]].
    exists log, entry. now repeat split.
Qed.


(** X19: [getSchemes(name)] of lib/dao.ts, on a controller that answers.
    Without a name, or with the empty name, it is [_getSchemes].  With a
    name it resolves to the schemes registered now whose address is in
    the history and is, in the directory, listed last under that name: a
    scheme whose address the directory lists again under another name is
    found under the later name only. *)
Theorem getSchemes_by_name (fromString : string -> Z) (controller : Controller)
  (allWrappers : list (string * Address))
  (schemeLog : Log ControllerRegisterSchemeEventLogEntry)
  (constraintLog : Log ControllerAddGlobalConstraintsEventLogEntry)
  (perms : Address -> string) (reg greg : Address -> bool) (name : string) :
  answers controller schemeLog constraintLog perms reg greg ->
  name <> EmptyString ->
  getSchemes fromString controller allWrappers None
  = _getSchemes fromString controller allWrappers
  /\ getSchemes fromString controller allWrappers (Some EmptyString)
     = _getSchemes fromString controller allWrappers
  /\ exists schemes,
       getSchemes fromString controller allWrappers (Some name) = Resolves schemes
       /\ forall info, In info schemes <->
            reg (address info) = true
            /\ In (address info) (map _scheme (asArray schemeLog))
            /\ lastFor snd (address info) allWrappers = Some (name, address info)
            /\ info = {| DAO.name := Some name;
                         address := address info;
                         permissions := fromString (perms (address info)) |}.
Proof.
  intros (Hslog & _ & Hperms & Hreg & _) Hname.
  split; [| split].
  - unfold getSchemes. cbn. now destruct (_getSchemes _ _ _).
  - unfold getSchemes. cbn. now destruct (_getSchemes _ _ _).
  - pose proof (DAOFacts.discovered _scheme
                  (fun entry =>
                     {| DAO.name := arcTypes allWrappers !! _scheme entry;
                        address := _scheme entry;
                        permissions := fromString (perms (_scheme entry)) |})
                  address (fun _ => eq_refl) (asArray schemeLog) reg) as [_ Hin].
    unfold getSchemes, _getSchemes. rewrite Hslog, _handleSchemeEvent_asArray.
    rewrite (DAOFacts._handleSchemeEvent_answers fromString controller perms _ _ Hperms).
    rewrite (DAOFacts.keepRegistered_answers _ (fun scheme => reg (address scheme)))
      by (intros v; apply Hreg).
    assert (Htruthy : truthy (Some name) = true)
      by (cbn; apply negb_true_iff; now apply String.eqb_neq).
    rewrite Htruthy. eexists. split; [reflexivity |].
    intros info. rewrite filter_In, Hin, bool_decide_eq_true. split.
    + intros ((Hlive & entry & Hlast & Hinfo) & Hn).
      pose proof (lastFor_Some _ _ _ _ Hlast) as [_ Hentry].
      subst info. cbn in Hlive, Hn |- *. rewrite Hn.
      rewrite arcTypes_lookup in Hn.
      destruct (lastFor snd (_scheme entry) allWrappers) as [[n a] |] eqn:Hw;
        [| discriminate].
      pose proof (lastFor_Some _ _ _ _ Hw) as [Ha _]. cbn in Ha, Hn.
      injection Hn as ->. subst a.
      split; [exact Hlive |].
      split; [now apply in_map |].
      split; reflexivity.
    + intros (Hlive & Hlog & Hw & Hinfo).
      apply lastFor_In in Hlog as (entry & Hlast).
      pose proof (lastFor_Some _ _ _ _ Hlast) as [Hkey _].
      split; [split; [exact Hlive |] |].
      * exists entry. split; [exact Hlast |].
        rewrite Hinfo at 1. rewrite Hkey, arcTypes_lookup, Hw. reflexivity.
      * rewrite Hinfo. reflexivity.
Qed.

(** Two names for the address 0xA: the scheme there is found under the
    later one. *)
Lemma getSchemes_by_name_witness :
  getSchemes Utils.hexValue registeredTwice twoNames None
  = _getSchemes Utils.hexValue registeredTwice twoNames
  /\ getSchemes Utils.hexValue registeredTwice twoNames (Some EmptyString)
     = _getSchemes Utils.hexValue registeredTwice twoNames
  /\ exists schemes,
    getSchemes Utils.hexValue registeredTwice twoNames (Some "ContributionReward"%string)
    = Resolves schemes
    /\ forall info, In info schemes <->
         true = true
         /\ In (address info) ["0xB"; "0xA"; "0xB"]%string
         /\ lastFor snd (address info) twoNames
            = Some ("ContributionReward"%string, address info)
         /\ info = {| DAO.name := Some "ContributionReward"%string;
                      address := address info;
                      permissions := Utils.hexValue "0x00000001" |}.
Proof.
  apply (getSchemes_by_name Utils.hexValue registeredTwice twoNames
           (Entries [ {| _scheme := "0xB" |}; {| _scheme := "0xA" |};
                      {| _scheme := "0xB" |} ])
           (Entries []) (fun _ => "0x00000001"%string) (fun _ => true) (fun _ => true)
           "ContributionReward"); [repeat split; reflexivity | discriminate].
Defined.

Example getSchemes_under_the_earlier_name :
  getSchemes Utils.hexValue registeredTwice twoNames (Some "SchemeRegistrar"%string)
  = Resolves []
  /\ getSchemes Utils.hexValue registeredTwice twoNames (Some "ContributionReward"%string)
     = Resolves [ {| DAO.name := Some "ContributionReward"%string; address := "0xA";
                     permissions := 1 |} ].
Proof. split; vm_compute; reflexivity. Qed.

End DAOQueriesFacts.

(** ** dao.ts with the wrapper in what it finds *)

Module WrapperDAOFacts.

Local Abbreviation wrapperName := name (only parsing).

Import DAO.

Lemma _handleSchemeEvent_addresses (wrappersByAddress : gmap Address Wrapper)
  (log : Log ControllerRegisterSchemeEventLogEntry) :
  map WrapperDAO.address
    (mapValues (WrapperDAO._handleSchemeEvent wrappersByAddress log []))
  = DAOQueries.firstSeen (map _scheme (asArray log)).
Proof.
  apply (DAOQueriesFacts.handle_addresses _scheme
           (fun entry =>
              {| WrapperDAO.address := _scheme entry;
                 WrapperDAO.wrapper := wrappersByAddress !! _scheme entry |})
           WrapperDAO.address (fun _ => eq_refl)).
Qed.

(** X20: the two versions of [_getSchemes] on one controller.  Where the
    one of lib/dao.ts resolves, the later one resolves to schemes of the
    same addresses in the same order; where it is rejected, the later one
    is rejected with the same; and the later one always settles: a
    history that cannot be fetched rejects it, and it does not read the
    permissions. *)
Theorem later_getSchemes_settles (fromString : string -> Z) (controller : Controller)
  (allWrappers : list (string * Address)) (wrappersByAddress : gmap Address Wrapper) :
  (forall schemes,
     _getSchemes fromString controller allWrappers = Resolves schemes ->
     exists schemes',
       WrapperDAO._getSchemes wrappersByAddress controller = Resolves schemes'
       /\ map WrapperDAO.address schemes' = map address schemes)
  /\ (forall msg,
        _getSchemes fromString controller allWrappers = Rejects msg ->
        WrapperDAO._getSchemes wrappersByAddress controller = Rejects msg)
  /\ (forall msg,
        RegisterScheme controller = Throw msg ->
        WrapperDAO._getSchemes wrappersByAddress controller = Rejects msg)
  /\ WrapperDAO._getSchemes wrappersByAddress controller <> NeverSettles.
Proof.
  assert (Hboth : forall log found,
             RegisterScheme controller = Ok log ->
             _handleSchemeEvent fromString controller log (arcTypes allWrappers) []
             = Ok found ->
             match keepRegistered
                     (fun scheme => isSchemeRegistered controller (address scheme))
                     (mapValues found) with
             | Ok kept =>
                 exists kept',
                   WrapperDAO._getSchemes wrappersByAddress controller = Resolves kept'
                   /\ map WrapperDAO.address kept' = map address kept
             | Throw msg =>
                 WrapperDAO._getSchemes wrappersByAddress controller = Rejects msg
             end).
  { intros log found Hlog Hfound.
    rewrite DAOQueriesFacts._handleSchemeEvent_asArray in Hfound.
    apply DAOQueriesFacts._handleSchemeEvent_Ok in Hfound. subst found.
    pose proof (DAOQueriesFacts.keepRegistered_map address
                  (isSchemeRegistered controller)
                  (mapValues
                     (fold_left
                        (fun m entry =>
                           mapSet (_scheme entry)
                             (DAOQueries.schemeInfoOf fromString controller
                                (arcTypes allWrappers) entry) m)
                        (asArray log) []))) as Hold.
    rewrite (DAOQueriesFacts.handle_addresses _scheme
               (DAOQueries.schemeInfoOf fromString controller (arcTypes allWrappers))
               address (fun _ => eq_refl)) in Hold.
    pose proof (DAOQueriesFacts.keepRegistered_map WrapperDAO.address
                  (isSchemeRegistered controller)
                  (mapValues (WrapperDAO._handleSchemeEvent wrappersByAddress log [])))
      as Hnew.
    rewrite _handleSchemeEvent_addresses, Hold in Hnew.
    unfold WrapperDAO._getSchemes. rewrite Hlog. cbv zeta.
    destruct (keepRegistered _ (mapValues (fold_left _ _ _))) as [kept | msg];
      destruct (keepRegistered _ (mapValues (WrapperDAO._handleSchemeEvent _ _ _)))
        as [kept' | msg']; try discriminate.
    - injection Hnew as Hnew. now exists kept'.
    - now injection Hnew as ->. }
  split; [| split; [| split]].
  - intros schemes. unfold _getSchemes.
    destruct (RegisterScheme controller) as [log | msg] eqn:Hlog; [| discriminate].
    destruct (_handleSchemeEvent _ _ _ _ _) as [found | msg] eqn:Hfound; [| discriminate].
    specialize (Hboth log found eq_refl Hfound).
    destruct (keepRegistered _ _); [| discriminate].
    now intros [= <-].
  - intros msg. unfold _getSchemes.
    destruct (RegisterScheme controller) as [log | msg'] eqn:Hlog; [| discriminate].
    destruct (_handleSchemeEvent _ _ _ _ _) as [found | msg'] eqn:Hfound; [| discriminate].
    specialize (Hboth log found eq_refl Hfound).
    destruct (keepRegistered _ _); [discriminate |].
    now intros [= <-].
  - intros msg Hlog. unfold WrapperDAO._getSchemes. now rewrite Hlog.
  - unfold WrapperDAO._getSchemes.
    destruct (RegisterScheme controller); [| discriminate].
    cbv zeta. destruct (keepRegistered _ _); discriminate.
Qed.

(** A history of one scheme whose permissions cannot be read: lib/dao.ts
    waits for ever, the later version finds the scheme. *)
Example later_getSchemes_does_not_wait :
  _getSchemes Utils.hexValue WrapperDAO.foreignConstraint [] = NeverSettles
  /\ WrapperDAO._getSchemes ∅ WrapperDAO.foreignConstraint
     = Resolves [ {| WrapperDAO.address := "0xF"; WrapperDAO.wrapper := None |} ].
Proof. split; reflexivity. Qed.

(** *** The filters by name *)

Lemma filterThrowing_Ok {A} (callback : A -> Result bool) (keep : A -> bool)
  (array : list A) :
  (forall x, In x array -> callback x = Ok (keep x)) ->
  WrapperDAO.filterThrowing callback array = Ok (List.filter keep array).
Proof.
  induction array as [| x rest IH]; intros Hcb; [reflexivity |].
  cbn [WrapperDAO.filterThrowing List.filter].
  rewrite (Hcb x) by now left. cbn.
  rewrite IH by (intros y Hy; apply Hcb; now right). cbn.
  now destruct (keep x).
Qed.

Lemma filterThrowing_Throw_elim {A} (callback : A -> Result bool) (msg : string)
  (array : list A) :
  WrapperDAO.filterThrowing callback array = Throw msg ->
  exists x, In x array /\ callback x = Throw msg.
Proof.
  induction array as [| x rest IH]; [discriminate |].
  cbn [WrapperDAO.filterThrowing].
  destruct (callback x) as [keep | msg'] eqn:Hx; cbn.
  - destruct (WrapperDAO.filterThrowing callback rest) as [kept | msg'] eqn:Hrest; cbn;
      [discriminate |].
    intros [= ->]. destruct (IH eq_refl) as (y & Hin & Hy).
    exists y. split; [now right | exact Hy].
  - intros [= ->]. exists x. split; [now left | exact Hx].
Qed.

Lemma filterThrowing_Throw_intro {A} (callback : A -> Result bool) (array : list A)
  (x : A) (msg : string) :
  In x array -> callback x = Throw msg ->
  exists msg', WrapperDAO.filterThrowing callback array = Throw msg'.
Proof.
  induction array as [| y rest IH]; intros Hin Hx; [contradiction |].
  cbn [WrapperDAO.filterThrowing].
  destruct (callback y) as [keep | msg'] eqn:Hy; cbn; [| now exists msg'].
  destruct Hin as [-> | Hin]; [congruence |].
  destruct (IH Hin Hx) as (msg' & ->). cbn. now exists msg'.
Qed.

(** What [_getConstraints] resolves to has, for each address, the wrapper
    the directory has for it. *)
Lemma _getConstraints_wrappers (wrappersByAddress : gmap Address Wrapper)
  (controller : Controller) (constraints : list WrapperDAO.DaoGlobalConstraintInfo) :
  WrapperDAO._getConstraints wrappersByAddress controller = Resolves constraints ->
  forall gc, In gc constraints ->
    WrapperDAO.gcWrapper gc = wrappersByAddress !! WrapperDAO.gcAddress gc.
Proof.
  unfold WrapperDAO._getConstraints.
  destruct (AddGlobalConstraint controller) as [log | msg]; [| discriminate].
  cbv zeta. destruct (keepRegistered _ _) as [kept | msg] eqn:Hkept; [| discriminate].
  intros [= <-] gc Hin.
  apply DAOQueriesFacts.keepRegistered_Ok in Hkept. cbn [app] in Hkept. subst kept.
  apply filter_In in Hin as [Hin _].
  unfold mapValues in Hin. apply in_map_iff in Hin as ([k v] & Hv & Hin).
  cbn in Hv. subst v.
  apply (DAOQueriesFacts.handle_values _globalConstraint
           (fun entry =>
              {| WrapperDAO.gcAddress := _globalConstraint entry;
                 WrapperDAO.paramsHash := _params entry;
                 WrapperDAO.gcWrapper := wrappersByAddress !! _globalConstraint entry |})
           WrapperDAO.gcAddress (fun _ => eq_refl) (asArray log) []
           (fun _ _ F => match F with end))
    in Hin as [_ [[] | (entry & _ & ->)]].
  reflexivity.
Qed.

(** X21: asked by name, [getGlobalConstraints] is rejected with a
    TypeError exactly when one of the constraints in force is at an
    address the directory has no wrapper for, whatever its name and the
    name asked for; with a wrapper for each, it resolves to those whose
    wrapper has the name.  [getSchemes] guards the wrapper and is not
    rejected: it resolves to the schemes whose wrapper has the name. *)
Theorem getGlobalConstraints_needs_wrappers (wrappersByAddress : gmap Address Wrapper)
  (controller : Controller) (name : string)
  (constraints : list WrapperDAO.DaoGlobalConstraintInfo) :
  name <> EmptyString ->
  WrapperDAO._getConstraints wrappersByAddress controller = Resolves constraints ->
  (WrapperDAO.getGlobalConstraints wrappersByAddress controller (Some name)
   = Rejects "TypeError: s.wrapper is undefined"
   <-> exists gc,
         In gc constraints /\ wrappersByAddress !! WrapperDAO.gcAddress gc = None)
  /\ ((forall gc, In gc constraints ->
         is_Some (wrappersByAddress !! WrapperDAO.gcAddress gc)) ->
      WrapperDAO.getGlobalConstraints wrappersByAddress controller (Some name)
      = Resolves
          (List.filter
             (fun gc =>
                bool_decide (wrapperName <$> WrapperDAO.gcWrapper gc = Some name))
             constraints))
  /\ (forall schemes,
        WrapperDAO._getSchemes wrappersByAddress controller = Resolves schemes ->
        WrapperDAO.getSchemes wrappersByAddress controller (Some name)
        = Resolves
            (List.filter
               (fun s => bool_decide (wrapperName <$> WrapperDAO.wrapper s = Some name))
               schemes)).
Proof.
  intros Hname Hget.
  assert (Htruthy : truthy (Some name) = true)
    by (cbn; apply negb_true_iff; now apply String.eqb_neq).
  assert (Hsame : forall w : Wrapper,
             negb (String.eqb (wrapperName w) "") && String.eqb (wrapperName w) name
             = bool_decide (Some (wrapperName w) = Some name)).
  { intros w. destruct (String.eqb (wrapperName w) name) eqn:E.
    - apply String.eqb_eq in E. rewrite E, bool_decide_eq_true_2 by reflexivity.
      rewrite andb_true_r. apply negb_true_iff. now apply String.eqb_neq.
    - apply String.eqb_neq in E. rewrite andb_false_r.
      symmetry. apply bool_decide_eq_false_2. congruence. }
  pose proof (_getConstraints_wrappers _ _ _ Hget) as Hwrap.
  unfold WrapperDAO.getGlobalConstraints, WrapperDAO.getSchemes.
  rewrite Hget, Htruthy. cbn [default]. unfold id.
  split; [| split].
  - assert (Honly : forall gc msg,
               WrapperDAO.constraintHasName name gc = Throw msg ->
               WrapperDAO.gcWrapper gc = None
               /\ msg = "TypeError: s.wrapper is undefined"%string).
    { intros gc msg. unfold WrapperDAO.constraintHasName.
      destruct (WrapperDAO.gcWrapper gc); [discriminate | now intros [= <-]]. }
    split.
    + destruct (WrapperDAO.filterThrowing _ constraints) as [kept | msg] eqn:Hf;
        [discriminate |].
      cbn. intros [= ->].
      apply filterThrowing_Throw_elim in Hf as (gc & Hin & Hgc).
      exists gc. split; [exact Hin |].
      rewrite <- (Hwrap gc Hin). now apply Honly in Hgc.
    + intros (gc & Hin & Hnone).
      destruct (filterThrowing_Throw_intro (WrapperDAO.constraintHasName name)
                  constraints gc "TypeError: s.wrapper is undefined" Hin)
        as (msg & Hf).
      { unfold WrapperDAO.constraintHasName. now rewrite (Hwrap gc Hin), Hnone. }
      rewrite Hf. cbn. f_equal.
      apply filterThrowing_Throw_elim in Hf as (gc' & _ & Hgc').
      now apply Honly in Hgc'.
  - intros Hall.
    rewrite (filterThrowing_Ok _
               (fun gc => bool_decide (wrapperName <$> WrapperDAO.gcWrapper gc = Some name)));
      [reflexivity |].
    intros gc Hin. unfold WrapperDAO.constraintHasName.
    destruct (Hall gc Hin) as [w Hw]. rewrite <- (Hwrap gc Hin) in Hw.
    rewrite Hw. cbn. now rewrite Hsame.
  - intros schemes ->.
    rewrite (filterThrowing_Ok _
               (fun s => bool_decide (wrapperName <$> WrapperDAO.wrapper s = Some name)));
      [reflexivity |].
    intros s _. unfold WrapperDAO.schemeHasName.
    destruct (WrapperDAO.wrapper s) as [w |]; cbn; [now rewrite Hsame | reflexivity].
Qed.

(** One constraint in force, at an address of no wrapper: asking for the
    constraints of any name is rejected. *)
Lemma getGlobalConstraints_needs_wrappers_witness :
  (WrapperDAO.getGlobalConstraints ∅ WrapperDAO.foreignConstraint
     (Some "TokenCapGC"%string)
   = Rejects "TypeError: s.wrapper is undefined"
   <-> exists gc,
         In gc [ {| WrapperDAO.gcAddress := "0xF"; WrapperDAO.paramsHash := "0x01";
                    WrapperDAO.gcWrapper := None |} ]
         /\ (∅ : gmap Address Wrapper) !! WrapperDAO.gcAddress gc = None)
  /\ ((forall gc,
         In gc [ {| WrapperDAO.gcAddress := "0xF"; WrapperDAO.paramsHash := "0x01";
                    WrapperDAO.gcWrapper := None |} ] ->
         is_Some ((∅ : gmap Address Wrapper) !! WrapperDAO.gcAddress gc)) ->
      WrapperDAO.getGlobalConstraints ∅ WrapperDAO.foreignConstraint
        (Some "TokenCapGC"%string)
      = Resolves
          (List.filter
             (fun gc =>
                bool_decide
                  (wrapperName <$> WrapperDAO.gcWrapper gc = Some "TokenCapGC"%string))
             [ {| WrapperDAO.gcAddress := "0xF"; WrapperDAO.paramsHash := "0x01";
                  WrapperDAO.gcWrapper := None |} ]))
  /\ (forall schemes,
        WrapperDAO._getSchemes ∅ WrapperDAO.foreignConstraint = Resolves schemes ->
        WrapperDAO.getSchemes ∅ WrapperDAO.foreignConstraint (Some "TokenCapGC"%string)
        = Resolves
            (List.filter
               (fun s =>
                  bool_decide
                    (wrapperName <$> WrapperDAO.wrapper s = Some "TokenCapGC"%string))
               schemes)).
Proof.
  apply (getGlobalConstraints_needs_wrappers ∅ WrapperDAO.foreignConstraint "TokenCapGC"
           [ {| WrapperDAO.gcAddress := "0xF"; WrapperDAO.paramsHash := "0x01";
                WrapperDAO.gcWrapper := None |} ]);
    [discriminate | reflexivity].
Defined.

Example getGlobalConstraints_of_a_foreign_constraint :
  WrapperDAO.getGlobalConstraints ∅ WrapperDAO.foreignConstraint
    (Some "TokenCapGC"%string)
  = Rejects "TypeError: s.wrapper is undefined"
  /\ WrapperDAO.getSchemes ∅ WrapperDAO.foreignConstraint (Some "TokenCapGC"%string)
     = Resolves [].
Proof. split; reflexivity. Qed.

End WrapperDAOFacts.

(** ** Creating a DAO *)

Module DAOCreationFacts.
Import DAO DAOCreation.

Lemma transactions_app (t t' : list Effect) :
  transactions (t ++ t') = transactions t ++ transactions t'.
Proof. apply List.filter_app. Qed.

Lemma avatarsRead_app (t t' : list Effect) :
  avatarsRead (t ++ t') = avatarsRead t ++ avatarsRead t'.
Proof. apply flat_map_app. Qed.

(** Finding the DaoCreator sends no transaction and reads no avatar. *)
Lemma daoCreatorFor_quiet (c : Collaborators) (dir : WrapperService.Directory)
  (factory : ContractWrapperFactory.Factory) (opts : NewDaoConfig)
  (st : ContractWrapperFactory.State) :
  transactions (ContractWrapperFactory.trace (snd (daoCreatorFor c dir factory opts st)))
  = transactions (ContractWrapperFactory.trace st)
  /\ avatarsRead (ContractWrapperFactory.trace (snd (daoCreatorFor c dir factory opts st)))
     = avatarsRead (ContractWrapperFactory.trace st).
Proof.
  assert (Hquiet : forall done,
             Forall (lookupEffect (ContractWrapperFactory.solidityContractName factory))
               done ->
             transactions done = [] /\ avatarsRead done = []).
  { induction 1 as [| e done [-> | ->] _ [IHt IHa]]; split; auto. }
  unfold daoCreatorFor. destruct (truthy (daoCreatorAddress opts)); [| now split].
  destruct (DAOFacts.at_trace (requireContract c) factory (hydrateFromAt c)
              (default EmptyString (daoCreatorAddress opts)) st) as (done & Ht & Hall).
  destruct (ContractWrapperFactory.at_ _ _ _ _ _) as [[r f'] st']. cbn [snd] in *.
  rewrite Ht, transactions_app, avatarsRead_app.
  destruct (Hquiet done Hall) as [-> ->]. now rewrite !app_nil_r.
Qed.

(** X22: the transactions of [DAO.new].  Whatever the collaborators do,
    [DAO.new] sends [forgeOrg], then [setSchemes], and nothing else, and
    can stop before either; it reads an avatar only after both.  When it
    returns, both were sent, [forgeOrg] logged an avatar that is not
    empty, [setSchemes] was given that avatar, and what is returned is
    what [DAO.at] answers for it. *)
Theorem new_sends_forgeOrg_then_setSchemes (c : Collaborators)
  (dir : WrapperService.Directory) (factory : ContractWrapperFactory.Factory)
  (opts : NewDaoConfig) (st : ContractWrapperFactory.State) :
  exists sent read,
    transactions (ContractWrapperFactory.trace (snd (new c dir factory opts st)))
    = transactions (ContractWrapperFactory.trace st) ++ sent
    /\ avatarsRead (ContractWrapperFactory.trace (snd (new c dir factory opts st)))
       = avatarsRead (ContractWrapperFactory.trace st) ++ read
    /\ (sent = []
        \/ sent = [SendTransaction "DaoCreator.forgeOrg"]
        \/ sent = [SendTransaction "DaoCreator.forgeOrg";
                   SendTransaction "DaoCreator.setSchemes"])
    /\ (read <> [] ->
        sent = [SendTransaction "DaoCreator.forgeOrg";
                SendTransaction "DaoCreator.setSchemes"])
    /\ (forall dao,
          fst (new c dir factory opts st) = Ok dao ->
          exists avatar,
            forgeOrg c opts = Ok (Some avatar)
            /\ avatar <> EmptyString
            /\ setSchemes c avatar opts = Ok tt
            /\ daoAt c avatar = Ok dao
            /\ sent = [SendTransaction "DaoCreator.forgeOrg";
                       SendTransaction "DaoCreator.setSchemes"]
            /\ read = [avatar]).
Proof.
  destruct (daoCreatorFor_quiet c dir factory opts st) as [Ht Ha].
  unfold new.
  destruct (daoCreatorFor c dir factory opts st) as [r st1]. cbn [snd] in Ht, Ha.
  destruct r as [[daoCreator |] | msg].
  - unfold TransactionService.publishKickoffEvent.
    destruct (forgeOrg c opts) as [avatarAddress | msg].
    + destruct (truthy avatarAddress) eqn:Htruthy; cbn [negb].
      * destruct avatarAddress as [avatar |]; [| discriminate].
        cbn in Htruthy. apply negb_true_iff, String.eqb_neq in Htruthy.
        cbn [default]. unfold id.
        destruct (setSchemes c avatar opts) as [[] | msg] eqn:Hset.
        -- exists [SendTransaction "DaoCreator.forgeOrg";
                   SendTransaction "DaoCreator.setSchemes"], [avatar].
           cbn [snd fst ContractWrapperFactory.emit ContractWrapperFactory.trace].
           rewrite !transactions_app, !avatarsRead_app, Ht, Ha. cbn.
           rewrite <- !app_assoc, !app_nil_r. cbn.
           repeat split; auto.
           intros dao Hdao. exists avatar. repeat split; auto.
        -- exists [SendTransaction "DaoCreator.forgeOrg";
                   SendTransaction "DaoCreator.setSchemes"], [].
           cbn [snd fst ContractWrapperFactory.emit ContractWrapperFactory.trace].
           rewrite !transactions_app, !avatarsRead_app, Ht, Ha. cbn.
           rewrite <- !app_assoc, !app_nil_r. cbn.
           repeat split; auto. discriminate.
      * exists [SendTransaction "DaoCreator.forgeOrg"], [].
        cbn [snd fst ContractWrapperFactory.emit ContractWrapperFactory.trace].
        rewrite !transactions_app, !avatarsRead_app, Ht, Ha. cbn.
        rewrite <- !app_assoc, !app_nil_r. cbn.
        repeat split; auto; [congruence | discriminate].
    + exists [SendTransaction "DaoCreator.forgeOrg"], [].
      cbn [snd fst ContractWrapperFactory.emit ContractWrapperFactory.trace].
      rewrite !transactions_app, !avatarsRead_app, Ht, Ha. cbn.
      rewrite <- !app_assoc, !app_nil_r. cbn.
      repeat split; auto; [congruence | discriminate].
  - exists [], []. cbn [snd fst]. rewrite !app_nil_r.
    repeat split; auto; [congruence | discriminate].
  - exists [], []. cbn [snd fst]. rewrite !app_nil_r.
    repeat split; auto; [congruence | discriminate].
Qed.

(** X28: [getGenesisDao] resolves exactly when a DaoCreator is found and
    its [InitialSchemesSet] history has an entry, and then to the avatar
    of the first entry.  It is rejected exactly when no DaoCreator is
    found.  With a DaoCreator whose history is empty, or cannot be
    fetched, it does not answer [undefined]: it never settles. *)
Theorem getGenesisDao_settles_iff (c : Collaborators) (dir : WrapperService.Directory)
  (factory : ContractWrapperFactory.Factory)
  (InitialSchemesSet : Wrapper -> Result (list Address))
  (daoCreatorAddress : option Address) (st : ContractWrapperFactory.State) :
  let found :=
    fst (daoCreatorFor c dir factory
           {| daoCreatorAddress := daoCreatorAddress; schemes := None |} st) in
  let genesis :=
    fst (getGenesisDao c dir factory InitialSchemesSet daoCreatorAddress st) in
  (forall avatarAddress,
     genesis = Resolves avatarAddress
     <-> exists daoCreator later,
           found = Ok (Some daoCreator)
           /\ InitialSchemesSet daoCreator = Ok (avatarAddress :: later))
  /\ ((exists ex, genesis = Rejects ex)
      <-> found = Ok None \/ exists ex, found = Throw ex)
  /\ (genesis = NeverSettles
      <-> exists daoCreator,
            found = Ok (Some daoCreator)
            /\ (InitialSchemesSet daoCreator = Ok []
                \/ exists err, InitialSchemesSet daoCreator = Throw err)).
Proof.
  cbv zeta. unfold getGenesisDao.
  destruct (daoCreatorFor _ _ _ _ _) as [[[daoCreator |] | ex] st1]; cbn [fst].
  - destruct (InitialSchemesSet daoCreator) as [[| first later] | err] eqn:Hlog; cbn [fst].
    + split; [| split].
      * intros a. split; [discriminate |].
        intros (d & l & [= <-] & Hd). congruence.
      * split; [intros (? & [=]) | intros [[=] | (? & [=])]].
      * split; [| reflexivity]. intros _. exists daoCreator. split; [reflexivity | now left].
    + split; [| split].
      * intros a. split.
        -- intros [= <-]. now exists daoCreator, later.
        -- intros (d & l & [= <-] & Hd). congruence.
      * split; [intros (? & [=]) | intros [[=] | (? & [=])]].
      * split; [discriminate |].
        intros (d & [= <-] & [Hd | (? & Hd)]); congruence.
    + split; [| split].
      * intros a. split; [discriminate |].
        intros (d & l & [= <-] & Hd). congruence.
      * split; [intros (? & [=]) | intros [[=] | (? & [=])]].
      * split; [| reflexivity]. intros _. exists daoCreator.
        split; [reflexivity | right; now exists err].
  - split; [| split].
    + intros a. split; [discriminate | intros (? & ? & [=] & _)].
    + split; [now left | intros _; eauto].
    + split; [discriminate | intros (? & [=] & _)].
  - split; [| split].
    + intros a. split; [discriminate | intros (? & ? & [=] & _)].
    + split; [intros _; right; eauto | intros _; eauto].
    + split; [discriminate | intros (? & [=] & _)].
Qed.

(** A DaoCreator that has made no DAO yet. *)
Example getGenesisDao_without_a_dao :
  fst (getGenesisDao cooperative directoryWithDaoCreator DaoCreatorFactory
         (fun _ => Ok []) None (ContractWrapperFactory.initial true))
  = NeverSettles.
Proof. reflexivity. Qed.

(** X23: a [forgeOrg] that is mined without an avatar in its logs, or
    with an empty one.  [DAO.new] then throws "avatar address is not
    defined" after the kickoff, which announced the transactions of
    [forgeOrg] and of [setSchemes] together: [setSchemes] is not sent and
    no DAO is read. *)
Theorem new_without_avatar (c : Collaborators) (dir : WrapperService.Directory)
  (factory : ContractWrapperFactory.Factory) (opts : NewDaoConfig)
  (st st1 : ContractWrapperFactory.State) (daoCreator : Wrapper)
  (avatarAddress : option Address) :
  daoCreatorFor c dir factory opts st = (Ok (Some daoCreator), st1) ->
  forgeOrg c opts = Ok avatarAddress ->
  truthy avatarAddress = false ->
  fst (new c dir factory opts st) = Throw "avatar address is not defined"
  /\ ContractWrapperFactory.trace (snd (new c dir factory opts st))
     = ContractWrapperFactory.trace st1
       ++ [ Publish "txReceipts.DAO.new"
              (TransactionService.kickoffPayload opts
                 (forgeOrgTransactionsCount c opts + setSchemesTransactionsCount c opts));
            NewTxEventContext "DAO.new";
            SendTransaction "DaoCreator.forgeOrg" ].
Proof.
  intros Hfor Hforge Hfalsy. unfold new. rewrite Hfor.
  unfold TransactionService.publishKickoffEvent. rewrite Hforge, Hfalsy. cbn.
  split; [reflexivity |]. now rewrite <- !app_assoc.
Qed.

Lemma new_without_avatar_witness :
  fst (new withoutAvatar directoryWithDaoCreator DaoCreatorFactory
         TransactionService.testOptions (ContractWrapperFactory.initial true))
  = Throw "avatar address is not defined"
  /\ ContractWrapperFactory.trace
       (snd (new withoutAvatar directoryWithDaoCreator DaoCreatorFactory
               TransactionService.testOptions (ContractWrapperFactory.initial true)))
     = ContractWrapperFactory.trace (ContractWrapperFactory.initial true)
       ++ [ Publish "txReceipts.DAO.new"
              (TransactionService.kickoffPayload TransactionService.testOptions
                 (forgeOrgTransactionsCount withoutAvatar TransactionService.testOptions
                  + setSchemesTransactionsCount withoutAvatar
                      TransactionService.testOptions));
            NewTxEventContext "DAO.new";
            SendTransaction "DaoCreator.forgeOrg" ].
Proof.
  eapply (new_without_avatar withoutAvatar directoryWithDaoCreator DaoCreatorFactory
            TransactionService.testOptions (ContractWrapperFactory.initial true)
            (ContractWrapperFactory.initial true) _ None);
    reflexivity.
Defined.

End DAOCreationFacts.

(** ** The proposals of the wrappers *)

Module ProposalsFacts.
Import Proposals.

Lemma truthy_given (option : option string) :
  truthy option = true -> option = Some (given option).
Proof. destruct option; [reflexivity | discriminate]. Qed.

(** X24: the proposals of the GlobalConstraintRegistrar.  Either of them
    calls its contract exactly when every option it needs is given and is
    not empty: once, with the options as arguments in the order of the
    contract method, and its result is that of the call.  With an option
    missing nothing is sent, and the error is the message of the first
    option missing, in the order avatar, constraint, parameters, voting
    machine. *)
Theorem globalConstraintRegistrar_sends_iff_complete (contract : Contract)
  (add : GlobalConstraintRegistrarWrapper.ProposeToAddModifyGlobalConstraintParams)
  (remove : GlobalConstraintRegistrarWrapper.ProposeToRemoveGlobalConstraintParams) :
  (match firstMissing
           [ (GlobalConstraintRegistrarWrapper.avatar add,
              "address is not defined"%string);
             (GlobalConstraintRegistrarWrapper.globalConstraint add,
              "globalConstraint is not defined"%string);
             (GlobalConstraintRegistrarWrapper.globalConstraintParametersHash add,
              "globalConstraintParametersHash is not defined"%string);
             (GlobalConstraintRegistrarWrapper.votingMachineHash add,
              "votingMachineHash is not defined"%string) ] with
   | Some message =>
       GlobalConstraintRegistrarWrapper.proposeToAddModifyGlobalConstraint contract add
       = (Throw message, [])
   | None =>
       exists a g h v,
         GlobalConstraintRegistrarWrapper.avatar add = Some a
         /\ GlobalConstraintRegistrarWrapper.globalConstraint add = Some g
         /\ GlobalConstraintRegistrarWrapper.globalConstraintParametersHash add = Some h
         /\ GlobalConstraintRegistrarWrapper.votingMachineHash add = Some v
         /\ GlobalConstraintRegistrarWrapper.proposeToAddModifyGlobalConstraint
              contract add
            = send contract
                {| method := "proposeGlobalConstraint"; arguments := [a; g; h; v] |}
   end)
  /\ (match firstMissing
              [ (GlobalConstraintRegistrarWrapper.removeAvatar remove,
                 "avatar address is not defined"%string);
                (GlobalConstraintRegistrarWrapper.removeGlobalConstraint remove,
                 "avatar globalConstraint is not defined"%string) ] with
      | Some message =>
          GlobalConstraintRegistrarWrapper.proposeToRemoveGlobalConstraint contract remove
          = (Throw message, [])
      | None =>
          exists a g,
            GlobalConstraintRegistrarWrapper.removeAvatar remove = Some a
            /\ GlobalConstraintRegistrarWrapper.removeGlobalConstraint remove = Some g
            /\ GlobalConstraintRegistrarWrapper.proposeToRemoveGlobalConstraint
                 contract remove
               = send contract {| method := "proposeToRemoveGC"; arguments := [a; g] |}
      end)
  /\ (snd (GlobalConstraintRegistrarWrapper.proposeToAddModifyGlobalConstraint
             contract add) = []
      <-> truthy (GlobalConstraintRegistrarWrapper.avatar add)
          && truthy (GlobalConstraintRegistrarWrapper.globalConstraint add)
          && truthy (GlobalConstraintRegistrarWrapper.globalConstraintParametersHash add)
          && truthy (GlobalConstraintRegistrarWrapper.votingMachineHash add) = false)
  /\ (snd (GlobalConstraintRegistrarWrapper.proposeToRemoveGlobalConstraint
             contract remove) = []
      <-> truthy (GlobalConstraintRegistrarWrapper.removeAvatar remove)
          && truthy (GlobalConstraintRegistrarWrapper.removeGlobalConstraint remove)
          = false).
Proof.
  unfold GlobalConstraintRegistrarWrapper.proposeToAddModifyGlobalConstraint,
    GlobalConstraintRegistrarWrapper.proposeToRemoveGlobalConstraint, firstMissing.
  split; [| split; [| split]].
  - repeat match goal with
      | |- context [truthy ?o] =>
          let H := fresh "Hgiven" in
          destruct (truthy o) eqn:H; cbn; [apply truthy_given in H | reflexivity]
      end.
    do 4 eexists. repeat (split; [eassumption |]). reflexivity.
  - repeat match goal with
      | |- context [truthy ?o] =>
          let H := fresh "Hgiven" in
          destruct (truthy o) eqn:H; cbn; [apply truthy_given in H | reflexivity]
      end.
    do 2 eexists. repeat (split; [eassumption |]). reflexivity.
  - repeat match goal with
      | |- context [truthy ?o] => destruct (truthy o); cbn
      end; split; intros; congruence.
  - repeat match goal with
      | |- context [truthy ?o] => destruct (truthy o); cbn
      end; split; intros; congruence.
Qed.

(** X25: the proposals of the UpgradeScheme, in the same way:
    [proposeController] needs the avatar and the controller,
    [proposeUpgradingScheme] the avatar, the scheme and the hash of its
    parameters. *)
Theorem upgradeScheme_sends_iff_complete (contract : Contract)
  (newController : UpgradeSchemeWrapper.ProposeControllerParams)
  (upgrading : UpgradeSchemeWrapper.ProposeUpgradingSchemeParams) :
  (match firstMissing
           [ (UpgradeSchemeWrapper.avatar newController,
              "avatar address is not defined"%string);
             (UpgradeSchemeWrapper.controller newController,
              "controller address is not defined"%string) ] with
   | Some message =>
       UpgradeSchemeWrapper.proposeController contract newController
       = (Throw message, [])
   | None =>
       exists a c,
         UpgradeSchemeWrapper.avatar newController = Some a
         /\ UpgradeSchemeWrapper.controller newController = Some c
         /\ UpgradeSchemeWrapper.proposeController contract newController
            = send contract {| method := "proposeUpgrade"; arguments := [a; c] |}
   end)
  /\ (match firstMissing
              [ (UpgradeSchemeWrapper.upgradingAvatar upgrading,
                 "avatar address is not defined"%string);
                (UpgradeSchemeWrapper.scheme upgrading,
                 "scheme is not defined"%string);
                (UpgradeSchemeWrapper.schemeParametersHash upgrading,
                 "schemeParametersHash is not defined"%string) ] with
      | Some message =>
          UpgradeSchemeWrapper.proposeUpgradingScheme contract upgrading
          = (Throw message, [])
      | None =>
          exists a s h,
            UpgradeSchemeWrapper.upgradingAvatar upgrading = Some a
            /\ UpgradeSchemeWrapper.scheme upgrading = Some s
            /\ UpgradeSchemeWrapper.schemeParametersHash upgrading = Some h
            /\ UpgradeSchemeWrapper.proposeUpgradingScheme contract upgrading
               = send contract
                   {| method := "proposeChangeUpgradingScheme";
                      arguments := [a; s; h] |}
      end)
  /\ (snd (UpgradeSchemeWrapper.proposeController contract newController) = []
      <-> truthy (UpgradeSchemeWrapper.avatar newController)
          && truthy (UpgradeSchemeWrapper.controller newController) = false)
  /\ (snd (UpgradeSchemeWrapper.proposeUpgradingScheme contract upgrading) = []
      <-> truthy (UpgradeSchemeWrapper.upgradingAvatar upgrading)
          && truthy (UpgradeSchemeWrapper.scheme upgrading)
          && truthy (UpgradeSchemeWrapper.schemeParametersHash upgrading) = false).
Proof.
  unfold UpgradeSchemeWrapper.proposeController,
    UpgradeSchemeWrapper.proposeUpgradingScheme, firstMissing.
  split; [| split; [| split]].
  - repeat match goal with
      | |- context [truthy ?o] =>
          let H := fresh "Hgiven" in
          destruct (truthy o) eqn:H; cbn; [apply truthy_given in H | reflexivity]
      end.
    do 2 eexists. repeat (split; [eassumption |]). reflexivity.
  - repeat match goal with
      | |- context [truthy ?o] =>
          let H := fresh "Hgiven" in
          destruct (truthy o) eqn:H; cbn; [apply truthy_given in H | reflexivity]
      end.
    do 3 eexists. repeat (split; [eassumption |]). reflexivity.
  - repeat match goal with
      | |- context [truthy ?o] => destruct (truthy o); cbn
      end; split; intros; congruence.
  - repeat match goal with
      | |- context [truthy ?o] => destruct (truthy o); cbn
      end; split; intros; congruence.
Qed.

End ProposalsFacts.

(** ** lib/utils.ts: the web3 object and the default account *)

Module UtilsWeb3Facts.
Import UtilsWeb3.

(** X26: [getWeb3] makes the web3 object once.  After a call that
    returned one, [Utils] holds it, and every later call returns that
    same object and leaves the statics alone, whatever is injected or
    configured by then, without making another. *)
Theorem getWeb3_once (newWeb3 : string -> Result Web3) (g : Globals) (s s' : Statics)
  (w : Web3) :
  getWeb3 newWeb3 g s = (Ok w, s') ->
  web3 s' = Some w
  /\ forall newWeb3' g', getWeb3 newWeb3' g' s' = (Ok w, s').
Proof.
  unfold getWeb3. intros Hget.
  assert (Hw' : web3 s' = Some w).
  { destruct (web3 s) as [w0 |] eqn:Hw.
    - now injection Hget as <- <-.
    - destruct (injected g) as [w0 |].
      + destruct (newWeb3 (currentProvider w0)); [| discriminate].
        now injection Hget as <- <-.
      + destruct (alreadyTriedAndFailed s); [discriminate |].
        destruct (newWeb3 _); [| discriminate].
        now injection Hget as <- <-. }
  split; [exact Hw' |].
  intros newWeb3' g'. now rewrite Hw'.
Qed.

Lemma getWeb3_once_witness :
  web3 {| web3 := Some {| currentProvider := "http://127.0.0.1:8545";
                          defaultAccount := None |};
          alreadyTriedAndFailed := false |}
  = Some {| currentProvider := "http://127.0.0.1:8545"; defaultAccount := None |}
  /\ forall newWeb3' g',
       getWeb3 newWeb3' g'
         {| web3 := Some {| currentProvider := "http://127.0.0.1:8545";
                            defaultAccount := None |};
            alreadyTriedAndFailed := false |}
       = (Ok {| currentProvider := "http://127.0.0.1:8545"; defaultAccount := None |},
          {| web3 := Some {| currentProvider := "http://127.0.0.1:8545";
                             defaultAccount := None |};
             alreadyTriedAndFailed := false |}).
Proof.
  apply (getWeb3_once connect local unused). reflexivity.
Defined.

(** X27: [getDefaultAccount] returns the first account of the node, and
    only one that is not empty; whenever the node answers with accounts,
    [defaultAccount] of the web3 object [Utils] keeps is set to the first
    of them, also when there is none and the call throws "accounts[0] is
    not set": the default account set before is then lost. *)
Theorem getDefaultAccount_first_account (newWeb3 : string -> Result Web3)
  (accounts : list string) (g : Globals) (s : Statics) (w : Web3) :
  fst (getWeb3 newWeb3 g s) = Ok w ->
  let '(r, s') := getDefaultAccount newWeb3 (Ok accounts) g s in
  web3 s' = Some {| currentProvider := currentProvider w;
                    defaultAccount := head accounts |}
  /\ match r with
     | Ok account => head accounts = Some account /\ account <> EmptyString
     | Throw msg =>
         msg = "accounts[0] is not set"%string
         /\ (head accounts = None \/ head accounts = Some EmptyString)
     end.
Proof.
  unfold getDefaultAccount. intros Hget.
  destruct (getWeb3 newWeb3 g s) as [r s1]. cbn in Hget. subst r.
  destruct accounts as [| account rest]; cbn.
  - split; [reflexivity |]. split; [reflexivity | now left].
  - destruct (String.eqb account "") eqn:E; cbn.
    + apply String.eqb_eq in E. subst account.
      split; [reflexivity |]. split; [reflexivity | now right].
    + apply String.eqb_neq in E. split; [reflexivity |]. now split.
Qed.

(** A node without accounts, asked after a default account was set. *)
Lemma getDefaultAccount_first_account_witness :
  let '(r, s') :=
    getDefaultAccount connect (Ok []) local
      {| web3 := Some {| currentProvider := "http://127.0.0.1:8545";
                         defaultAccount := Some "0xacc0"%string |};
         alreadyTriedAndFailed := false |} in
  web3 s' = Some {| currentProvider := "http://127.0.0.1:8545"; defaultAccount := None |}
  /\ match r with
     | Ok account => @head string [] = Some account /\ account <> EmptyString
     | Throw msg =>
         msg = "accounts[0] is not set"%string
         /\ (@head string [] = None \/ @head string [] = Some EmptyString)
     end.
Proof.
  apply (getDefaultAccount_first_account connect [] local
           {| web3 := Some {| currentProvider := "http://127.0.0.1:8545";
                              defaultAccount := Some "0xacc0"%string |};
              alreadyTriedAndFailed := false |}
           {| currentProvider := "http://127.0.0.1:8545";
              defaultAccount := Some "0xacc0"%string |}).
  reflexivity.
Defined.

End UtilsWeb3Facts.
